(** * DESFire host library: protocol engine, session state and helpers

    A shallow embedding of the TypeScript sources

      - [card/crypto.ts]   (CRC32, padding, rotation, key derivation, CMAC)
      - [card/apdu.ts]     (APDU builder and parser)
      - [card/desfire.ts]  (class [DESFireCard]: transmit engine, file
                            operations, authentication, key change)

    Buffers are lists of integers in [0, 256).  JavaScript's 32-bit
    bitwise operators are written with explicit wrap-around on [Z].
    Methods of [DESFireCard] are state transformers over a record holding
    the object's fields together with the reader the object talks to. *)

From Stdlib Require Import ZArith Lia List Bool.
From stdpp Require Import base list numbers gmap.

Local Open Scope Z_scope.

(** ** Buffers *)

Abbreviation Buffer := (list Z).

(** [Buffer.from([x])] and indexed stores keep the low eight bits. *)
Definition u8 (x : Z) : Z := x mod 256.

(** [Buffer.alloc(n, v)] *)
Definition alloc (n : nat) (v : Z) : Buffer := replicate n (u8 v).

(** [buf.slice(a, b)] for [0 <= a], [0 <= b]; indices past the end are
    clamped, as Node does. *)
Definition slice (buf : Buffer) (a b : nat) : Buffer :=
  take (b - a)%nat (drop a buf).

(** [buf.slice(-n)]: the last [n] bytes (the whole buffer when shorter). *)
Definition slice_last (buf : Buffer) (n : nat) : Buffer :=
  drop (length buf - n)%nat buf.

(** [buf.writeUIntLE(v, 0, n)] on a fresh buffer of [n] bytes. *)
Fixpoint uintLE (n : nat) (v : Z) : Buffer :=
  match n with
  | O => []
  | S k => (v mod 256) :: uintLE k (v / 256)
  end.

(** ** JavaScript 32-bit integer conversions *)

Definition toUint32 (x : Z) : Z := x mod 2 ^ 32.

Definition toInt32 (x : Z) : Z :=
  let u := x mod 2 ^ 32 in
  if 2 ^ 31 <=? u then u - 2 ^ 32 else u.

(** [a ^ b], [a & b], [~a], [a >>> n] of JavaScript. *)
Definition js_xor (a b : Z) : Z := toInt32 (Z.lxor (toInt32 a) (toInt32 b)).
Definition js_and (a b : Z) : Z := toInt32 (Z.land (toInt32 a) (toInt32 b)).
Definition js_not (a : Z) : Z := toInt32 (Z.lnot (toInt32 a)).
Definition js_ushr (a n : Z) : Z := Z.shiftr (toUint32 a) (n mod 32).

(** ** crypto.ts: CRC32 *)

Module CryptoUtils.

Definition polynomial : Z := 0xEDB88320.

(** One round of the inner loop:
    [crc = (crc & 1) ? (crc >>> 1) ^ polynomial : crc >>> 1]. *)
Definition crc32_round (crc : Z) : Z :=
  if js_and crc 1 =? 0 then js_ushr crc 1
  else js_xor (js_ushr crc 1) polynomial.

(** The body of the outer loop for one byte: [crc ^= data[i]] followed
    by eight rounds. *)
Definition crc32_byte (crc : Z) (b : Z) : Z :=
  Nat.iter 8 crc32_round (js_xor crc b).

Definition crc32 (data : Buffer) : Z :=
  let crc := fold_left crc32_byte data 0xFFFFFFFF in
  js_ushr (js_not crc) 0.

(** [crc32Buffer]: the CRC written with [writeUInt32LE]. *)
Definition crc32Buffer (data : Buffer) : Buffer :=
  uintLE 4 (crc32 data).

(** ** crypto.ts: rotation and padding *)

(** [rotateLeft(buffer, bytes)]: [result[i] = buffer[(i + bytes) % length]].
    The source adds in double precision, so this is the function for
    counts with [length + bytes <= 2^53], where the sum is exact; every
    caller passes 1. *)
Definition rotateLeft (buffer : Buffer) (bytes : nat) : Buffer :=
  map (fun i => default 0 (buffer !! ((i + bytes) mod length buffer)%nat))
      (seq 0 (length buffer)).

(** [padData(data, blockSize)] (ISO/IEC 9797-1 method 2).  The callers
    and the default use a positive [blockSize]. *)
Definition padData (data : Buffer) (blockSize : nat) : Buffer :=
  let paddingLength := (blockSize - length data mod blockSize)%nat in
  let padding := <[0%nat := 0x80]> (alloc paddingLength 0) in
  data ++ padding.

(** The loop of [unpadData], entered with [i = n - 1]: scan downwards
    for the last [0x80], give up at the first byte that is neither
    [0x80] nor [0x00]. *)
Fixpoint unpad_scan (data : Buffer) (n : nat) : Buffer :=
  match n with
  | O => data
  | S i =>
      match data !! i with
      | Some b =>
          if b =? 0x80 then slice data 0 i
          else if negb (b =? 0x00) then data
          else unpad_scan data i
      | None => data
      end
  end.

Definition unpadData (data : Buffer) : Buffer :=
  unpad_scan data (length data).

End CryptoUtils.

(** ** apdu.ts *)

(** The object returned by [APDU.parse].  Its [status] string is a
    human-readable rendering of [(sw1, sw2)] used only in messages. *)
Record Parsed := mkParsed { sw1 : Z; sw2 : Z; data : Buffer }.

(** keyManager.ts: [type KeyType = 'AES' | 'DES' | '3DES'] *)
Inductive KeyType : Type := AES | DES | TripleDES.

(** Thrown values, one constructor per [throw] site (the message text is
    dropped, the status word it formats is kept). *)
Inductive Error : Type :=
| InvalidApduResponse                 (* apdu.ts: response too short *)
| DataRequired                        (* apdu.ts: build, case 4 *)
| TransportError                      (* reader.transmit rejected *)
| EscapeError                         (* escape pass-through rejected *)
| NullResult                          (* [last!] on an empty attempt list *)
| CommandFailed (s1 s2 : Z)           (* sendCommand *)
| WriteDataFailed (s1 s2 : Z)
| WriteDataAFFailed (sent : nat) (s1 s2 : Z)
| RangeError                          (* writeUIntLE out of range *)
| NoKeyProvided
| KeySetNotFound (app : Z)
| KeyNotFound (app keyNo : Z)
| AesKeyMustBe16
| CmacKeyMustBe16
| ExpectedRndB (got : nat)
| ExpectedEncRndA (got : nat)
| ExpectedAtLeast16 (got : nat)
| ExpectedAtLeastTI (got : nat)
| RndAVerificationFailed
| NonFirstRequiresFirst
| DesAuthFailed (s1 s2 : Z)
| DesAuthStep2Failed (s1 s2 : Z)
| EncRndBTooShort
| EncRndAPrimeTooShort
| DesRndAVerificationFailed
| AuthRequired
| EV2AuthRequired
| KeysMustBe16
| CipherError                         (* node:crypto rejected key, IV or length *)
| OutOfFuel
| BuffersMustBeEqualLength            (* crypto.ts: xorBuffers *)
| GetVersionFailed (withLe : bool) (s1 s2 : Z)
| GetVersionAFFailed (withLe : bool) (s1 s2 : Z)
| InvalidGetKeySettings
| KeyMustBeExactly (type : KeyType) (expectedLen : nat). (* keyManager.ts: setKey *)

Inductive Result (A : Type) : Type :=
| Ok (a : A)
| Throw (e : Error).
Arguments Ok {A} a.
Arguments Throw {A} e.

Module APDU.

(** [APDU.build(cla, ins, p1, p2, data?, le?)]; an absent argument is
    [None].  A buffer, even an empty one, is truthy. *)
Definition build (cla ins p1 p2 : Z) (data : option Buffer) (le : option Z)
  : Buffer :=
  let header := [u8 cla; u8 ins; u8 p1; u8 p2] in
  match data, le with
  | None, None => header
  | None, Some le => header ++ [u8 le]
  | Some d, None => header ++ [u8 (Z.of_nat (length d))] ++ d
  | Some d, Some le => header ++ [u8 (Z.of_nat (length d))] ++ d ++ [u8 le]
  end.

(** [APDU.buildDESFire(cmd, data?, le = 0)] *)
Definition buildDESFire (cmd : Z) (data : option Buffer) (le : Z) : Buffer :=
  build 0x90 cmd 0x00 0x00 data (Some le).

Definition parse (response : Buffer) : Result Parsed :=
  if (length response <? 2)%nat then Throw InvalidApduResponse
  else
    let n := length response in
    Ok {| sw1 := default 0 (response !! (n - 2)%nat);
          sw2 := default 0 (response !! (n - 1)%nat);
          data := slice response 0 (n - 2) |}.

Definition isSuccess (sw1 sw2 : Z) : bool :=
  ((sw1 =? 0x90) && (sw2 =? 0x00)) || ((sw1 =? 0x91) && (sw2 =? 0x00)).

Definition isAdditionalFrame (sw1 sw2 : Z) : bool :=
  (sw1 =? 0x91) && (sw2 =? 0xAF).

End APDU.

(** ** desfire.ts: command codes (the ones the methods below use) *)

Module DesfireCommand.
Definition GET_VERSION : Z := 0x60.
Definition GET_APPLICATION_IDS : Z := 0x6A.
Definition SELECT_APPLICATION : Z := 0x5A.
Definition READ_DATA : Z := 0xBD.
Definition WRITE_DATA : Z := 0x3D.
Definition AUTHENTICATE : Z := 0x0A.
Definition AUTHENTICATE_AES : Z := 0xAA.
Definition AUTHENTICATE_EV2_FIRST : Z := 0x71.
Definition AUTHENTICATE_EV2_NON_FIRST : Z := 0x77.
Definition CHANGE_KEY_EV2 : Z := 0xC6.
Definition ADDITIONAL_FRAME : Z := 0xAF.
End DesfireCommand.

(** ** The reader and the platform

    [reader.transmit] is an oracle: each call consumes the next entry of
    [tx_tape] ([None], or an exhausted tape, is a rejected promise) and
    records the APDU it was given in [tx_log].  Since the library's
    control flow depends on the card only through these answers,
    quantifying over tapes covers every card and reader.

    The helpers of [acr122u.ts] talk to the reader over its control
    channel only; a call of [transmitViaAcr122U] is modelled by its
    outcome, read from [esc_tape], and [ensureIsoDep], whose result
    [transmitParsed] discards, leaves no trace in this state. *)
Record Reader := mkReader {
  acr122u : bool;                      (* isACR122U(reader) *)
  tx_tape : list (option Buffer);
  tx_log : list Buffer;
  esc_tape : list (option Buffer);
  esc_log : list Buffer
}.

(** keyManager.ts: key sets by application id. *)
Record KeySet := mkKeySet {
  appId : Z;
  keyType : KeyType;
  keys : gmap Z Buffer;                (* key number -> key bytes *)
  keyVersions : gmap Z Z               (* key number -> version *)
}.

(** The fields declared under "Authentication state".  Session keys are
    buffers that [resetAuth] overwrites in place, so the fields hold
    references into [heap]. *)
Record AuthState := mkAuth {
  authenticated : bool;
  authenticatedKeyNo : option Z;
  sessionKeyEnc : option nat;
  sessionKeyMac : option nat;
  transactionId : option Buffer;
  commandCounter : Z
}.

Record Card := mkCard {
  reader : Reader;
  currentApp : option Z;
  keyManager : option (gmap Z KeySet);
  preferNoLe : bool;
  auth : AuthState;
  heap : list Buffer;                  (* buffers written in place *)
  entropy : nat -> Z;                  (* crypto.randomBytes *)
  entropy_pos : nat
}.

(** The state of a freshly constructed [DESFireCard]. *)
Definition initialAuth : AuthState :=
  {| authenticated := false; authenticatedKeyNo := None;
     sessionKeyEnc := None; sessionKeyMac := None;
     transactionId := None; commandCounter := 0 |}.

Definition newCard (r : Reader) (km : option (gmap Z KeySet))
    (rnd : nat -> Z) : Card :=
  {| reader := r; currentApp := None; keyManager := km; preferNoLe := true;
     auth := initialAuth; heap := []; entropy := rnd; entropy_pos := 0 |}.

Definition set_reader (r : Reader) (c : Card) : Card :=
  mkCard r (currentApp c) (keyManager c) (preferNoLe c) (auth c) (heap c)
         (entropy c) (entropy_pos c).
Definition set_currentApp (a : option Z) (c : Card) : Card :=
  mkCard (reader c) a (keyManager c) (preferNoLe c) (auth c) (heap c)
         (entropy c) (entropy_pos c).
Definition set_preferNoLe (b : bool) (c : Card) : Card :=
  mkCard (reader c) (currentApp c) (keyManager c) b (auth c) (heap c)
         (entropy c) (entropy_pos c).
Definition set_auth (a : AuthState) (c : Card) : Card :=
  mkCard (reader c) (currentApp c) (keyManager c) (preferNoLe c) a (heap c)
         (entropy c) (entropy_pos c).
Definition set_heap (h : list Buffer) (c : Card) : Card :=
  mkCard (reader c) (currentApp c) (keyManager c) (preferNoLe c) (auth c) h
         (entropy c) (entropy_pos c).
Definition set_entropy_pos (p : nat) (c : Card) : Card :=
  mkCard (reader c) (currentApp c) (keyManager c) (preferNoLe c) (auth c)
         (heap c) (entropy c) p.

(** Assignments to the authentication fields. *)
Definition set_authenticated (b : bool) (c : Card) : Card :=
  set_auth (mkAuth b (authenticatedKeyNo (auth c)) (sessionKeyEnc (auth c))
                   (sessionKeyMac (auth c)) (transactionId (auth c))
                   (commandCounter (auth c))) c.
Definition set_authenticatedKeyNo (k : option Z) (c : Card) : Card :=
  set_auth (mkAuth (authenticated (auth c)) k (sessionKeyEnc (auth c))
                   (sessionKeyMac (auth c)) (transactionId (auth c))
                   (commandCounter (auth c))) c.
Definition set_sessionKeyEnc (r : option nat) (c : Card) : Card :=
  set_auth (mkAuth (authenticated (auth c)) (authenticatedKeyNo (auth c)) r
                   (sessionKeyMac (auth c)) (transactionId (auth c))
                   (commandCounter (auth c))) c.
Definition set_sessionKeyMac (r : option nat) (c : Card) : Card :=
  set_auth (mkAuth (authenticated (auth c)) (authenticatedKeyNo (auth c))
                   (sessionKeyEnc (auth c)) r (transactionId (auth c))
                   (commandCounter (auth c))) c.
Definition set_transactionId (t : option Buffer) (c : Card) : Card :=
  set_auth (mkAuth (authenticated (auth c)) (authenticatedKeyNo (auth c))
                   (sessionKeyEnc (auth c)) (sessionKeyMac (auth c)) t
                   (commandCounter (auth c))) c.
Definition set_commandCounter (n : Z) (c : Card) : Card :=
  set_auth (mkAuth (authenticated (auth c)) (authenticatedKeyNo (auth c))
                   (sessionKeyEnc (auth c)) (sessionKeyMac (auth c))
                   (transactionId (auth c)) n) c.

(** ** Methods as state transformers that may throw

    A thrown error leaves the state as it was at the [throw]. *)
Definition M (A : Type) : Type := Card -> Result A * Card.

Definition ret {A} (a : A) : M A := fun c => (Ok a, c).
Definition throw {A} (e : Error) : M A := fun c => (Throw e, c).
Definition bind {A B} (m : M A) (k : A -> M B) : M B :=
  fun c => match m c with
           | (Ok a, c') => k a c'
           | (Throw e, c') => (Throw e, c')
           end.
Definition lift {A} (r : Result A) : M A := fun c => (r, c).
Definition gets {A} (f : Card -> A) : M A := fun c => (Ok (f c), c).
Definition modify (f : Card -> Card) : M unit := fun c => (Ok tt, f c).

(** [try { x = m } catch {}]: [None] when [m] threw. *)
Definition attempt {A} (m : M A) : M (option A) :=
  fun c => match m c with
           | (Ok a, c') => (Ok (Some a), c')
           | (Throw _, c') => (Ok None, c')
           end.

Notation "'let*' x ':=' m 'in' k" := (bind m (fun x => k))
  (at level 10, x name, m at level 200, k at level 200).
Notation "m ';;;' k" := (bind m (fun _ => k))
  (at level 100, right associativity).

(** [await this.reader.transmit(apdu, 256)] *)
Definition transmit (apdu : Buffer) : M Buffer :=
  fun c =>
    let r := reader c in
    let logged := mkReader (acr122u r) (tail (tx_tape r)) (tx_log r ++ [apdu])
                           (esc_tape r) (esc_log r) in
    match tx_tape r with
    | Some response :: _ => (Ok response, set_reader logged c)
    | _ => (Throw TransportError, set_reader logged c)
    end.

(** [await transmitViaAcr122U(this.reader, apdu, 512)] *)
Definition transmitViaAcr122U (apdu : Buffer) : M Buffer :=
  fun c =>
    let r := reader c in
    let logged := mkReader (acr122u r) (tx_tape r) (tx_log r)
                           (tail (esc_tape r)) (esc_log r ++ [apdu]) in
    match esc_tape r with
    | Some response :: _ => (Ok response, set_reader logged c)
    | _ => (Throw EscapeError, set_reader logged c)
    end.

(** [CryptoUtils.generateRandom(n)] *)
Definition generateRandom (n : nat) : M Buffer :=
  fun c =>
    (Ok (map (fun i => u8 (entropy c (entropy_pos c + i)%nat)) (seq 0 n)),
     set_entropy_pos (entropy_pos c + n)%nat c).

(** ** desfire.ts: the transmit engine *)

Definition has2 (r : option Buffer) : bool :=
  match r with
  | Some b => (2 <=? length b)%nat
  | None => false
  end.

(** [parsed.sw1 === 0x91 && (parsed.sw2 === 0x7E || parsed.sw2 === 0xA1)] *)
Definition isLengthError (p : Parsed) : bool :=
  (sw1 p =? 0x91) && ((sw2 p =? 0x7E) || (sw2 p =? 0xA1)).

Definition accepted (p : Parsed) : bool :=
  APDU.isSuccess (sw1 p) (sw2 p) || APDU.isAdditionalFrame (sw1 p) (sw2 p).

(** Step 3 of [transmitParsed]: the APDU with its Le presence toggled,
    for no-data APDUs only. *)
Definition toggleLe (apdu : Buffer) : option Buffer :=
  if (length apdu =? 4)%nat then Some (apdu ++ [0x00])
  else if (length apdu =? 5)%nat && (default 0 (apdu !! 4%nat) =? 0x00)
       then Some (slice apdu 0 4)
  else None.

Definition transmitParsed (apdu : Buffer) : M Parsed :=
  (* 1) standard transmit with one retry *)
  let* first := attempt (transmit apdu) in
  let* response :=
    match first with
    | Some r => ret (Some r)
    | None => attempt (transmit apdu)
    end in
  if has2 response then lift (APDU.parse (default [] response))
  else
    (* 2) ACR122U escape pass-through *)
    let* isAcr := gets (fun c => acr122u (reader c)) in
    let* escResp :=
      if isAcr then attempt (transmitViaAcr122U apdu) else ret None in
    if has2 escResp then lift (APDU.parse (default [] escResp))
    else
      (* 3) last resort: toggle Le presence *)
      let* rx :=
        match toggleLe apdu with
        | Some toggled => attempt (transmit toggled)
        | None => ret None
        end in
      if has2 rx then lift (APDU.parse (default [] rx))
      else lift (APDU.parse (default [] response)).

(** The [for] loop of [tryTransmitAttempts]; [last] is the variable of
    that name. *)
Fixpoint tryTransmitAttempts_from (last : option Parsed)
    (attempts : list (Buffer * bool)) : M Parsed :=
  match attempts with
  | [] =>
      match last with
      | Some p => ret p
      | None => throw NullResult
      end
  | (apdu, usesLe) :: rest =>
      let* parsed := transmitParsed apdu in
      if accepted parsed then
        modify (set_preferNoLe (negb usesLe)) ;;; ret parsed
      else if negb (isLengthError parsed) then ret parsed
      else tryTransmitAttempts_from (Some parsed) rest
  end.

Definition tryTransmitAttempts (attempts : list (Buffer * bool)) : M Parsed :=
  tryTransmitAttempts_from None attempts.

(** The array literal the callers build:
    [this.preferNoLe ? [noLe, withLe] : [withLe, noLe]]. *)
Definition attemptsInOrder (prefer : bool) (noLe withLe : Buffer)
  : list (Buffer * bool) :=
  if prefer then [(noLe, false); (withLe, true)]
  else [(withLe, true); (noLe, false)].

(** The number of reader answers not yet consumed. *)
Definition pending (c : Card) : nat :=
  (length (tx_tape (reader c)) + length (esc_tape (reader c)))%nat.

(** [getAdditionalFrame] calls itself for as long as the card answers
    91 AF; [fuel] bounds the depth of that recursion. *)
Fixpoint getAdditionalFrame_fuel (fuel : nat) : M Buffer :=
  match fuel with
  | O => throw OutOfFuel
  | S fuel' =>
      let* prefer := gets preferNoLe in
      let* parsed :=
        tryTransmitAttempts
          (attemptsInOrder prefer
             [0x90; DesfireCommand.ADDITIONAL_FRAME; 0x00; 0x00]
             [0x90; DesfireCommand.ADDITIONAL_FRAME; 0x00; 0x00; 0x00]) in
      if APDU.isAdditionalFrame (sw1 parsed) (sw2 parsed) then
        let* additionalData := getAdditionalFrame_fuel fuel' in
        ret (data parsed ++ additionalData)
      else ret (data parsed)
  end.

(** Every frame fetched consumes a reader answer, so one more than the
    number of pending answers is enough fuel (see
    [getAdditionalFrame_fuel_enough]). *)
Definition getAdditionalFrame : M Buffer :=
  fun c => getAdditionalFrame_fuel (S (pending c)) c.

(** The two encodings of a logical command in [sendCommand]: with a
    non-empty payload [APDU.build] is used, otherwise the four header
    bytes are written out, followed by Le = 0 in the Le-present form. *)
Definition encodeCommand (cmd : Z) (data_ : option Buffer) (usesLe : bool)
  : Buffer :=
  match data_ with
  | Some d =>
      if (0 <? length d)%nat then
        APDU.build 0x90 cmd 0x00 0x00 (Some d)
                   (if usesLe then Some 0 else None)
      else [0x90; u8 cmd; 0x00; 0x00] ++ (if usesLe then [0x00] else [])
  | None => [0x90; u8 cmd; 0x00; 0x00] ++ (if usesLe then [0x00] else [])
  end.

Definition commandAttempts (prefer : bool) (cmd : Z) (data_ : option Buffer)
  : list (Buffer * bool) :=
  attemptsInOrder prefer (encodeCommand cmd data_ false)
                         (encodeCommand cmd data_ true).

(** [sendCommand(cmd, data?, expectResponse)]; [expectResponse] is not
    read by the body. *)
Definition sendCommand (cmd : Z) (data_ : option Buffer) : M Buffer :=
  let* prefer := gets preferNoLe in
  let* parsed := tryTransmitAttempts (commandAttempts prefer cmd data_) in
  if negb (APDU.isSuccess (sw1 parsed) (sw2 parsed))
     && negb (APDU.isAdditionalFrame (sw1 parsed) (sw2 parsed))
  then throw (CommandFailed (sw1 parsed) (sw2 parsed))
  else if APDU.isAdditionalFrame (sw1 parsed) (sw2 parsed) then
    let* additionalData := getAdditionalFrame in
    ret (data parsed ++ additionalData)
  else ret (data parsed).

(** ** desfire.ts: application and file operations *)

(** [buf.writeUIntLE(v, 0, 3)]: Node rejects values outside [0, 2^24). *)
Definition writeUIntLE3 (v : Z) : Result Buffer :=
  if (0 <=? v) && (v <? 2 ^ 24) then Ok (uintLE 3 v) else Throw RangeError.

Definition selectApplication (aid : Z) : M unit :=
  let* aidBuffer := lift (writeUIntLE3 aid) in
  let* _ := sendCommand DesfireCommand.SELECT_APPLICATION (Some aidBuffer) in
  modify (set_currentApp (Some aid)).

Definition readData (fileNo offset length_ : Z) : M Buffer :=
  let* offsetBuffer := lift (writeUIntLE3 offset) in
  let* lengthBuffer := lift (writeUIntLE3 length_) in
  sendCommand DesfireCommand.READ_DATA
    (Some ([u8 fileNo] ++ offsetBuffer ++ lengthBuffer)).

Definition MAX_CHUNK : nat := 40.

(** The [while (sent < data.length)] loop of [writeData].  Every round
    advances [sent] by at least one byte, so [length data] rounds of
    fuel are enough. *)
Fixpoint writeData_loop (fuel : nat) (data_ : Buffer) (sent : nat) : M unit :=
  if (sent <? length data_)%nat then
    match fuel with
    | O => throw OutOfFuel
    | S fuel' =>
        let remaining := (length data_ - sent)%nat in
        let chunk := slice data_ sent (sent + Nat.min remaining MAX_CHUNK) in
        let* first :=
          transmitParsed
            (APDU.build 0x90 DesfireCommand.ADDITIONAL_FRAME 0x00 0x00
                        (Some chunk) (Some 0)) in
        let* parsed :=
          if isLengthError first then
            transmitParsed
              (APDU.build 0x90 DesfireCommand.ADDITIONAL_FRAME 0x00 0x00
                          (Some chunk) None)
          else ret first in
        if negb (accepted parsed) then
          throw (WriteDataAFFailed sent (sw1 parsed) (sw2 parsed))
        else writeData_loop fuel' data_ (sent + length chunk)
    end
  else ret tt.

Definition writeData (fileNo offset : Z) (data_ : Buffer) : M unit :=
  let* offsetBuffer := lift (writeUIntLE3 offset) in
  let* lengthBuffer := lift (writeUIntLE3 (Z.of_nat (length data_))) in
  let firstChunk := slice data_ 0 (Nat.min (length data_) MAX_CHUNK) in
  let firstPayload := [u8 fileNo] ++ offsetBuffer ++ lengthBuffer ++ firstChunk in
  let* parsed :=
    transmitParsed
      (APDU.buildDESFire DesfireCommand.WRITE_DATA (Some firstPayload) 0) in
  if negb (accepted parsed) then
    throw (WriteDataFailed (sw1 parsed) (sw2 parsed))
  else writeData_loop (length data_) data_ (length firstChunk).

(** ** desfire.ts: session state *)

(** [buf.fill(0)] on the buffer a field refers to. *)
Definition fill0 (ref : option nat) (h : list Buffer) : list Buffer :=
  match ref with
  | Some l => alter (fun b => alloc (length b) 0) l h
  | None => h
  end.

Definition resetAuth : M unit :=
  modify (set_authenticated false) ;;;
  modify (set_authenticatedKeyNo None) ;;;
  modify (fun c => set_heap (fill0 (sessionKeyEnc (auth c)) (heap c)) c) ;;;
  modify (fun c => set_heap (fill0 (sessionKeyMac (auth c)) (heap c)) c) ;;;
  modify (set_sessionKeyEnc None) ;;;
  modify (set_sessionKeyMac None) ;;;
  modify (set_transactionId None) ;;;
  modify (set_commandCounter 0).

(** A freshly created buffer (the result of [Buffer.concat] or of a
    slice of a fresh buffer), stored for later in-place writes. *)
Definition newBuffer (b : Buffer) : M nat :=
  fun c => (Ok (length (heap c)), set_heap (heap c ++ [b]) c).

Definition readBuffer (l : nat) : M Buffer :=
  gets (fun c => default [] (heap c !! l)).

(** keyManager.ts: [getKey(appId, keyNo)] *)
Definition getKey (km : gmap Z KeySet) (app keyNo : Z) : Result Buffer :=
  match km !! app with
  | None => Throw (KeySetNotFound app)
  | Some keySet =>
      match keys keySet !! keyNo with
      | None => Throw (KeyNotFound app keyNo)
      | Some key => Ok key
      end
  end.

(** The key-selection prologue shared by the three AES handshakes. *)
Definition resolveKey (keyNo : Z) (key : option Buffer) : M Buffer :=
  match key with
  | Some k => ret k
  | None =>
      let* km := gets keyManager in
      let* app := gets currentApp in
      match km, app with
      | Some km, Some app => lift (getKey km app keyNo)
      | _, _ => throw NoKeyProvided
      end
  end.

(** ** node:crypto

    The block ciphers come from the platform.  They are taken as an
    interface; the wrappers below add the checks with which
    [createCipheriv] and, with auto-padding off, [final] throw: key
    length, IV length, and input that is not a whole number of blocks. *)
Class NodeCrypto := {
  aes_128_ecb : Buffer -> Buffer -> Buffer;              (* key, block *)
  aes_128_cbc_encrypt : Buffer -> Buffer -> Buffer -> Buffer;  (* key, iv, data *)
  aes_128_cbc_decrypt : Buffer -> Buffer -> Buffer -> Buffer;
  des_ede_cbc_encrypt : Buffer -> Buffer -> Buffer -> Buffer;
  des_ede_cbc_decrypt : Buffer -> Buffer -> Buffer -> Buffer;
  des_ede3_cbc_encrypt : Buffer -> Buffer -> Buffer -> Buffer;
  des_ede3_cbc_decrypt : Buffer -> Buffer -> Buffer -> Buffer
}.

Definition cipheriv (keyLen ivLen blockLen : nat)
    (f : Buffer -> Buffer -> Buffer -> Buffer) (key iv input : Buffer)
  : Result Buffer :=
  if (length key =? keyLen)%nat && (length iv =? ivLen)%nat
     && (length input mod blockLen =? 0)%nat
  then Ok (f key iv input) else Throw CipherError.

Definition xorBuf (a b : Buffer) : Buffer := zip_with Z.lxor a b.

Section WithCrypto.
Context `{NodeCrypto}.

(** [aesEncrypt(key, data, iv = Buffer.alloc(16, 0x00))] *)
Definition aesEncrypt (key data_ : Buffer) (iv : Buffer) : Result Buffer :=
  cipheriv 16 16 16 aes_128_cbc_encrypt key iv data_.

Definition aesDecrypt (key data_ : Buffer) (iv : Buffer) : Result Buffer :=
  cipheriv 16 16 16 aes_128_cbc_decrypt key iv data_.

(** [des3Encrypt(data, key, iv)], [des3Decrypt(data, key, iv)] *)
Definition des3Encrypt (data_ key iv : Buffer) : Result Buffer :=
  if (length key =? 24)%nat
  then cipheriv 24 8 8 des_ede3_cbc_encrypt key iv data_
  else cipheriv 16 8 8 des_ede_cbc_encrypt key iv data_.

Definition des3Decrypt (data_ key iv : Buffer) : Result Buffer :=
  if (length key =? 24)%nat
  then cipheriv 24 8 8 des_ede3_cbc_decrypt key iv data_
  else cipheriv 16 8 8 des_ede_cbc_decrypt key iv data_.

(** *** crypto.ts: AES-CMAC *)

Definition rb : Buffer := alloc 15 0 ++ [0x87].

(** The loop [for (i = 15; i >= 0; i--)] shifting a block left by one
    bit, carry entering from the right. *)
Definition shiftLeft1 (l : Buffer) : Buffer :=
  fst (fold_right
         (fun b acc =>
            (u8 (Z.lor (Z.shiftl b 1) (snd acc)) :: fst acc,
             if Z.land b 0x80 =? 0 then 0 else 1))
         ([], 0) l).

Definition subkeyStep (l : Buffer) : Buffer :=
  let k := shiftLeft1 l in
  if Z.land (default 0 (l !! 0%nat)) 0x80 =? 0 then k else xorBuf k rb.

Definition generateCMACSubkeys (key : Buffer) : Buffer * Buffer :=
  let l := aes_128_ecb key (alloc 16 0x00) in
  let k1 := subkeyStep l in
  let k2 := subkeyStep k1 in
  (k1, k2).

(** [paddedData[paddedData.length - 16 + i] ^= k[i]] for [i < 16];
    stores at negative indices are dropped. *)
Definition xorLastBlock (padded k : Buffer) : Buffer :=
  if (length padded <? 16)%nat then padded
  else take (length padded - 16) padded
       ++ xorBuf (drop (length padded - 16) padded) k.

(** The CBC-MAC loop over 16-byte blocks. *)
Fixpoint cbcMac (blocks : nat) (key mac padded : Buffer) : Buffer :=
  match blocks with
  | O => mac
  | S n =>
      cbcMac n key (aes_128_ecb key (xorBuf mac (take 16 padded)))
             (drop 16 padded)
  end.

Definition aesCMAC (key data_ : Buffer) (length_ : option nat)
  : Result Buffer :=
  if negb (length key =? 16)%nat then Throw CmacKeyMustBe16
  else
    let (k1, k2) := generateCMACSubkeys key in
    let outputLength :=
      match length_ with Some (S n) => S n | _ => 16%nat end in
    let numBlocks := ((length data_ + 15) / 16)%nat in
    let paddedData :=
      if (length data_ =? 0)%nat || negb (length data_ mod 16 =? 0)%nat then
        xorLastBlock
          (take (numBlocks * 16)
                (data_ ++ [0x80] ++ alloc (numBlocks * 16) 0)) k2
      else xorLastBlock data_ k1 in
    Ok (slice (cbcMac (length paddedData / 16) key (alloc 16 0x00) paddedData)
              0 outputLength).

(** *** crypto.ts: session-key derivation *)

Definition deriveSessionKeyEV2Enc (key rndA rndB : Buffer) : Result Buffer :=
  aesCMAC key ([0xA5; 0x5A; 0x00; 0x01; 0x00; 0x80]
               ++ slice rndA 0 2 ++ slice rndB 0 2
               ++ slice rndA 13 16 ++ slice rndB 13 16) (Some 16%nat).

Definition deriveSessionKeyEV2Mac (key rndA rndB : Buffer) : Result Buffer :=
  aesCMAC key ([0x5A; 0xA5; 0x00; 0x01; 0x00; 0x80]
               ++ slice rndA 0 2 ++ slice rndB 0 2
               ++ slice rndA 13 16 ++ slice rndB 13 16) (Some 16%nat).

Definition deriveSessionKeyAESEnc (key rndA rndB : Buffer) : Buffer :=
  slice rndA 0 4 ++ slice rndB 0 4 ++ slice rndA 12 16 ++ slice rndB 12 16.

Definition deriveSessionKeyAESMac (key rndA rndB : Buffer) : Buffer :=
  slice rndA 4 8 ++ slice rndB 4 8 ++ slice rndA 8 12 ++ slice rndB 8 12.

End WithCrypto.

(** ** desfire.ts: authentication and key change *)

Section Authentication.
Context `{NodeCrypto}.

Definition zeroIV16 : Buffer := alloc 16 0x00.

Definition authenticateAES (keyNo : Z) (key : option Buffer) : M unit :=
  let* authKey := resolveKey keyNo key in
  if negb (length authKey =? 16)%nat then throw AesKeyMustBe16
  else
    resetAuth ;;;
    let* response1 :=
      sendCommand DesfireCommand.AUTHENTICATE_AES (Some [u8 keyNo]) in
    if negb (length response1 =? 16)%nat
    then throw (ExpectedRndB (length response1))
    else
      let encRndB := response1 in
      let* rndB := lift (aesDecrypt authKey encRndB zeroIV16) in
      let* rndA := generateRandom 16 in
      let rndBPrime := CryptoUtils.rotateLeft rndB 1 in
      let challenge := rndA ++ rndBPrime in
      let* encChallenge := lift (aesEncrypt authKey challenge zeroIV16) in
      let* response2 :=
        sendCommand DesfireCommand.ADDITIONAL_FRAME (Some encChallenge) in
      if negb (length response2 =? 16)%nat
      then throw (ExpectedEncRndA (length response2))
      else
        let* decryptedRndAPrime :=
          lift (aesDecrypt authKey response2 zeroIV16) in
        let expectedRndAPrime := CryptoUtils.rotateLeft rndA 1 in
        if negb (bool_decide (decryptedRndAPrime = expectedRndAPrime))
        then throw RndAVerificationFailed
        else
          let* enc := newBuffer (deriveSessionKeyAESEnc authKey rndA rndB) in
          modify (set_sessionKeyEnc (Some enc)) ;;;
          let* mac := newBuffer (deriveSessionKeyAESMac authKey rndA rndB) in
          modify (set_sessionKeyMac (Some mac)) ;;;
          modify (set_authenticated true) ;;;
          modify (set_authenticatedKeyNo (Some keyNo)) ;;;
          modify (set_commandCounter 0).

Definition authenticateEV2First (keyNo : Z) (key : option Buffer) : M unit :=
  let* authKey := resolveKey keyNo key in
  if negb (length authKey =? 16)%nat then throw AesKeyMustBe16
  else
    resetAuth ;;;
    let* response1 :=
      sendCommand DesfireCommand.AUTHENTICATE_EV2_FIRST
                  (Some [u8 keyNo; 0x00; 0x00]) in
    if (length response1 <? 16)%nat
    then throw (ExpectedAtLeast16 (length response1))
    else
      let encRndB := slice response1 0 16 in
      let* rndB := lift (aesDecrypt authKey encRndB zeroIV16) in
      let* rndA := generateRandom 16 in
      let rndBPrime := CryptoUtils.rotateLeft rndB 1 in
      let challenge := rndA ++ rndBPrime in
      let* encChallenge := lift (aesEncrypt authKey challenge zeroIV16) in
      let* response2 :=
        sendCommand DesfireCommand.ADDITIONAL_FRAME (Some encChallenge) in
      if (length response2 <? 4)%nat
      then throw (ExpectedAtLeastTI (length response2))
      else
        modify (set_transactionId (Some (slice response2 0 4))) ;;;
        let encRndAPrime := slice response2 4 20 in
        let* decryptedRndAPrime :=
          lift (aesDecrypt authKey encRndAPrime zeroIV16) in
        let expectedRndAPrime := CryptoUtils.rotateLeft rndA 1 in
        if negb (bool_decide (decryptedRndAPrime = expectedRndAPrime))
        then throw RndAVerificationFailed
        else
          let* encKey := lift (deriveSessionKeyEV2Enc authKey rndA rndB) in
          let* enc := newBuffer encKey in
          modify (set_sessionKeyEnc (Some enc)) ;;;
          let* macKey := lift (deriveSessionKeyEV2Mac authKey rndA rndB) in
          let* mac := newBuffer macKey in
          modify (set_sessionKeyMac (Some mac)) ;;;
          modify (set_authenticated true) ;;;
          modify (set_authenticatedKeyNo (Some keyNo)) ;;;
          modify (set_commandCounter 0).

Definition authenticateEV2NonFirst (keyNo : Z) (key : option Buffer)
  : M unit :=
  let* tid := gets (fun c => transactionId (auth c)) in
  match tid with
  | None => throw NonFirstRequiresFirst
  | Some _ =>
      let* authKey := resolveKey keyNo key in
      if negb (length authKey =? 16)%nat then throw AesKeyMustBe16
      else
        let* response1 :=
          sendCommand DesfireCommand.AUTHENTICATE_EV2_NON_FIRST
                      (Some [u8 keyNo; 0x00; 0x00]) in
        let encRndB := slice response1 0 16 in
        let* rndB := lift (aesDecrypt authKey encRndB zeroIV16) in
        let* rndA := generateRandom 16 in
        let rndBPrime := CryptoUtils.rotateLeft rndB 1 in
        let challenge := rndA ++ rndBPrime in
        let* encChallenge := lift (aesEncrypt authKey challenge zeroIV16) in
        let* response2 :=
          sendCommand DesfireCommand.ADDITIONAL_FRAME (Some encChallenge) in
        let encRndAPrime := slice response2 0 16 in
        let* decryptedRndAPrime :=
          lift (aesDecrypt authKey encRndAPrime zeroIV16) in
        let expectedRndAPrime := CryptoUtils.rotateLeft rndA 1 in
        if negb (bool_decide (decryptedRndAPrime = expectedRndAPrime))
        then throw RndAVerificationFailed
        else
          let* encKey := lift (deriveSessionKeyEV2Enc authKey rndA rndB) in
          let* enc := newBuffer encKey in
          modify (set_sessionKeyEnc (Some enc)) ;;;
          let* macKey := lift (deriveSessionKeyEV2Mac authKey rndA rndB) in
          let* mac := newBuffer macKey in
          modify (set_sessionKeyMac (Some mac)) ;;;
          modify (set_authenticated true) ;;;
          modify (set_authenticatedKeyNo (Some keyNo))
  end.

(** [authenticateDES(keyNo, key?)]: the key actually used. *)
Definition desAuthKey (key : option Buffer) : Buffer :=
  match key with
  | Some k =>
      if (length k =? 16)%nat || (length k =? 24)%nat then k
      else alloc 16 0x00
  | None => alloc 16 0x00
  end.

Definition authenticateDES (keyNo : Z) (key : option Buffer) : M unit :=
  let authKey := desAuthKey key in
  let cmd1 := [u8 keyNo] in
  let* prefer1 := gets preferNoLe in
  let* resp1 :=
    tryTransmitAttempts
      (attemptsInOrder prefer1
         (APDU.build 0x90 DesfireCommand.AUTHENTICATE 0x00 0x00
                     (Some cmd1) None)
         (APDU.build 0x90 DesfireCommand.AUTHENTICATE 0x00 0x00
                     (Some cmd1) (Some 0))) in
  if negb (APDU.isAdditionalFrame (sw1 resp1) (sw2 resp1))
     && negb (APDU.isSuccess (sw1 resp1) (sw2 resp1))
  then throw (DesAuthFailed (sw1 resp1) (sw2 resp1))
  else
    let encRndB := data resp1 in
    if (length encRndB <? 8)%nat then throw EncRndBTooShort
    else
      let* rndB := lift (des3Decrypt (slice encRndB 0 8) authKey (alloc 8 0x00)) in
      let* rndA := generateRandom 8 in
      let rndBPrime := CryptoUtils.rotateLeft rndB 1 in
      let challenge := rndA ++ rndBPrime in
      let* encChallenge :=
        lift (des3Encrypt challenge authKey (slice_last encRndB 8)) in
      let* prefer2 := gets preferNoLe in
      let* resp2 :=
        tryTransmitAttempts
          (attemptsInOrder prefer2
             (APDU.build 0x90 DesfireCommand.ADDITIONAL_FRAME 0x00 0x00
                         (Some encChallenge) None)
             (APDU.build 0x90 DesfireCommand.ADDITIONAL_FRAME 0x00 0x00
                         (Some encChallenge) (Some 0))) in
      if negb (APDU.isSuccess (sw1 resp2) (sw2 resp2))
         && negb (APDU.isAdditionalFrame (sw1 resp2) (sw2 resp2))
      then throw (DesAuthStep2Failed (sw1 resp2) (sw2 resp2))
      else
        let encRndAPrime := data resp2 in
        if (length encRndAPrime <? 8)%nat then throw EncRndAPrimeTooShort
        else
          let* rndAPrime :=
            lift (des3Decrypt (slice encRndAPrime 0 8) authKey
                              (slice_last encChallenge 8)) in
          let expectedRndAPrime := CryptoUtils.rotateLeft rndA 1 in
          if negb (bool_decide (rndAPrime = expectedRndAPrime))
          then throw DesRndAVerificationFailed
          else
            modify (set_authenticated true) ;;;
            modify (set_authenticatedKeyNo (Some keyNo)).

(** [changeKeyEV2(keyNo, newKey, newKeyVersion = 0)] *)
Definition changeKeyEV2 (keyNo : Z) (newKey : Buffer) (newKeyVersion : Z)
  : M unit :=
  let* authd := gets (fun c => authenticated (auth c)) in
  let* encRef := gets (fun c => sessionKeyEnc (auth c)) in
  match authd, encRef with
  | true, Some ref =>
      if negb (length newKey =? 16)%nat then throw KeysMustBe16
      else
        let keyData := newKey ++ [u8 newKeyVersion] in
        let crcData := [u8 DesfireCommand.CHANGE_KEY_EV2; u8 keyNo] ++ keyData in
        let crc := CryptoUtils.crc32Buffer crcData in
        let plainData := keyData ++ crc in
        let* sessionKey := readBuffer ref in
        let* encryptedData := lift (aesEncrypt sessionKey plainData zeroIV16) in
        let commandData := [u8 keyNo] ++ encryptedData in
        let* _ := sendCommand DesfireCommand.CHANGE_KEY_EV2 (Some commandData) in
        ret tt
  | _, _ => throw EV2AuthRequired
  end.

End Authentication.

(** ** Inputs for the worked examples *)

Definition ascii_123456789 : Buffer :=
  [0x31; 0x32; 0x33; 0x34; 0x35; 0x36; 0x37; 0x38; 0x39].

(** A response: payload followed by the status word. *)
Definition frame (payload : Buffer) (s1 s2 : Z) : Buffer :=
  payload ++ [s1; s2].

(** The card after the reader has taken [apdu] and handed back the next
    answer on its tape. *)
Definition consume (apdu : Buffer) (c : Card) : Card :=
  set_reader
    (mkReader (acr122u (reader c)) (tail (tx_tape (reader c)))
              (tx_log (reader c) ++ [apdu])
              (esc_tape (reader c)) (esc_log (reader c))) c.

(** The card after the reader has taken the APDUs [sentNow] and its
    transmit tape has been consumed down to [rest]. *)
Definition after_tx (sentNow : list Buffer) (rest : list (option Buffer))
    (c : Card) : Card :=
  set_reader
    (mkReader (acr122u (reader c)) rest (tx_log (reader c) ++ sentNow)
              (esc_tape (reader c)) (esc_log (reader c))) c.

(** The same card facing a reader whose transmit tape is [tape]. *)
Definition with_tape (tape : list (option Buffer)) (c : Card) : Card :=
  after_tx [] tape c.

(** Continuation answers carrying the given payload fragments. *)
Definition afFrames (fragments : list Buffer) : list (option Buffer) :=
  map (fun d => Some (frame d 0x91 0xAF)) fragments.

(** The ADDITIONAL_FRAME fetch in the form [getAdditionalFrame] tries
    first. *)
Definition afApdu (prefer : bool) : Buffer :=
  if prefer then [0x90; 0xAF; 0x00; 0x00] else [0x90; 0xAF; 0x00; 0x00; 0x00].

(** The answers to one ADDITIONAL_FRAME fetch that ends with the status
    word [(e1, e2)]: a length error makes the engine ask once more in
    the other Le form, and that second request is answered by
    [frame dl' e1' e2']. *)
Definition abortedFetch (dl : Buffer) (e1 e2 : Z) (dl' : Buffer)
    (e1' e2' : Z) : list (option Buffer) :=
  Some (frame dl e1 e2)
  :: (if isLengthError (mkParsed e1 e2 dl) then [Some (frame dl' e1' e2')]
      else []).

(** *** Chunked writes, as a caller reads them off the wire *)

(** The answer a parsed response was read from. *)
Definition answerOf (p : Parsed) : option Buffer :=
  Some (frame (data p) (sw1 p) (sw2 p)).

(** [l] cut into consecutive pieces of [n] elements, the last one
    possibly shorter. *)
Fixpoint chunksOf_fuel (fuel n : nat) (l : Buffer) : list Buffer :=
  match fuel with
  | O => []
  | S fuel' =>
      match l with
      | [] => []
      | _ :: _ => take n l :: chunksOf_fuel fuel' n (drop n l)
      end
  end.

Definition chunksOf (n : nat) (l : Buffer) : list Buffer :=
  chunksOf_fuel (length l) n l.

(** The sizes of the pieces of a list of [len] elements. *)
Fixpoint chunkLengths (fuel n len : nat) : list nat :=
  match fuel with
  | O => []
  | S fuel' =>
      if (len =? 0)%nat then []
      else Nat.min n len :: chunkLengths fuel' n (len - n)
  end.

(** The lead frame of a write: 90 3D 00 00 Lc, the seven header bytes
    fileNo, offset (3, LE), length (3, LE), the first chunk, Le = 00. *)
Definition leadFrame (fileNo offset : Z) (data_ : Buffer) : Buffer :=
  [0x90; 0x3D; 0x00; 0x00; u8 (Z.of_nat (7 + length (take 40 data_)))]
  ++ [u8 fileNo] ++ uintLE 3 offset ++ uintLE 3 (Z.of_nat (length data_))
  ++ take 40 data_ ++ [0x00].

(** A continuation frame of a write: 90 AF 00 00 Lc chunk 00. *)
Definition afDataFrame (chunk : Buffer) : Buffer :=
  [0x90; 0xAF; 0x00; 0x00; u8 (Z.of_nat (length chunk))] ++ chunk ++ [0x00].

(** *** A stand-in cipher and a scripted card for worked examples

    The properties below hold for every [NodeCrypto]; the worked
    examples run the methods with this keyed stream cipher, under which
    the all-zero key is the identity. *)
Definition xorStream (key iv input : Buffer) : Buffer :=
  imap (fun i b => Z.lxor b (default 0 (key !! (i mod length key)%nat))) input.

Definition toyCrypto : NodeCrypto :=
  {| aes_128_ecb := fun key block => xorStream key [] block;
     aes_128_cbc_encrypt := xorStream;
     aes_128_cbc_decrypt := xorStream;
     des_ede_cbc_encrypt := xorStream;
     des_ede_cbc_decrypt := xorStream;
     des_ede3_cbc_encrypt := xorStream;
     des_ede3_cbc_decrypt := xorStream |}.

(** The factory default key. *)
Definition K0 : Buffer := alloc 16 0x00.

(** A reader, not an ACR122U, that will give the answers [tape]. *)
Definition scriptedReader (tape : list (option Buffer)) : Reader :=
  {| acr122u := false; tx_tape := tape; tx_log := [];
     esc_tape := []; esc_log := [] |}.

(** A fresh card object on a scripted reader; the random source yields
    0, 1, 2, ... *)
Definition freshCard (tape : list (option Buffer)) : Card :=
  newCard (scriptedReader tape) None (fun i => Z.of_nat i).

(** The card's side of a legacy handshake under the zero key with the
    random source above: encrypted RndB, then RndA rotated. *)
Definition encRndB_example : Buffer :=
  [0xB1; 0xB2; 0xB3; 0xB4; 0xB5; 0xB6; 0xB7; 0xB8].

Definition desHandshakeAnswers : list (option Buffer) :=
  [Some (frame encRndB_example 0x91 0xAF);
   Some (frame [1; 2; 3; 4; 5; 6; 7; 0] 0x91 0x00)].

(** *** Relations between the card before and after a method *)

(** [m] relates every state to the state it leaves, whether it returns
    or throws. *)
Definition preserves {A} (R : Card -> Card -> Prop) (m : M A) : Prop :=
  forall c, R c (m c).2.

(** Only the reader and the Le preference may differ. *)
Definition engine_only (c c' : Card) : Prop :=
  auth c' = auth c /\ heap c' = heap c /\ currentApp c' = currentApp c
  /\ keyManager c' = keyManager c /\ entropy c' = entropy c
  /\ entropy_pos c' = entropy_pos c.

(** The reader's record of transmitted APDUs has only been extended. *)
Definition log_grows (c c' : Card) : Prop :=
  tx_log (reader c) `prefix_of` tx_log (reader c').

(** The session: the authentication fields and the key buffers. *)
Definition same_session (c c' : Card) : Prop :=
  auth c' = auth c /\ heap c' = heap c.

(** When [m] throws from a state in [P], it leaves a state in [P]. *)
Definition onThrow {A} (P : Card -> Prop) (m : M A) : Prop :=
  forall c e c', P c -> m c = (Throw e, c') -> P c'.

Definition neverThrows {A} (m : M A) : Prop :=
  forall c e c', m c <> (Throw e, c').

(** The session of [c0] has been wiped in [c]: not authenticated, no
    session keys, and every buffer that held a session key of [c0] is
    all zeros. *)
Definition cleared (c0 c : Card) : Prop :=
  authenticated (auth c) = false
  /\ sessionKeyEnc (auth c) = None
  /\ sessionKeyMac (auth c) = None
  /\ forall (l : nat) (b : Buffer),
       sessionKeyEnc (auth c0) = Some l \/ sessionKeyMac (auth c0) = Some l ->
       heap c0 !! l = Some b ->
       heap c !! l = Some (alloc (length b) 0).

(** The card's side of an AES handshake under the zero key with the
    random source of [freshCard]: encrypted RndB with 91 AF, the answer
    to the empty continuation fetch [sendCommand] then issues, and RndA
    rotated. *)
Definition rndB16_example : Buffer :=
  [0xB1; 0xB2; 0xB3; 0xB4; 0xB5; 0xB6; 0xB7; 0xB8;
   0xB9; 0xBA; 0xBB; 0xBC; 0xBD; 0xBE; 0xBF; 0xC0].

Definition aesHandshakeAnswers : list (option Buffer) :=
  [Some (frame rndB16_example 0x91 0xAF);
   Some (frame [] 0x91 0xAE);
   Some (frame [1; 2; 3; 4; 5; 6; 7; 8; 9; 10; 11; 12; 13; 14; 15; 0]
               0x91 0x00)].

(** A card object that has completed [authenticateAES(0, K0)] and faces
    a reader that will answer [tape] next. *)
Definition cardWithSession (tape : list (option Buffer)) : Card :=
  (@authenticateAES toyCrypto 0 (Some K0)
     (freshCard (aesHandshakeAnswers ++ tape))).2.

(** *** ChangeKeyEV2 as the specification words it

    The cryptogram the specification asks for: the plaintext padded with
    0x80 and zeros iff its length is not a multiple of 16, encrypted
    under the session key with a zero IV. *)
Definition spec_pad16 (plain : Buffer) : Buffer :=
  if (length plain mod 16 =? 0)%nat then plain
  else CryptoUtils.padData plain 16.

Definition spec_changeKeyEV2_plain (keyNo : Z) (newKey : Buffer)
    (version : Z) : Buffer :=
  newKey ++ [u8 version]
  ++ CryptoUtils.crc32Buffer ([0xC6; u8 keyNo] ++ newKey ++ [u8 version]).

(** A card object holding a session (after [authenticateAES(0, K0)])
    whose reader would accept the next command. *)
Definition cardReadyForKeyChange : Card :=
  cardWithSession [Some (frame [] 0x91 0x00)].

(** The first APDU of [authenticateDES]: AUTHENTICATE (0x0A) with the
    key number, in the Le form the card object currently prefers. *)
Definition desAuthApdu (prefer : bool) (keyNo : Z) : Buffer :=
  [0x90; 0x0A; 0x00; 0x00; 0x01; u8 keyNo] ++ (if prefer then [] else [0x00]).

(** A 130-byte buffer 0, 1, ..., 129 and four accepting answers. *)
Definition data130 : Buffer := map Z.of_nat (seq 0 130).

Definition fourAccepting : list Parsed :=
  [mkParsed 0x91 0xAF []; mkParsed 0x91 0xAF []; mkParsed 0x91 0xAF [];
   mkParsed 0x91 0x00 []].

(** The three 7-byte blocks of a GetVersion answer. *)
Definition hwBlock : Buffer := [0x04; 0x01; 0x01; 0x12; 0x00; 0x1A; 0x05].
Definition swBlock : Buffer := [0x04; 0x01; 0x01; 0x02; 0x01; 0x1A; 0x05].
Definition uidBlock : Buffer := [0x04; 0x5A; 0x11; 0x5A; 0x3C; 0x61; 0x80].

(** * Further code of the repository

    The remaining helpers of [crypto.ts], [acr122u.ts] and
    [keyManager.ts], and the other methods of [DESFireCard]. *)

(** ** Node buffer accessors used by the methods below *)

(** The integer a little-endian byte sequence denotes. *)
Fixpoint leValue (bytes : Buffer) : Z :=
  match bytes with
  | [] => 0
  | b :: rest => b + 256 * leValue rest
  end.

(** [buf.readUIntLE(offset, 3)]: Node rejects a read past the end. *)
Definition readUIntLE3 (buf : Buffer) (offset : nat) : Result Z :=
  if (offset + 3 <=? length buf)%nat
  then Ok (leValue (slice buf offset (offset + 3)))
  else Throw RangeError.

(** [buf.writeInt32LE(v, 0)] on a fresh 4-byte buffer: Node rejects
    values outside [-2^31, 2^31); negative values are stored in two's
    complement. *)
Definition writeInt32LE (v : Z) : Result Buffer :=
  if (- 2 ^ 31 <=? v) && (v <? 2 ^ 31) then Ok (uintLE 4 (v mod 2 ^ 32))
  else Throw RangeError.

(** [buf.readInt32LE(0)] *)
Definition readInt32LE (buf : Buffer) : Result Z :=
  if (4 <=? length buf)%nat then Ok (toInt32 (leValue (slice buf 0 4)))
  else Throw RangeError.

(** ** crypto.ts: CRC16, XOR *)

(** [crc16(data)]: polynomial 0x8408, initial value 0x6363. *)
Definition crc16_round (crc : Z) : Z :=
  if js_and crc 1 =? 0 then js_ushr crc 1
  else js_xor (js_ushr crc 1) 0x8408.

Definition crc16_byte (crc : Z) (b : Z) : Z :=
  Nat.iter 8 crc16_round (js_xor crc b).

Definition crc16 (data_ : Buffer) : Z :=
  js_and (fold_left crc16_byte data_ 0x6363) 0xFFFF.

(** [crc16Buffer]: the CRC written with [writeUInt16LE]. *)
Definition crc16Buffer (data_ : Buffer) : Buffer :=
  uintLE 2 (crc16 data_).

(** [xorBuffers(a, b)]: throws unless the lengths agree. *)
Definition xorBuffers (a b : Buffer) : Result Buffer :=
  if negb (length a =? length b)%nat then Throw BuffersMustBeEqualLength
  else Ok (zip_with (fun x y => u8 (js_xor x y)) a b).

(** A buffer's elements are bytes. *)
Definition isBytes (b : Buffer) : Prop := Forall (fun x => 0 <= x < 256) b.

(** ** acr122u.ts: PN532 response parsing *)

(** The [for] loop of [parsePn532Response]: position [i] is inspected
    while three bytes remain from it. *)
Fixpoint pn532_scan (resp : Buffer) : option Buffer :=
  match resp with
  | x :: ((cmd :: status :: rest) as tl) =>
      if (x =? 0xD5) && ((cmd =? 0x41) || (cmd =? 0x43)) && (status =? 0x00)
      then (if (2 <=? length rest)%nat then Some rest else None)
      else pn532_scan tl
  | _ => None
  end.

Definition parsePn532Response (resp : Buffer) : option Buffer :=
  if (length resp <? 4)%nat then None else pn532_scan resp.

(** ** desfire.ts: the remaining command codes *)

Module Opcode.
Definition CREATE_APPLICATION : Z := 0xCA.
Definition DELETE_APPLICATION : Z := 0xDA.
Definition GET_FILE_IDS : Z := 0x6F.
Definition CREATE_STD_DATA_FILE : Z := 0xCD.
Definition CREATE_BACKUP_DATA_FILE : Z := 0xCB.
Definition CREATE_VALUE_FILE : Z := 0xCC.
Definition GET_VALUE : Z := 0x6C.
Definition CREDIT : Z := 0x0C.
Definition DEBIT : Z := 0xDC.
Definition COMMIT_TRANSACTION : Z := 0xC7.
Definition ABORT_TRANSACTION : Z := 0xA7.
Definition FORMAT_PICC : Z := 0xFC.
Definition GET_FREE_MEMORY : Z := 0x6E.
Definition GET_KEY_SETTINGS : Z := 0x45.
Definition CHANGE_KEY_SETTINGS : Z := 0x54.
Definition GET_KEY_VERSION : Z := 0x64.
Definition CHANGE_KEY : Z := 0xC4.
Definition INITIALIZE_KEY_SET : Z := 0x56.
Definition ROLL_KEY_SET : Z := 0x55.
Definition FINALIZE_KEY_SET : Z := 0x57.
End Opcode.

(** [a | b] of JavaScript. *)
Definition js_or (a b : Z) : Z := toInt32 (Z.lor (toInt32 a) (toInt32 b)).

(** [try { x = m } catch (e) { ... }], keeping the error. *)
Definition tryCatch {A} (m : M A) : M (Result A) :=
  fun c => let '(r, c') := m c in (Ok r, c').

(** ** desfire.ts: applications *)

(** The loop of [getApplicationIDs]: [readUIntLE(i, 3)] for
    [i = 0, 3, 6, ...] while [i < response.length]. *)
Fixpoint readAIDs (fuel : nat) (response : Buffer) (i : nat)
  : Result (list Z) :=
  if (i <? length response)%nat then
    match fuel with
    | O => Throw OutOfFuel
    | S fuel' =>
        match readUIntLE3 response i with
        | Ok aid =>
            match readAIDs fuel' response (i + 3) with
            | Ok aids => Ok (aid :: aids)
            | Throw e => Throw e
            end
        | Throw e => Throw e
        end
    end
  else Ok [].

Definition getApplicationIDs : M (list Z) :=
  let* response := sendCommand DesfireCommand.GET_APPLICATION_IDS None in
  lift (readAIDs (length response) response 0).

(** [createApplication(aid, keySetting, numKeys, keyType = 0x80)] *)
Definition createApplication (aid keySetting numKeys keyType : Z) : M unit :=
  let* aidBuffer := lift (writeUIntLE3 aid) in
  let data_ := aidBuffer ++ [u8 keySetting; u8 (js_or numKeys keyType)] in
  let* _ := sendCommand Opcode.CREATE_APPLICATION (Some data_) in
  ret tt.

Definition deleteApplication (aid : Z) : M unit :=
  let* aidBuffer := lift (writeUIntLE3 aid) in
  let* _ := sendCommand Opcode.DELETE_APPLICATION (Some aidBuffer) in
  ret tt.

(** ** desfire.ts: files and values *)

Definition getFileIDs : M (list Z) :=
  sendCommand Opcode.GET_FILE_IDS None.

Definition createStdDataFile (fileNo commSettings : Z) (accessRights : Buffer)
    (fileSize : Z) : M unit :=
  let* fileSizeBuffer := lift (writeUIntLE3 fileSize) in
  let data_ := [u8 fileNo; u8 commSettings] ++ accessRights ++ fileSizeBuffer in
  let* _ := sendCommand Opcode.CREATE_STD_DATA_FILE (Some data_) in
  ret tt.

Definition createBackupDataFile (fileNo commSettings : Z)
    (accessRights : Buffer) (fileSize : Z) : M unit :=
  let* fileSizeBuffer := lift (writeUIntLE3 fileSize) in
  let data_ := [u8 fileNo; u8 commSettings] ++ accessRights ++ fileSizeBuffer in
  let* _ := sendCommand Opcode.CREATE_BACKUP_DATA_FILE (Some data_) in
  ret tt.

Definition createValueFile (fileNo commSettings : Z) (accessRights : Buffer)
    (lowerLimit upperLimit value limitedCreditEnabled : Z) : M unit :=
  let* lowerLimitBuffer := lift (writeInt32LE lowerLimit) in
  let* upperLimitBuffer := lift (writeInt32LE upperLimit) in
  let* valueBuffer := lift (writeInt32LE value) in
  let data_ := [u8 fileNo; u8 commSettings] ++ accessRights
               ++ lowerLimitBuffer ++ upperLimitBuffer ++ valueBuffer
               ++ [u8 limitedCreditEnabled] in
  let* _ := sendCommand Opcode.CREATE_VALUE_FILE (Some data_) in
  ret tt.

Definition getValue (fileNo : Z) : M Z :=
  let* response := sendCommand Opcode.GET_VALUE (Some [u8 fileNo]) in
  lift (readInt32LE response).

Definition credit (fileNo amount : Z) : M unit :=
  let* amountBuffer := lift (writeInt32LE amount) in
  let* _ := sendCommand Opcode.CREDIT (Some ([u8 fileNo] ++ amountBuffer)) in
  ret tt.

Definition debit (fileNo amount : Z) : M unit :=
  let* amountBuffer := lift (writeInt32LE amount) in
  let* _ := sendCommand Opcode.DEBIT (Some ([u8 fileNo] ++ amountBuffer)) in
  ret tt.

Definition commitTransaction : M unit :=
  let* _ := sendCommand Opcode.COMMIT_TRANSACTION None in ret tt.

Definition abortTransaction : M unit :=
  let* _ := sendCommand Opcode.ABORT_TRANSACTION None in ret tt.

Definition formatPICC : M unit :=
  let* _ := sendCommand Opcode.FORMAT_PICC None in ret tt.

Definition getFreeMemory : M Z :=
  let* response := sendCommand Opcode.GET_FREE_MEMORY None in
  lift (readUIntLE3 response 0).

(** ** desfire.ts: key management *)

Record KeySettings := mkKeySettings {
  settings : Z;
  maxKeys : Z;
  ksKeyType : Z
}.

Definition getKeySettings : M KeySettings :=
  let* response := sendCommand Opcode.GET_KEY_SETTINGS None in
  if (length response <? 2)%nat then throw InvalidGetKeySettings
  else
    let b1 := default 0 (response !! 1%nat) in
    ret {| settings := default 0 (response !! 0%nat);
           maxKeys := js_and b1 0x3F;
           ksKeyType := js_and b1 0xC0 |}.

Definition requireAuth : M unit :=
  let* authd := gets (fun c => authenticated (auth c)) in
  if negb authd then throw AuthRequired else ret tt.

Definition changeKeySettings (newSettings : Z) : M unit :=
  requireAuth ;;;
  let* _ := sendCommand Opcode.CHANGE_KEY_SETTINGS (Some [u8 newSettings]) in
  ret tt.

(** [getKeyVersion(keyNo)] returns [response[0]], which is [undefined]
    ([None]) for an empty payload. *)
Definition getKeyVersion (keyNo : Z) : M (option Z) :=
  let* response := sendCommand Opcode.GET_KEY_VERSION (Some [u8 keyNo]) in
  ret (response !! 0%nat).

(** [changeKey(keyNo, newKey, oldKey?)]: [oldKey] is not read. *)
Definition changeKey (keyNo : Z) (newKey : Buffer) (oldKey : option Buffer)
  : M unit :=
  requireAuth ;;;
  if negb (length newKey =? 16)%nat then throw KeysMustBe16
  else
    let keyVersion := 0x00 in
    let data_ := [u8 keyNo] ++ newKey ++ [u8 keyVersion] in
    let* _ := sendCommand Opcode.CHANGE_KEY (Some data_) in
    ret tt.

Definition initializeKeySet (keySetNo keyType : Z) : M unit :=
  requireAuth ;;;
  let* _ := sendCommand Opcode.INITIALIZE_KEY_SET
                        (Some [u8 keySetNo; u8 keyType]) in
  ret tt.

Definition rollKeySet (keySetNo : Z) : M unit :=
  requireAuth ;;;
  let* _ := sendCommand Opcode.ROLL_KEY_SET (Some [u8 keySetNo]) in
  ret tt.

Definition finalizeKeySet : M unit :=
  requireAuth ;;;
  let* _ := sendCommand Opcode.FINALIZE_KEY_SET None in
  ret tt.

(** ** desfire.ts: getVersion *)

(** [sendNoData(ins)] of [trySequence(style)]; [withLe] is
    [style === 'withLe']. *)
Definition sendNoData (withLe : bool) (ins : Z) : M Parsed :=
  if withLe then transmitParsed [0x90; u8 ins; 0x00; 0x00; 0x00]
  else transmitParsed [0x90; u8 ins; 0x00; 0x00].

(** The [while (APDU.isAdditionalFrame(p.sw1, p.sw2))] loop of
    [trySequence]; returns the payloads pushed after [p]'s. *)
Fixpoint versionFrames (fuel : nat) (withLe : bool) (p : Parsed) : M Buffer :=
  if APDU.isAdditionalFrame (sw1 p) (sw2 p) then
    match fuel with
    | O => throw OutOfFuel
    | S fuel' =>
        let* p' := sendNoData withLe DesfireCommand.ADDITIONAL_FRAME in
        if negb (accepted p') then
          throw (GetVersionAFFailed withLe (sw1 p') (sw2 p'))
        else
          let* more := versionFrames fuel' withLe p' in
          ret (data p' ++ more)
    end
  else ret [].

Definition trySequence (withLe : bool) : M Buffer :=
  let* p := sendNoData withLe DesfireCommand.GET_VERSION in
  if negb (accepted p) then throw (GetVersionFailed withLe (sw1 p) (sw2 p))
  else
    let* more := (fun c => versionFrames (S (pending c)) withLe p c) in
    ret (data p ++ more).

(** The [catch] block of the style loop: select the PICC level,
    ignoring errors. *)
Definition resetToPicc : M unit :=
  let* _ := attempt (sendCommand DesfireCommand.SELECT_APPLICATION
                                 (Some [0x00; 0x00; 0x00])) in
  ret tt.

Record Version := mkVersion {
  hardware : Buffer;
  software : Buffer;
  uid : Buffer
}.

(** [getVersion()].  The best-effort ISO-DEP activation at its start
    talks to the reader's control channel only and is left out, as in
    [transmitParsed]. *)
Definition getVersion : M Version :=
  let* noLe := tryCatch (trySequence false) in
  let* all :=
    match noLe with
    | Ok all => modify (set_preferNoLe true) ;;; ret all
    | Throw _ =>
        resetToPicc ;;;
        let* withLe := tryCatch (trySequence true) in
        match withLe with
        | Ok all => modify (set_preferNoLe false) ;;; ret all
        | Throw lastErr => resetToPicc ;;; throw lastErr
        end
    end in
  let block := 7%nat in
  ret {| hardware := slice all 0 (Nat.min block (length all));
         software := slice all block (Nat.min (block * 2) (length all));
         uid := slice all (block * 2) (length all) |}.

(** ** keyManager.ts: the in-memory key store

    [KeyManager.keySets], a [Map] from application id to key set, is the
    state; [getKey] above reads it.  The methods that touch files,
    [generateKey] and [clearKeys] are not modelled. *)

Module KeyManager.

(** [getDefaultKey()] *)
Definition getDefaultKey : Buffer := alloc 16 0x00.

(** [type === '3DES' ? 24 : 16] *)
Definition expectedLen (type : KeyType) : nat :=
  match type with
  | TripleDES => 24
  | _ => 16
  end.

(** [setKey(appId, keyNo, key, version = 0, keyType?)]: the outcome and
    the key sets afterwards.  A missing key set is created and
    registered before the length of the key is checked. *)
Definition setKey (keySets : gmap Z KeySet) (app keyNo : Z) (key : Buffer)
    (version : Z) (keyType_ : option KeyType)
  : Result unit * gmap Z KeySet :=
  let '(keySet, keySets1) :=
    match keySets !! app with
    | Some keySet => (keySet, keySets)
    | None =>
        let keySet := {| appId := app; keyType := default AES keyType_;
                         keys := ∅; keyVersions := ∅ |} in
        (keySet, <[app := keySet]> keySets)
    end in
  let type := default (keyType keySet) keyType_ in
  if negb (length key =? expectedLen type)%nat
  then (Throw (KeyMustBeExactly type (expectedLen type)), keySets1)
  else
    (Ok tt,
     <[app := {| appId := appId keySet;
                 keyType := type;
                 keys := <[keyNo := key]> (keys keySet);
                 keyVersions := <[keyNo := version]> (keyVersions keySet) |}]>
       keySets1).

(** [getKeyVersion(appId, keyNo)]: [keyVersions.get(keyNo) || 0]. *)
Definition getKeyVersion (keySets : gmap Z KeySet) (app keyNo : Z) : Result Z :=
  match keySets !! app with
  | None => Throw (KeySetNotFound app)
  | Some keySet => Ok (default 0 (keyVersions keySet !! keyNo))
  end.

End KeyManager.

(** *** What a method guarantees when it returns *)

(** When [m] returns from a state in [P], the value and the state it
    leaves are in [Q]. *)
Definition onReturn {A} (P : Card -> Prop) (m : M A)
    (Q : A -> Card -> Prop) : Prop :=
  forall c a c', P c -> m c = (Ok a, c') -> Q a c'.

(** The session keys, the transaction id, the command counter and the
    key buffers are those of [c]. *)
Definition keeps_session_keys (c c' : Card) : Prop :=
  heap c' = heap c
  /\ sessionKeyEnc (auth c') = sessionKeyEnc (auth c)
  /\ sessionKeyMac (auth c') = sessionKeyMac (auth c)
  /\ transactionId (auth c') = transactionId (auth c)
  /\ commandCounter (auth c') = commandCounter (auth c).

(** The state in which the two AES handshakes wait for the card after
    [resetAuth]: the session of [c0] wiped, no buffer added, no
    transaction id. *)
Definition awaiting_card (c0 c : Card) : Prop :=
  cleared c0 c
  /\ length (heap c) = length (heap c0)
  /\ transactionId (auth c) = None.

(** The session a successful handshake on [c0] leaves in [c]: two fresh
    key buffers behind those of [c0], and the buffers that held the
    session keys of [c0] all zeros. *)
Definition fresh_session (keyNo : Z) (c0 c : Card) : Prop :=
  authenticated (auth c) = true
  /\ authenticatedKeyNo (auth c) = Some keyNo
  /\ commandCounter (auth c) = 0
  /\ sessionKeyEnc (auth c) = Some (length (heap c0))
  /\ sessionKeyMac (auth c) = Some (S (length (heap c0)))
  /\ length (heap c) = (length (heap c0) + 2)%nat
  /\ forall (l : nat) (b : Buffer),
       sessionKeyEnc (auth c0) = Some l \/ sessionKeyMac (auth c0) = Some l ->
       heap c0 !! l = Some b ->
       heap c !! l = Some (alloc (length b) 0).

(** The card's side of an EV2 first handshake under the zero key with
    the random source of [freshCard]: encrypted RndB, then the
    transaction id A1 A2 A3 A4 followed by RndA rotated. *)
Definition ev2HandshakeAnswers : list (option Buffer) :=
  [Some (frame rndB16_example 0x91 0x00);
   Some (frame ([0xA1; 0xA2; 0xA3; 0xA4]
                ++ [1; 2; 3; 4; 5; 6; 7; 8; 9; 10; 11; 12; 13; 14; 15; 0])
               0x91 0x00)].

(** * Properties *)

(** ** CRC32 *)

Example crc32_check_value : CryptoUtils.crc32 ascii_123456789 = 0xCBF43926.
Proof. vm_compute. reflexivity. Qed.

(** C7, as stated, fails: the check value 0xCBF43926 written
    little-endian does not start with CB. *)
Lemma crc32Buffer_check_not_big_endian :
  CryptoUtils.crc32Buffer ascii_123456789 <> [0xCB; 0xF4; 0x39; 0x26].
Proof. vm_compute. discriminate. Qed.

(** C7 (amended): [crc32Buffer] maps the empty buffer to 00 00 00 00 and
    the ASCII string "123456789" to 26 39 F4 CB, the little-endian bytes
    of the CRC value 0xCBF43926. *)
Theorem crc32Buffer_vectors :
  CryptoUtils.crc32Buffer [] = [0x00; 0x00; 0x00; 0x00]
  /\ CryptoUtils.crc32Buffer ascii_123456789 = [0x26; 0x39; 0xF4; 0xCB]
  /\ CryptoUtils.crc32 ascii_123456789 = 0xCBF43926.
Proof. repeat split; vm_compute; reflexivity. Qed.

(** ** Padding *)

Lemma padData_16_shape (m : Buffer) :
  CryptoUtils.padData m 16
  = m ++ 0x80 :: replicate (15 - length m mod 16) 0.
Proof.
  unfold CryptoUtils.padData, alloc.
  assert (Hlt : (length m mod 16 < 16)%nat) by (apply Nat.mod_upper_bound; lia).
  replace (16 - length m mod 16)%nat with (S (15 - length m mod 16)) by lia.
  reflexivity.
Qed.

Lemma unpad_scan_padding (m : Buffer) (k j : nat) :
  (j <= k)%nat ->
  CryptoUtils.unpad_scan (m ++ 0x80 :: replicate k 0) (length m + 1 + j) = m.
Proof.
  intros Hj. induction j as [|j IH].
  - replace (length m + 1 + 0)%nat with (S (length m)) by lia.
    cbn [CryptoUtils.unpad_scan].
    rewrite lookup_app_r by lia. rewrite Nat.sub_diag. cbn.
    unfold slice. rewrite drop_0, Nat.sub_0_r.
    rewrite take_app_length. reflexivity.
  - replace (length m + 1 + S j)%nat with (S (length m + 1 + j)) by lia.
    cbn [CryptoUtils.unpad_scan].
    rewrite lookup_app_r by lia.
    replace (length m + 1 + j - length m)%nat with (S j) by lia.
    change ((128 :: replicate k 0) !! S j) with (replicate k 0 !! j).
    rewrite (lookup_replicate_2 k 0 j) by lia. cbn.
    apply IH. lia.
Qed.

(** C10: [unpadData] undoes [padData] at block size 16, and the padded
    length is the smallest multiple of 16 strictly above the input
    length: the padding is 0x80 followed by [15 - length m mod 16]
    zeros, a whole block when the input is already block-aligned. *)
Theorem unpadData_padData_16 (m : Buffer) :
  CryptoUtils.unpadData (CryptoUtils.padData m 16) = m
  /\ (exists k : nat,
        length (CryptoUtils.padData m 16) = (16 * k)%nat
        /\ (length m < 16 * k)%nat
        /\ forall j : nat, (length m < 16 * j)%nat -> (16 * k <= 16 * j)%nat)
  /\ CryptoUtils.padData m 16
     = m ++ 0x80 :: replicate (15 - length m mod 16) 0.
Proof.
  assert (Hlt : (length m mod 16 < 16)%nat) by (apply Nat.mod_upper_bound; lia).
  pose proof (Nat.div_mod_eq (length m) 16) as Hdm.
  split; [|split].
  - rewrite padData_16_shape. unfold CryptoUtils.unpadData.
    rewrite length_app. cbn [length]. rewrite length_replicate.
    replace (length m + S (15 - length m mod 16))%nat
      with (length m + 1 + (15 - length m mod 16))%nat by lia.
    apply unpad_scan_padding. lia.
  - exists (S (length m / 16)).
    rewrite padData_16_shape, length_app. cbn [length].
    rewrite length_replicate. split; [lia|]. split; [lia|].
    intros j Hj.
    assert (length m / 16 < j)%nat; [|lia].
    apply Nat.Div0.div_lt_upper_bound. lia.
  - apply padData_16_shape.
Qed.

(** ** The transmit engine *)

Lemma parse_frame (d : Buffer) (s1 s2 : Z) :
  APDU.parse (frame d s1 s2) = Ok (mkParsed s1 s2 d).
Proof.
  unfold APDU.parse, frame. rewrite length_app. cbn [length].
  destruct (length d + 2 <? 2)%nat eqn:E.
  { apply Nat.ltb_lt in E. lia. }
  replace (length d + 2 - 2)%nat with (length d) by lia.
  replace (length d + 2 - 1)%nat with (S (length d)) by lia.
  rewrite !lookup_app_r by lia.
  rewrite Nat.sub_diag.
  replace (S (length d) - length d)%nat with 1%nat by lia.
  unfold slice. rewrite drop_0, Nat.sub_0_r, take_app_length. reflexivity.
Qed.

Lemma has2_frame (d : Buffer) (s1 s2 : Z) : has2 (Some (frame d s1 s2)) = true.
Proof.
  unfold has2, frame. rewrite length_app. cbn [length].
  apply Nat.leb_le. lia.
Qed.

Lemma transmit_answered (apdu r : Buffer) (rest : list (option Buffer))
    (c : Card) :
  tx_tape (reader c) = Some r :: rest ->
  transmit apdu c = (Ok r, consume apdu c).
Proof. intros E. unfold transmit, consume. rewrite E. reflexivity. Qed.

Lemma transmitParsed_frame (apdu d : Buffer) (s1 s2 : Z)
    (rest : list (option Buffer)) (c : Card) :
  tx_tape (reader c) = Some (frame d s1 s2) :: rest ->
  transmitParsed apdu c = (Ok (mkParsed s1 s2 d), consume apdu c).
Proof.
  intros E. unfold transmitParsed, bind, attempt, ret.
  rewrite (transmit_answered _ _ _ _ E).
  rewrite has2_frame. unfold lift.
  change (default [] (Some (frame d s1 s2))) with (frame d s1 s2).
  rewrite parse_frame. reflexivity.
Qed.

Lemma set_preferNoLe_same (c : Card) : set_preferNoLe (preferNoLe c) c = c.
Proof. destruct c. reflexivity. Qed.

(** One round of the loop of [tryTransmitAttempts] on an answered
    attempt. *)
Lemma tryTransmitAttempts_step (last : option Parsed) (apdu : Buffer)
    (usesLe : bool) (more : list (Buffer * bool)) (d : Buffer) (s1 s2 : Z)
    (rest : list (option Buffer)) (c : Card) :
  tx_tape (reader c) = Some (frame d s1 s2) :: rest ->
  tryTransmitAttempts_from last ((apdu, usesLe) :: more) c
  = if accepted (mkParsed s1 s2 d)
    then (Ok (mkParsed s1 s2 d), set_preferNoLe (negb usesLe) (consume apdu c))
    else if negb (isLengthError (mkParsed s1 s2 d))
         then (Ok (mkParsed s1 s2 d), consume apdu c)
         else tryTransmitAttempts_from (Some (mkParsed s1 s2 d)) more
                                       (consume apdu c).
Proof.
  intros E. cbn [tryTransmitAttempts_from]. unfold bind at 1.
  rewrite (transmitParsed_frame _ _ _ _ _ _ E).
  destruct (accepted (mkParsed s1 s2 d)); [reflexivity|].
  destruct (isLengthError (mkParsed s1 s2 d)); reflexivity.
Qed.

Lemma tx_tape_consume (apdu : Buffer) (c : Card) :
  tx_tape (reader (consume apdu c)) = tail (tx_tape (reader c)).
Proof. reflexivity. Qed.

(** The loop of [tryTransmitAttempts] on the attempt list of a command,
    when the reader answers with status words: the encoding selected by
    [preferNoLe] is sent first, the opposite encoding next exactly when
    the answer is a length error (91 7E or 91 A1), and [preferNoLe]
    afterwards names the form under which an accepted answer came. *)
Theorem le_negotiation (c : Card) (cmd : Z) (data_ : option Buffer)
    (d1 d2 : Buffer) (s1 s2 t1 t2 : Z) (rest : list (option Buffer)) :
  tx_tape (reader c)
  = Some (frame d1 s1 s2) :: Some (frame d2 t1 t2) :: rest ->
  let preferred := encodeCommand cmd data_ (negb (preferNoLe c)) in
  let opposite := encodeCommand cmd data_ (preferNoLe c) in
  let out := tryTransmitAttempts (commandAttempts (preferNoLe c) cmd data_) c in
  if accepted (mkParsed s1 s2 d1) then
    out.1 = Ok (mkParsed s1 s2 d1)
    /\ tx_log (reader out.2) = tx_log (reader c) ++ [preferred]
    /\ preferNoLe out.2 = preferNoLe c
  else if isLengthError (mkParsed s1 s2 d1) then
    out.1 = Ok (mkParsed t1 t2 d2)
    /\ tx_log (reader out.2) = tx_log (reader c) ++ [preferred; opposite]
    /\ preferNoLe out.2
       = (if accepted (mkParsed t1 t2 d2) then negb (preferNoLe c)
          else preferNoLe c)
  else
    out.1 = Ok (mkParsed s1 s2 d1)
    /\ tx_log (reader out.2) = tx_log (reader c) ++ [preferred]
    /\ preferNoLe out.2 = preferNoLe c.
Proof.
  intros E preferred opposite out. subst out preferred opposite.
  unfold tryTransmitAttempts, commandAttempts, attemptsInOrder.
  destruct (preferNoLe c) eqn:P; cbn [negb];
    rewrite (tryTransmitAttempts_step _ _ _ _ _ _ _ _ _ E);
    destruct (accepted (mkParsed s1 s2 d1)) eqn:A1; cbn [fst snd negb];
    try (repeat split; cbn; congruence);
    destruct (isLengthError (mkParsed s1 s2 d1)) eqn:L1; cbn [fst snd negb];
    try (repeat split; cbn; congruence).
  all: assert (E2 : tx_tape (reader (consume
              (encodeCommand cmd data_ (negb (preferNoLe c))) c))
            = Some (frame d2 t1 t2) :: rest)
         by (rewrite tx_tape_consume, E; reflexivity).
  all: rewrite P in E2; cbn [negb] in E2.
  all: rewrite (tryTransmitAttempts_step _ _ _ _ _ _ _ _ _ E2).
  all: destruct (accepted (mkParsed t1 t2 d2)) eqn:A2; cbn [fst snd negb].
  all: try (split; [reflexivity|]; split;
            [cbn; rewrite <- app_assoc; reflexivity | cbn; congruence]).
  all: destruct (isLengthError (mkParsed t1 t2 d2)); cbn [fst snd negb].
  all: split; [reflexivity|]; split;
         [cbn; rewrite <- app_assoc; reflexivity | cbn; congruence].
Qed.

(** ** Multi-frame reassembly *)

Lemma consume_after_tx (apdu r : Buffer) (rest : list (option Buffer))
    (c : Card) :
  tx_tape (reader c) = Some r :: rest -> consume apdu c = after_tx [apdu] rest c.
Proof. intros E. unfold consume, after_tx. rewrite E. reflexivity. Qed.

Lemma after_tx_after_tx (l1 l2 : list Buffer) (r1 r2 : list (option Buffer))
    (c : Card) :
  after_tx l2 r2 (after_tx l1 r1 c) = after_tx (l1 ++ l2) r2 c.
Proof. unfold after_tx, set_reader. cbn. rewrite app_assoc. reflexivity. Qed.

Lemma after_tx_nil (c : Card) : after_tx [] (tx_tape (reader c)) c = c.
Proof.
  destruct c as [[a t l e el] ? ? ? ? ? ? ?]. unfold after_tx, set_reader. cbn.
  rewrite app_nil_r. reflexivity.
Qed.

(** A continuation answer makes [getAdditionalFrame] fetch again and
    prepend the fragment. *)
Lemma getAdditionalFrame_fuel_af (fuel : nat) (d : Buffer)
    (rest : list (option Buffer)) (c : Card) :
  tx_tape (reader c) = Some (frame d 0x91 0xAF) :: rest ->
  getAdditionalFrame_fuel (S fuel) c
  = bind (getAdditionalFrame_fuel fuel) (fun more => ret (d ++ more))
         (after_tx [afApdu (preferNoLe c)] rest c).
Proof.
  intros E. cbn [getAdditionalFrame_fuel]. unfold bind at 1, gets.
  unfold bind at 1. unfold tryTransmitAttempts, attemptsInOrder.
  destruct (preferNoLe c) eqn:P;
    rewrite (tryTransmitAttempts_step _ _ _ _ _ _ _ _ _ E);
    cbn [accepted sw1 sw2 data APDU.isAdditionalFrame APDU.isSuccess negb];
    change (_ || _) with true; cbv iota;
    change (APDU.isAdditionalFrame 145 175) with true; cbv iota;
    rewrite <- P at 1;
    rewrite (set_preferNoLe_same (consume _ c));
    rewrite (consume_after_tx _ _ _ _ E); reflexivity.
Qed.

Lemma bind_ret_r {A} (m : M A) (c : Card) : bind m ret c = m c.
Proof. unfold bind, ret. destruct (m c) as [[a|e] c']; reflexivity. Qed.

Lemma bind_assoc {A B C} (m : M A) (f : A -> M B) (g : B -> M C) (c : Card) :
  bind (bind m f) g c = bind m (fun x => bind (f x) g) c.
Proof. unfold bind. destruct (m c) as [[a|e] c']; reflexivity. Qed.

Lemma bind_ext {A B} (m : M A) (f g : A -> M B) (c : Card) :
  (forall a c', f a c' = g a c') -> bind m f c = bind m g c.
Proof.
  intros E. unfold bind. destruct (m c) as [[a|e] c']; [apply E | reflexivity].
Qed.

Lemma getAdditionalFrame_fuel_prefix (mids : list Buffer) :
  forall (fuel : nat) (tl : list (option Buffer)) (c : Card),
    tx_tape (reader c) = afFrames mids ++ tl ->
    getAdditionalFrame_fuel (length mids + fuel) c
    = bind (getAdditionalFrame_fuel fuel)
           (fun more => ret (concat mids ++ more))
           (after_tx (replicate (length mids) (afApdu (preferNoLe c))) tl c).
Proof.
  induction mids as [|d ms IH]; intros fuel tl c E.
  - cbn [length replicate concat Nat.add afFrames map app] in *.
    rewrite <- E, after_tx_nil.
    symmetry. apply bind_ret_r.
  - change (afFrames (d :: ms) ++ tl)
      with (Some (frame d 0x91 0xAF) :: afFrames ms ++ tl) in E.
    cbn [length Nat.add].
    rewrite (getAdditionalFrame_fuel_af _ _ _ _ E).
    unfold bind at 1.
    rewrite (IH fuel tl (after_tx [afApdu (preferNoLe c)] (afFrames ms ++ tl) c))
      by reflexivity.
    rewrite after_tx_after_tx.
    change (preferNoLe (after_tx _ _ c)) with (preferNoLe c).
    cbn [replicate app concat].
    unfold bind, ret.
    destruct (getAdditionalFrame_fuel fuel _) as [[more|e] c']; [|reflexivity].
    rewrite app_assoc. reflexivity.
Qed.

(** A fetch answered with a status that is neither continuation nor a
    length error ends the recursion and yields the answer's payload,
    whatever the status. *)
Lemma getAdditionalFrame_fuel_last (fuel : nat) (dl : Buffer) (e1 e2 : Z)
    (rest : list (option Buffer)) (c : Card) :
  tx_tape (reader c) = Some (frame dl e1 e2) :: rest ->
  APDU.isAdditionalFrame e1 e2 = false ->
  isLengthError (mkParsed e1 e2 dl) = false ->
  getAdditionalFrame_fuel (S fuel) c
  = (Ok dl, after_tx [afApdu (preferNoLe c)] rest c).
Proof.
  intros E NAF NLE. cbn [getAdditionalFrame_fuel]. unfold bind at 1, gets.
  unfold bind at 1. unfold tryTransmitAttempts, attemptsInOrder.
  destruct (preferNoLe c) eqn:P;
    rewrite (tryTransmitAttempts_step _ _ _ _ _ _ _ _ _ E);
    rewrite NLE; cbn [negb];
    destruct (accepted (mkParsed e1 e2 dl)); cbn [sw1 sw2 data];
    rewrite NAF; unfold ret;
    try (rewrite <- P at 1; rewrite (set_preferNoLe_same (consume _ c)));
    rewrite (consume_after_tx _ _ _ _ E); reflexivity.
Qed.

(** A fetch answered with a length error in both Le forms, or with a
    length error and then any other rejected status, also just yields
    the last payload. *)
Lemma getAdditionalFrame_fuel_last_le (fuel : nat) (dl dl' : Buffer)
    (e1 e2 e1' e2' : Z) (rest : list (option Buffer)) (c : Card) :
  tx_tape (reader c)
  = Some (frame dl e1 e2) :: Some (frame dl' e1' e2') :: rest ->
  isLengthError (mkParsed e1 e2 dl) = true ->
  accepted (mkParsed e1 e2 dl) = false ->
  accepted (mkParsed e1' e2' dl') = false ->
  getAdditionalFrame_fuel (S fuel) c
  = (Ok dl',
     after_tx [afApdu (preferNoLe c); afApdu (negb (preferNoLe c))] rest c).
Proof.
  intros E LE NA NA'. cbn [getAdditionalFrame_fuel]. unfold bind at 1, gets.
  unfold bind at 1. unfold tryTransmitAttempts, attemptsInOrder.
  assert (NAF' : APDU.isAdditionalFrame e1' e2' = false).
  { unfold accepted in NA'. cbn [sw1 sw2] in NA'.
    apply orb_false_iff in NA'. tauto. }
  destruct (preferNoLe c) eqn:P;
    rewrite (tryTransmitAttempts_step _ _ _ _ _ _ _ _ _ E);
    rewrite NA, LE; cbn [negb];
    (erewrite tryTransmitAttempts_step
       by (rewrite tx_tape_consume, E; reflexivity));
    rewrite NA';
    (destruct (isLengthError (mkParsed e1' e2' dl')); cbn [negb];
     cbn [tryTransmitAttempts_from]; unfold ret; cbn [sw1 sw2 data];
     rewrite NAF';
     rewrite (consume_after_tx _ _ _ _ E);
     (erewrite consume_after_tx by reflexivity);
     rewrite after_tx_after_tx; reflexivity).
Qed.

Lemma sendCommand_af (c : Card) (cmd : Z) (data_ : option Buffer)
    (d0 : Buffer) (tl : list (option Buffer)) :
  tx_tape (reader c) = Some (frame d0 0x91 0xAF) :: tl ->
  sendCommand cmd data_ c
  = bind getAdditionalFrame (fun more => ret (d0 ++ more))
         (after_tx [encodeCommand cmd data_ (negb (preferNoLe c))] tl c).
Proof.
  intros E. unfold sendCommand. unfold bind at 1, gets. unfold bind at 1.
  unfold tryTransmitAttempts, commandAttempts, attemptsInOrder.
  destruct (preferNoLe c) eqn:P;
    rewrite (tryTransmitAttempts_step _ _ _ _ _ _ _ _ _ E);
    change (accepted (mkParsed 145 175 d0)) with true; cbv iota;
    cbn [sw1 sw2 data negb];
    change (APDU.isSuccess 145 175) with false;
    change (APDU.isAdditionalFrame 145 175) with true;
    cbn [negb andb];
    rewrite <- P at 1;
    rewrite (set_preferNoLe_same (consume _ c));
    rewrite (consume_after_tx _ _ _ _ E); reflexivity.
Qed.

Lemma getAdditionalFrame_prefix (mids : list Buffer)
    (tl : list (option Buffer)) (c : Card) :
  tx_tape (reader c) = afFrames mids ++ tl ->
  getAdditionalFrame c
  = bind (getAdditionalFrame_fuel (S (length tl + length (esc_tape (reader c)))))
         (fun more => ret (concat mids ++ more))
         (after_tx (replicate (length mids) (afApdu (preferNoLe c))) tl c).
Proof.
  intros E. unfold getAdditionalFrame, pending.
  rewrite E, length_app.
  unfold afFrames at 1. rewrite length_map.
  rewrite <- (getAdditionalFrame_fuel_prefix mids _ tl c E).
  f_equal. lia.
Qed.

(** The reassembly runs up to the first answer that is not a
    continuation; that answer's status is not looked at. *)
Lemma sendCommand_until_last (c : Card) (cmd : Z) (data_ : option Buffer)
    (d0 : Buffer) (mids : list Buffer) (dl : Buffer) (e1 e2 : Z)
    (rest : list (option Buffer)) :
  tx_tape (reader c)
  = Some (frame d0 0x91 0xAF)
    :: afFrames mids ++ Some (frame dl e1 e2) :: rest ->
  APDU.isAdditionalFrame e1 e2 = false ->
  isLengthError (mkParsed e1 e2 dl) = false ->
  sendCommand cmd data_ c
  = (Ok (d0 ++ concat mids ++ dl),
     after_tx (encodeCommand cmd data_ (negb (preferNoLe c))
               :: replicate (S (length mids)) (afApdu (preferNoLe c)))
              rest c).
Proof.
  intros E NAF NLE. rewrite (sendCommand_af _ _ _ _ _ E). unfold bind at 1.
  erewrite getAdditionalFrame_prefix by reflexivity.
  unfold bind at 1.
  erewrite getAdditionalFrame_fuel_last by (reflexivity || assumption).
  unfold ret. rewrite !after_tx_after_tx.
  change (preferNoLe (after_tx _ _ c)) with (preferNoLe c).
  f_equal. f_equal.
  change (S (length mids)) with (1 + length mids)%nat.
  rewrite Nat.add_comm, replicate_add. reflexivity.
Qed.

(** C4: when the first answer to a command carries 91 AF and the
    following ADDITIONAL_FRAME fetches are answered 91 AF, ..., 91 AF,
    91 00, [sendCommand] returns the payload fragments of all these
    answers, in order, concatenated; it has sent the command once and one
    fetch per continuation answer. *)
Theorem sendCommand_reassembles (c : Card) (cmd : Z) (data_ : option Buffer)
    (d0 : Buffer) (mids : list Buffer) (dl : Buffer)
    (rest : list (option Buffer)) :
  tx_tape (reader c)
  = Some (frame d0 0x91 0xAF)
    :: afFrames mids ++ Some (frame dl 0x91 0x00) :: rest ->
  sendCommand cmd data_ c
  = (Ok (d0 ++ concat mids ++ dl),
     after_tx (encodeCommand cmd data_ (negb (preferNoLe c))
               :: replicate (S (length mids)) (afApdu (preferNoLe c)))
              rest c).
Proof.
  intros E. apply (sendCommand_until_last _ _ _ _ _ _ _ _ _ E); reflexivity.
Qed.

(** C8: when a fetch in the middle of a reassembly is answered with a
    status word that is neither success nor continuation (91 AE, say),
    [sendCommand] raises nothing and returns the fragments gathered up
    to and including that answer; the value returned and the fields of
    the card object are the ones a transfer completed with 91 00 and
    the same fragments leaves behind. *)
Theorem truncated_reassembly_is_silent (c : Card) (cmd : Z)
    (data_ : option Buffer) (d0 : Buffer) (mids : list Buffer)
    (dl dl' : Buffer) (e1 e2 e1' e2' : Z) (rest : list (option Buffer)) :
  accepted (mkParsed e1 e2 dl) = false ->
  accepted (mkParsed e1' e2' dl') = false ->
  tx_tape (reader c)
  = Some (frame d0 0x91 0xAF)
    :: afFrames mids ++ abortedFetch dl e1 e2 dl' e1' e2' ++ rest ->
  let retried := isLengthError (mkParsed e1 e2 dl) in
  let payload := d0 ++ concat mids ++ (if retried then dl' else dl) in
  let sent := encodeCommand cmd data_ (negb (preferNoLe c))
              :: replicate (S (length mids)) (afApdu (preferNoLe c)) in
  let completed :=
    with_tape (Some (frame d0 0x91 0xAF)
               :: afFrames mids
               ++ Some (frame (if retried then dl' else dl) 0x91 0x00) :: rest)
              c in
  sendCommand cmd data_ c
  = (Ok payload,
     after_tx (sent ++ if retried then [afApdu (negb (preferNoLe c))] else [])
              rest c)
  /\ sendCommand cmd data_ completed = (Ok payload, after_tx sent rest c).
Proof.
  intros NA NA' E retried payload sent completed.
  split.
  - rewrite (sendCommand_af _ _ _ _ _ E). unfold bind at 1.
    erewrite getAdditionalFrame_prefix by reflexivity.
    unfold bind at 1. subst payload sent. unfold abortedFetch. subst retried.
    destruct (isLengthError (mkParsed e1 e2 dl)) eqn:LE.
    + erewrite getAdditionalFrame_fuel_last_le by (reflexivity || assumption).
      unfold ret. rewrite !after_tx_after_tx.
      change (preferNoLe (after_tx _ _ c)) with (preferNoLe c).
      f_equal. f_equal.
      change (S (length mids)) with (1 + length mids)%nat.
      rewrite Nat.add_comm, replicate_add. cbn [replicate app].
      rewrite <- !app_assoc. reflexivity.
    + assert (NAF : APDU.isAdditionalFrame e1 e2 = false).
      { unfold accepted in NA. cbn [sw1 sw2] in NA.
        apply orb_false_iff in NA. tauto. }
      erewrite getAdditionalFrame_fuel_last by (reflexivity || assumption).
      unfold ret. rewrite !after_tx_after_tx.
      change (preferNoLe (after_tx _ _ c)) with (preferNoLe c).
      f_equal. f_equal.
      change (S (length mids)) with (1 + length mids)%nat.
      rewrite Nat.add_comm, replicate_add. cbn [replicate app].
      rewrite app_nil_r. reflexivity.
  - subst completed payload sent.
    erewrite sendCommand_until_last by reflexivity.
    unfold with_tape. rewrite after_tx_after_tx. reflexivity.
Qed.

(** ** Chunked writes *)

Lemma accepted_not_length_error (p : Parsed) :
  accepted p = true -> isLengthError p = false.
Proof.
  unfold accepted, isLengthError, APDU.isSuccess, APDU.isAdditionalFrame.
  destruct (Z.eqb_spec (sw2 p) 0x7E) as [->|]; cbn;
    destruct (Z.eqb_spec (sw2 p) 0xA1) as [E|]; try rewrite E; cbn;
    rewrite ?andb_false_r; cbn; congruence.
Qed.

Lemma chunksOf_fuel_enough (n : nat) :
  forall (f1 f2 : nat) (l : Buffer),
    (length l <= f1)%nat -> (length l <= f2)%nat -> (0 < n)%nat ->
    chunksOf_fuel f1 n l = chunksOf_fuel f2 n l.
Proof.
  induction f1 as [|f1 IH]; intros f2 l H1 H2 Hn.
  - destruct l; [|cbn in H1; lia]. destruct f2; reflexivity.
  - destruct l as [|x l]; [destruct f2; reflexivity|].
    destruct f2 as [|f2]; [cbn in H2; lia|].
    cbn [chunksOf_fuel]. f_equal.
    assert (length (drop n (x :: l)) <= length l)%nat.
    { rewrite length_drop. cbn [length]. lia. }
    cbn [length] in H1, H2. apply IH; lia.
Qed.

Lemma concat_chunksOf_fuel (n : nat) :
  forall (fuel : nat) (l : Buffer),
    (length l <= fuel)%nat -> (0 < n)%nat ->
    concat (chunksOf_fuel fuel n l) = l.
Proof.
  induction fuel as [|fuel IH]; intros l Hl Hn.
  - destruct l; [reflexivity | cbn in Hl; lia].
  - destruct l as [|x l]; [reflexivity|].
    cbn [chunksOf_fuel concat]. rewrite IH; [apply take_drop | | lia].
    rewrite length_drop. cbn [length] in *. lia.
Qed.

Lemma Forall_chunksOf_fuel (n : nat) :
  forall (fuel : nat) (l : Buffer),
    Forall (fun ch : Buffer => (length ch <= n)%nat) (chunksOf_fuel fuel n l).
Proof.
  induction fuel as [|fuel IH]; intros l; [constructor|].
  destruct l as [|x l]; [constructor|].
  cbn [chunksOf_fuel]. constructor; [|apply IH].
  rewrite length_take. lia.
Qed.

Lemma lengths_chunksOf_fuel (n : nat) :
  forall (fuel : nat) (l : Buffer),
    map length (chunksOf_fuel fuel n l) = chunkLengths fuel n (length l).
Proof.
  induction fuel as [|fuel IH]; intros l; [reflexivity|].
  destruct l as [|x l]; [reflexivity|].
  cbn [chunksOf_fuel chunkLengths map].
  change (length (x :: l) =? 0)%nat with false. cbv iota.
  rewrite IH, length_take, length_drop. reflexivity.
Qed.

Lemma build_af_data (chunk : Buffer) :
  APDU.build 0x90 DesfireCommand.ADDITIONAL_FRAME 0x00 0x00
             (Some chunk) (Some 0)
  = afDataFrame chunk.
Proof. reflexivity. Qed.

Lemma take_min_length (n : nat) (l : Buffer) :
  take (Nat.min (length l) n) l = take n l.
Proof.
  destruct (Nat.le_ge_cases n (length l)) as [Hle|Hge].
  - rewrite Nat.min_r by lia. reflexivity.
  - rewrite Nat.min_l by lia. rewrite !take_ge by lia. reflexivity.
Qed.

Lemma writeData_loop_accepted (data_ : Buffer) :
  forall (fuel sent : nat) (ps : list Parsed) (rest : list (option Buffer))
         (c : Card),
    (length data_ - sent <= fuel)%nat ->
    Forall (fun p => accepted p = true) ps ->
    length ps = length (chunksOf_fuel fuel 40 (drop sent data_)) ->
    tx_tape (reader c) = map answerOf ps ++ rest ->
    writeData_loop fuel data_ sent c
    = (Ok tt,
       after_tx (map afDataFrame (chunksOf_fuel fuel 40 (drop sent data_)))
                rest c).
Proof.
  induction fuel as [|fuel IH]; intros sent ps rest c Hf Hps Hlen E.
  - cbn [writeData_loop chunksOf_fuel map] in *.
    destruct ps; [|discriminate]. cbn [map app] in E.
    rewrite <- E, after_tx_nil.
    destruct (sent <? length data_)%nat eqn:Hlt; [|reflexivity].
    apply Nat.ltb_lt in Hlt. lia.
  - cbn [writeData_loop].
    destruct (sent <? length data_)%nat eqn:Hlt.
    + apply Nat.ltb_lt in Hlt.
      assert (Hdrop : length (drop sent data_) = (length data_ - sent)%nat)
        by apply length_drop.
      destruct (drop sent data_) as [|x l'] eqn:D; [cbn in Hdrop; lia|].
      cbn [chunksOf_fuel map length] in Hlen |- *.
      destruct ps as [|p ps']; [discriminate|].
      destruct p as [s1 s2 d].
      apply Forall_cons in Hps as [Hp Hps'].
      cbn [map app] in E. unfold answerOf at 1 in E. cbn [sw1 sw2 data] in E.
      unfold slice.
      replace (sent + Nat.min (length data_ - sent) MAX_CHUNK - sent)%nat
        with (Nat.min (length (drop sent data_)) 40)
        by (rewrite length_drop; unfold MAX_CHUNK; lia).
      rewrite take_min_length, D.
      rewrite build_af_data.
      unfold bind at 1.
      rewrite (transmitParsed_frame _ _ _ _ _ _ E).
      unfold bind at 1.
      rewrite (accepted_not_length_error _ Hp). unfold ret at 1.
      rewrite Hp. cbn [negb].
      assert (Hnext : drop (sent + length (take 40 (x :: l'))) data_
                      = drop 40 (x :: l')).
      { rewrite <- D, <- drop_drop, length_take.
        destruct (Nat.le_ge_cases 40 (length (drop sent data_))).
        - rewrite Nat.min_l by lia. reflexivity.
        - rewrite Nat.min_r by lia. rewrite !drop_ge by lia. reflexivity. }
      rewrite (IH _ ps' rest); rewrite ?Hnext.
      * rewrite (consume_after_tx _ _ _ _ E), after_tx_after_tx. reflexivity.
      * rewrite length_take. cbn [length] in Hdrop |- *. lia.
      * assumption.
      * cbn [length] in Hlen. lia.
      * rewrite tx_tape_consume, E. reflexivity.
    + apply Nat.ltb_ge in Hlt.
      rewrite drop_ge in Hlen |- * by lia.
      cbn [chunksOf_fuel map length] in *.
      destruct ps; [|discriminate]. cbn [map app] in E.
      rewrite <- E, after_tx_nil. reflexivity.
Qed.

Lemma length_uintLE (n : nat) (v : Z) : length (uintLE n v) = n.
Proof. revert v. induction n as [|n IH]; intros v; cbn; [|rewrite IH]; reflexivity. Qed.

Lemma build_lead_frame (fileNo offset : Z) (data_ : Buffer) :
  APDU.buildDESFire DesfireCommand.WRITE_DATA
    (Some ([u8 fileNo] ++ uintLE 3 offset
           ++ uintLE 3 (Z.of_nat (length data_)) ++ take 40 data_)) 0
  = leadFrame fileNo offset data_.
Proof.
  unfold APDU.buildDESFire, APDU.build, leadFrame.
  rewrite !length_app, !length_uintLE. cbn [length].
  replace (1 + (3 + (3 + length (take 40 data_))))%nat
    with (7 + length (take 40 data_))%nat by lia.
  cbn [app]. rewrite <- !app_assoc. reflexivity.
Qed.

(** C6: if the card accepts every frame, [writeData] puts on the wire
    one lead frame under opcode 0x3D (seven header bytes, then the first
    40 data bytes at most) followed by one ADDITIONAL_FRAME frame per
    further piece of 40 bytes at most; the pieces, in order, are exactly
    the caller's data, and a 130-byte buffer travels as 40, 40, 40 and
    10 bytes, i.e. as the lead frame and three continuation frames. *)
Theorem writeData_chunking (c : Card) (fileNo offset : Z) (data_ : Buffer)
    (ps : list Parsed) (rest : list (option Buffer)) :
  0 <= offset < 2 ^ 24 ->
  Z.of_nat (length data_) < 2 ^ 24 ->
  Forall (fun p => accepted p = true) ps ->
  length ps = S (length (chunksOf 40 (drop 40 data_))) ->
  tx_tape (reader c) = map answerOf ps ++ rest ->
  let chunks := take 40 data_ :: chunksOf 40 (drop 40 data_) in
  writeData fileNo offset data_ c
  = (Ok tt,
     after_tx (leadFrame fileNo offset data_
               :: map afDataFrame (chunksOf 40 (drop 40 data_))) rest c)
  /\ concat chunks = data_
  /\ Forall (fun ch : Buffer => (length ch <= 40)%nat) chunks
  /\ (length data_ = 130%nat -> map length chunks = [40; 40; 40; 10]%nat).
Proof.
  intros Hoff Hlen Hps Hn E chunks. subst chunks.
  split; [|split; [|split]].
  - unfold writeData, writeUIntLE3.
    destruct (Z.leb_spec 0 offset); [|lia].
    destruct (Z.ltb_spec offset (2 ^ 24)); [|lia].
    destruct (Z.leb_spec 0 (Z.of_nat (length data_))); [|lia].
    destruct (Z.ltb_spec (Z.of_nat (length data_)) (2 ^ 24)); [|lia].
    cbn [andb]. unfold lift, bind at 1. unfold bind at 1.
    assert (Hfirst : slice data_ 0 (Nat.min (length data_) MAX_CHUNK)
                     = take 40 data_).
    { unfold slice, MAX_CHUNK. rewrite drop_0, Nat.sub_0_r.
      apply take_min_length. }
    rewrite Hfirst, build_lead_frame.
    destruct ps as [|[s1 s2 d] ps']; [discriminate|].
    apply Forall_cons in Hps as [Hp Hps'].
    cbn [map app] in E. unfold answerOf at 1 in E. cbn [sw1 sw2 data] in E.
    unfold bind at 1.
    rewrite (transmitParsed_frame _ _ _ _ _ _ E), Hp. cbn [negb].
    assert (Hdrop : drop (length (take 40 data_)) data_ = drop 40 data_).
    { rewrite length_take.
      destruct (Nat.le_ge_cases 40 (length data_)).
      - rewrite Nat.min_l by lia. reflexivity.
      - rewrite Nat.min_r by lia. rewrite !drop_ge by lia. reflexivity. }
    assert (Hch : chunksOf_fuel (length data_) 40 (drop 40 data_)
                  = chunksOf 40 (drop 40 data_)).
    { apply chunksOf_fuel_enough; rewrite ?length_drop; lia. }
    rewrite (writeData_loop_accepted data_ _ _ ps' rest).
    + rewrite Hdrop, Hch.
      rewrite (consume_after_tx _ _ _ _ E), after_tx_after_tx. reflexivity.
    + lia.
    + assumption.
    + rewrite Hdrop, Hch. cbn [length] in Hn. lia.
    + rewrite tx_tape_consume, E. reflexivity.
  - cbn [concat]. unfold chunksOf.
    rewrite concat_chunksOf_fuel by lia. apply take_drop.
  - constructor; [rewrite length_take; lia | apply Forall_chunksOf_fuel].
  - intros H130. cbn [map]. unfold chunksOf.
    rewrite lengths_chunksOf_fuel, length_take, length_drop, H130.
    reflexivity.
Qed.

(** ** What the engine leaves alone *)

Section Preservation.
Context (R : Card -> Card -> Prop) `{!PreOrder R}.

Lemma preserves_ret {A} (a : A) : preserves R (ret a).
Proof. intros c. reflexivity. Qed.

Lemma preserves_throw {A} (e : Error) : preserves R (@throw A e).
Proof. intros c. reflexivity. Qed.

Lemma preserves_lift {A} (r : Result A) : preserves R (lift r).
Proof. intros c. reflexivity. Qed.

Lemma preserves_gets {A} (f : Card -> A) : preserves R (gets f).
Proof. intros c. reflexivity. Qed.

Lemma preserves_modify (f : Card -> Card) :
  (forall c, R c (f c)) -> preserves R (modify f).
Proof. intros Hf c. apply Hf. Qed.

Lemma preserves_bind {A B} (m : M A) (k : A -> M B) :
  preserves R m -> (forall a, preserves R (k a)) -> preserves R (bind m k).
Proof.
  intros Hm Hk c. unfold bind. specialize (Hm c).
  destruct (m c) as [[a|e] c1]; cbn in *; [|assumption].
  etransitivity; [exact Hm | apply Hk].
Qed.

Lemma preserves_attempt {A} (m : M A) :
  preserves R m -> preserves R (attempt m).
Proof.
  intros Hm c. unfold attempt. specialize (Hm c).
  destruct (m c) as [[a|e] c1]; exact Hm.
Qed.

Hypothesis R_transmit : forall apdu, preserves R (transmit apdu).
Hypothesis R_escape : forall apdu, preserves R (transmitViaAcr122U apdu).
Hypothesis R_prefer : forall b c, R c (set_preferNoLe b c).

Lemma preserves_transmitParsed (apdu : Buffer) :
  preserves R (transmitParsed apdu).
Proof.
  unfold transmitParsed.
  repeat first
    [ apply preserves_bind; [|intros ?]
    | apply preserves_attempt
    | apply preserves_lift
    | apply preserves_ret
    | apply preserves_gets
    | apply R_transmit
    | apply R_escape
    | match goal with
      | |- preserves R (if ?b then _ else _) => destruct b
      | |- preserves R (match ?o with Some _ => _ | None => _ end) => destruct o
      end ].
Qed.

(** What follows the first transmit of [transmitParsed]. *)
Lemma transmitParsed_after_first (apdu : Buffer) (c : Card) :
  R (attempt (transmit apdu) c).2 (transmitParsed apdu c).2.
Proof.
  unfold transmitParsed. unfold bind at 1.
  destruct (attempt (transmit apdu) c) as [[first|e] c1]; [|reflexivity].
  cbn [snd]. revert c1.
  change (preserves R
    (let* response :=
       match first with
       | Some r => ret (Some r)
       | None => attempt (transmit apdu)
       end in
     if has2 response then lift (APDU.parse (default [] response))
     else
       let* isAcr := gets (fun c => acr122u (reader c)) in
       let* escResp :=
         if isAcr then attempt (transmitViaAcr122U apdu) else ret None in
       if has2 escResp then lift (APDU.parse (default [] escResp))
       else
         let* rx :=
           match toggleLe apdu with
           | Some toggled => attempt (transmit toggled)
           | None => ret None
           end in
         if has2 rx then lift (APDU.parse (default [] rx))
         else lift (APDU.parse (default [] response)))).
  repeat first
    [ apply preserves_bind; [|intros ?]
    | apply preserves_attempt
    | apply preserves_lift
    | apply preserves_ret
    | apply preserves_gets
    | apply R_transmit
    | apply R_escape
    | match goal with
      | |- preserves R (if ?b then _ else _) => destruct b
      | |- preserves R (match ?o with Some _ => _ | None => _ end) => destruct o
      end ].
Qed.

Lemma preserves_tryTransmitAttempts_from (attempts : list (Buffer * bool)) :
  forall last, preserves R (tryTransmitAttempts_from last attempts).
Proof.
  induction attempts as [|[apdu usesLe] rest IH]; intros last.
  - destruct last; [apply preserves_ret | apply preserves_throw].
  - cbn [tryTransmitAttempts_from].
    apply preserves_bind; [apply preserves_transmitParsed|]. intros parsed.
    destruct (accepted parsed).
    + apply preserves_bind; [|intros; apply preserves_ret].
      apply preserves_modify, R_prefer.
    + destruct (negb (isLengthError parsed)); [apply preserves_ret | apply IH].
Qed.

Lemma preserves_tryTransmitAttempts (attempts : list (Buffer * bool)) :
  preserves R (tryTransmitAttempts attempts).
Proof. apply preserves_tryTransmitAttempts_from. Qed.

(** What follows the first transmit of a non-empty attempt list. *)
Lemma tryTransmitAttempts_after_first (apdu : Buffer) (usesLe : bool)
    (rest : list (Buffer * bool)) (c : Card) :
  R (attempt (transmit apdu) c).2
    (tryTransmitAttempts ((apdu, usesLe) :: rest) c).2.
Proof.
  etransitivity; [apply transmitParsed_after_first|].
  unfold tryTransmitAttempts. cbn [tryTransmitAttempts_from].
  unfold bind at 1.
  destruct (transmitParsed apdu c) as [[parsed|e] c1]; [|reflexivity].
  cbn [snd]. revert c1.
  change (preserves R
    (if accepted parsed then
       modify (set_preferNoLe (negb usesLe)) ;;; ret parsed
     else if negb (isLengthError parsed) then ret parsed
     else tryTransmitAttempts_from (Some parsed) rest)).
  destruct (accepted parsed).
  - apply preserves_bind; [|intros; apply preserves_ret].
    apply preserves_modify, R_prefer.
  - destruct (negb (isLengthError parsed));
      [apply preserves_ret | apply preserves_tryTransmitAttempts_from].
Qed.

Lemma preserves_getAdditionalFrame_fuel (fuel : nat) :
  preserves R (getAdditionalFrame_fuel fuel).
Proof.
  induction fuel as [|fuel IH]; [apply preserves_throw|].
  cbn [getAdditionalFrame_fuel].
  apply preserves_bind; [apply preserves_gets|]. intros prefer.
  apply preserves_bind; [apply preserves_tryTransmitAttempts|]. intros parsed.
  destruct (APDU.isAdditionalFrame _ _); [|apply preserves_ret].
  apply preserves_bind; [apply IH | intros; apply preserves_ret].
Qed.

Lemma preserves_getAdditionalFrame : preserves R getAdditionalFrame.
Proof. intros c. apply preserves_getAdditionalFrame_fuel. Qed.

Lemma preserves_sendCommand (cmd : Z) (data_ : option Buffer) :
  preserves R (sendCommand cmd data_).
Proof.
  unfold sendCommand.
  apply preserves_bind; [apply preserves_gets|]. intros prefer.
  apply preserves_bind; [apply preserves_tryTransmitAttempts|]. intros parsed.
  destruct (_ && _); [apply preserves_throw|].
  destruct (APDU.isAdditionalFrame _ _); [|apply preserves_ret].
  apply preserves_bind;
    [apply preserves_getAdditionalFrame | intros; apply preserves_ret].
Qed.

End Preservation.

Instance engine_only_preorder : PreOrder engine_only.
Proof.
  split.
  - intros c. unfold engine_only. tauto.
  - intros a b c (?&?&?&?&?&?) (?&?&?&?&?&?). unfold engine_only.
    repeat split; congruence.
Qed.

Instance same_session_preorder : PreOrder same_session.
Proof.
  split.
  - intros c. unfold same_session. tauto.
  - intros a b c [? ?] [? ?]. unfold same_session. split; congruence.
Qed.

Lemma engine_only_sendCommand (cmd : Z) (data_ : option Buffer) :
  preserves engine_only (sendCommand cmd data_).
Proof.
  apply preserves_sendCommand; [apply _ | | |].
  - intros apdu c. unfold transmit.
    destruct (tx_tape (reader c)) as [|[r|] t]; cbn; unfold engine_only;
      cbn; tauto.
  - intros apdu c. unfold transmitViaAcr122U.
    destruct (esc_tape (reader c)) as [|[r|] t]; cbn; unfold engine_only;
      cbn; tauto.
  - intros b c. unfold engine_only. cbn. tauto.
Qed.

Lemma engine_only_same_session (c c' : Card) :
  engine_only c c' -> same_session c c'.
Proof. unfold engine_only, same_session. tauto. Qed.

(** ** SelectApplication and the session *)

(** C1, as stated, fails: Select(1); Auth(1, K0); Select(2) against a
    card that answers every command with success ends with the session
    still marked authenticated; and a select on a card object holding
    session keys leaves both keys in place. *)
Lemma select_after_auth_stays_authenticated :
  let out :=
    (selectApplication 1 ;;;
     @authenticateDES toyCrypto 0 (Some K0) ;;;
     selectApplication 2)
      (freshCard ([Some (frame [] 0x91 0x00)] ++ desHandshakeAnswers
                  ++ [Some (frame [] 0x91 0x00)])) in
  (out.1 = Ok tt
   /\ currentApp out.2 = Some 2
   /\ authenticated (auth out.2) = true
   /\ authenticatedKeyNo (auth out.2) = Some 0)
  /\ (let c := cardWithSession [Some (frame [] 0x91 0x00)] in
      let out := selectApplication 2 c in
      out.1 = Ok tt
      /\ authenticated (auth out.2) = true
      /\ sessionKeyEnc (auth out.2) = sessionKeyEnc (auth c)
      /\ sessionKeyEnc (auth c) = Some 0%nat
      /\ sessionKeyMac (auth out.2) = Some 1%nat
      /\ heap out.2 = heap c).
Proof. vm_compute. repeat split. Qed.


(** ** Failed authentication and the session *)

Example cardWithSession_is_authenticated :
  let c := cardWithSession [] in
  authenticated (auth c) = true
  /\ sessionKeyEnc (auth c) = Some 0%nat
  /\ sessionKeyMac (auth c) = Some 1%nat
  /\ heap c
     = [[0; 1; 2; 3; 0xB1; 0xB2; 0xB3; 0xB4; 12; 13; 14; 15;
         0xBD; 0xBE; 0xBF; 0xC0];
        [4; 5; 6; 7; 0xB5; 0xB6; 0xB7; 0xB8; 8; 9; 10; 11;
         0xB9; 0xBA; 0xBB; 0xBC]].
Proof. vm_compute. repeat split. Qed.

(** C2, as stated, fails.  With a session open, [authenticateAES] given
    a 15-byte key throws before [resetAuth] is reached, and
    [authenticateDES], which never calls [resetAuth], throws on the
    card's 91 AE; both times the session stays authenticated and the
    key buffers keep their contents. *)
Lemma failed_auth_can_keep_session :
  (let c := cardWithSession [] in
   let out := @authenticateAES toyCrypto 0 (Some (alloc 15 0x00)) c in
   out.1 = Throw AesKeyMustBe16 /\ out.2 = c
   /\ authenticated (auth out.2) = true)
  /\ (let c := cardWithSession [Some (frame [] 0x91 0xAE)] in
      let out := @authenticateDES toyCrypto 0 None c in
      out.1 = Throw (DesAuthFailed 0x91 0xAE)
      /\ authenticated (auth out.2) = true
      /\ sessionKeyEnc (auth out.2) = Some 0%nat
      /\ heap out.2 !! 0%nat
         = Some [0; 1; 2; 3; 0xB1; 0xB2; 0xB3; 0xB4; 12; 13; 14; 15;
                 0xBD; 0xBE; 0xBF; 0xC0]).
Proof. vm_compute. repeat split. Qed.

Lemma onThrow_throw {A} (P : Card -> Prop) (e : Error) : onThrow P (@throw A e).
Proof. intros c e' c' HP E. injection E as _ <-. exact HP. Qed.

Lemma onThrow_bind {A B} (P : Card -> Prop) (m : M A) (k : A -> M B) :
  (forall c, P c -> P (m c).2) -> (forall a, onThrow P (k a)) ->
  onThrow P (bind m k).
Proof.
  intros Hm Hk c e c' HP. unfold bind. specialize (Hm c HP).
  destruct (m c) as [[a|e1] c1]; cbn in Hm.
  - apply Hk. exact Hm.
  - intros E. injection E as _ <-. exact Hm.
Qed.

Lemma onThrow_neverThrows {A} (P : Card -> Prop) (m : M A) :
  neverThrows m -> onThrow P m.
Proof. intros Hm c e c' _ E. destruct (Hm c e c' E). Qed.

Lemma neverThrows_ret {A} (a : A) : neverThrows (ret a).
Proof. intros c e c'. discriminate. Qed.

Lemma neverThrows_modify (f : Card -> Card) : neverThrows (modify f).
Proof. intros c e c'. discriminate. Qed.

Lemma neverThrows_newBuffer (b : Buffer) : neverThrows (newBuffer b).
Proof. intros c e c'. discriminate. Qed.

Lemma neverThrows_bind {A B} (m : M A) (k : A -> M B) :
  neverThrows m -> (forall a, neverThrows (k a)) -> neverThrows (bind m k).
Proof.
  intros Hm Hk c e c'. unfold bind. specialize (Hm c).
  destruct (m c) as [[a|e1] c1]; [apply Hk | destruct (Hm e1 c1 eq_refl)].
Qed.

Lemma lookup_fill0 (r : option nat) (h : list Buffer) (l : nat) :
  fill0 r h !! l
  = if bool_decide (r = Some l)
    then (fun b : Buffer => alloc (length b) 0) <$> (h !! l)
    else h !! l.
Proof.
  destruct r as [l'|]; cbn [fill0].
  - destruct (decide (l' = l)) as [->|Hne].
    + rewrite bool_decide_eq_true_2 by reflexivity.
      rewrite list_lookup_alter, decide_True by reflexivity. reflexivity.
    + rewrite bool_decide_eq_false_2 by congruence.
      rewrite list_lookup_alter, decide_False by exact Hne. reflexivity.
  - rewrite bool_decide_eq_false_2 by discriminate. reflexivity.
Qed.

Lemma length_alloc (n : nat) (v : Z) : length (alloc n v) = n.
Proof. apply length_replicate. Qed.

Lemma resetAuth_cleared (c : Card) : cleared c (resetAuth c).2.
Proof.
  unfold cleared. cbn. repeat split.
  intros l b Href Hb.
  rewrite !lookup_fill0, Hb. cbn.
  destruct Href as [-> | ->].
  - rewrite (bool_decide_eq_true_2 (Some l = Some l)) by reflexivity.
    destruct (bool_decide _); cbn; rewrite ?length_alloc; reflexivity.
  - rewrite (bool_decide_eq_true_2 (Some l = Some l)) by reflexivity.
    destruct (bool_decide _); cbn; rewrite ?length_alloc; reflexivity.
Qed.

Lemma cleared_same_session (c0 c c' : Card) :
  same_session c c' -> cleared c0 c -> cleared c0 c'.
Proof.
  intros [Ha Hh] (?&?&?&?). unfold cleared. rewrite Ha, Hh. tauto.
Qed.

Lemma cleared_preserved {A} (c0 : Card) (m : M A) :
  preserves same_session m -> forall c, cleared c0 c -> cleared c0 (m c).2.
Proof. intros Hm c. apply cleared_same_session, Hm. Qed.

Lemma same_session_sendCommand (cmd : Z) (data_ : option Buffer) :
  preserves same_session (sendCommand cmd data_).
Proof. intros c. apply engine_only_same_session, engine_only_sendCommand. Qed.

Lemma same_session_generateRandom (n : nat) :
  preserves same_session (generateRandom n).
Proof. intros c. split; reflexivity. Qed.

Lemma cleared_set_transactionId (c0 : Card) (t : option Buffer) (c : Card) :
  cleared c0 c -> cleared c0 (modify (set_transactionId t) c).2.
Proof. intros H. exact H. Qed.

Lemma cleared_newBuffer (c0 : Card) (b : Buffer) (c : Card) :
  cleared c0 c -> cleared c0 (newBuffer b c).2.
Proof.
  intros (?&?&?&Hz). unfold cleared. cbn. repeat split; try assumption.
  intros l b0 Href Hb. apply lookup_app_l_Some, Hz; assumption.
Qed.

Lemma resolveKey_state (keyNo : Z) (key : option Buffer) (c : Card) :
  (resolveKey keyNo key c).2 = c.
Proof.
  unfold resolveKey. destruct key; [reflexivity|]. cbn.
  destruct (keyManager c), (currentApp c); reflexivity.
Qed.

Lemma neverThrows_lift_ok {A} (r : Result A) :
  (exists v, r = Ok v) -> neverThrows (lift r).
Proof. intros [v ->] c e c'. discriminate. Qed.

Section FailedHandshake.
Context `{NodeCrypto}.

Lemma aesCMAC_ok (key data_ : Buffer) (length_ : option nat) :
  length key = 16%nat -> exists v, aesCMAC key data_ length_ = Ok v.
Proof.
  intros Hk. unfold aesCMAC. rewrite Hk. cbn [Nat.eqb negb].
  destruct (generateCMACSubkeys key). eexists. reflexivity.
Qed.

Ltac neverThrows_solve :=
  repeat first
    [ apply neverThrows_ret
    | apply neverThrows_modify
    | apply neverThrows_newBuffer
    | apply neverThrows_lift_ok; apply aesCMAC_ok; assumption
    | apply neverThrows_bind; [|intros ?] ].

Ltac keeps_cleared :=
  first
    [ apply cleared_preserved;
      first [ apply same_session_sendCommand
            | apply same_session_generateRandom
            | apply (preserves_lift same_session) ]
    | apply cleared_set_transactionId
    | apply cleared_newBuffer ].

Ltac onThrow_solve :=
  repeat first
    [ apply onThrow_throw
    | match goal with
      | |- onThrow _ (if ?b then _ else _) => destruct b eqn:?
      end
    | apply onThrow_bind; [keeps_cleared | intros ?]
    | apply onThrow_neverThrows; solve [neverThrows_solve] ].

Lemma authenticateAES_failure (keyNo : Z) (key : option Buffer)
    (c c' : Card) (e : Error) :
  authenticateAES keyNo key c = (Throw e, c') ->
  match (resolveKey keyNo key c).1 with
  | Ok authKey =>
      if (length authKey =? 16)%nat then cleared c c'
      else c' = c /\ e = AesKeyMustBe16
  | Throw e0 => c' = c /\ e = e0
  end.
Proof.
  unfold authenticateAES, bind at 1.
  pose proof (resolveKey_state keyNo key c) as Hst.
  destruct (resolveKey keyNo key c) as [[authKey|e0] cc]; cbn in Hst |- *;
    subst cc; [|intros E; injection E as <- <-; tauto].
  destruct (length authKey =? 16)%nat eqn:Hlen; cbn [negb];
    [|intros E; injection E as <- <-; tauto].
  apply Nat.eqb_eq in Hlen.
  unfold bind at 1.
  change (resetAuth c) with (Ok tt, (resetAuth c).2).
  cbv iota beta.
  generalize (resetAuth_cleared c). generalize ((resetAuth c).2).
  intros c1 H1 E.
  match type of E with
  | ?rest c1 = _ => assert (HT : onThrow (cleared c) rest)
  end.
  { onThrow_solve. }
  exact (HT c1 e c' H1 E).
Qed.

Lemma authenticateEV2First_failure (keyNo : Z) (key : option Buffer)
    (c c' : Card) (e : Error) :
  authenticateEV2First keyNo key c = (Throw e, c') ->
  match (resolveKey keyNo key c).1 with
  | Ok authKey =>
      if (length authKey =? 16)%nat then cleared c c'
      else c' = c /\ e = AesKeyMustBe16
  | Throw e0 => c' = c /\ e = e0
  end.
Proof.
  unfold authenticateEV2First, bind at 1.
  pose proof (resolveKey_state keyNo key c) as Hst.
  destruct (resolveKey keyNo key c) as [[authKey|e0] cc]; cbn in Hst |- *;
    subst cc; [|intros E; injection E as <- <-; tauto].
  destruct (length authKey =? 16)%nat eqn:Hlen; cbn [negb];
    [|intros E; injection E as <- <-; tauto].
  apply Nat.eqb_eq in Hlen.
  unfold bind at 1.
  change (resetAuth c) with (Ok tt, (resetAuth c).2).
  cbv iota beta.
  generalize (resetAuth_cleared c). generalize ((resetAuth c).2).
  intros c1 H1 E.
  match type of E with
  | ?rest c1 = _ => assert (HT : onThrow (cleared c) rest)
  end.
  { unfold deriveSessionKeyEV2Enc, deriveSessionKeyEV2Mac. onThrow_solve. }
  exact (HT c1 e c' H1 E).
Qed.

End FailedHandshake.

(** C2 (amended): when [authenticateAES] or [authenticateEV2First]
    throws after the key has been resolved and found to be 16 bytes
    long, the session is wiped: [authenticated] is false, both session
    key fields are null and every buffer that held a session key is
    zero-filled.  A throw from key resolution or from the length check
    leaves the card object exactly as it was. *)
Theorem failed_handshake_clears_session `{NodeCrypto} (ev2First : bool)
    (keyNo : Z) (key : option Buffer) (c c' : Card) (e : Error) :
  (if ev2First then authenticateEV2First keyNo key c
   else authenticateAES keyNo key c) = (Throw e, c') ->
  match (resolveKey keyNo key c).1 with
  | Ok authKey =>
      if (length authKey =? 16)%nat then cleared c c'
      else c' = c /\ e = AesKeyMustBe16
  | Throw e0 => c' = c /\ e = e0
  end.
Proof.
  destruct ev2First;
    [apply authenticateEV2First_failure | apply authenticateAES_failure].
Qed.

Lemma failed_handshake_clears_session_witness :
  let c := cardWithSession [Some (frame [] 0x91 0xAE)] in
  let out := @authenticateAES toyCrypto 0 (Some K0) c in
  out.1 = Throw (CommandFailed 0x91 0xAE) /\ cleared c out.2.
Proof.
  intros c out. split; [vm_compute; reflexivity|].
  refine (@failed_handshake_clears_session toyCrypto false 0 (Some K0) c
            out.2 (CommandFailed 0x91 0xAE) _).
  vm_compute. reflexivity.
Defined.

(** ** ChangeKeyEV2 *)

Lemma length_crc32Buffer (b : Buffer) : length (CryptoUtils.crc32Buffer b) = 4%nat.
Proof. apply length_uintLE. Qed.

(** The cryptogram input the specification describes is 21 bytes long
    and pads to 32, which the cipher accepts. *)
Lemma spec_changeKeyEV2_plain_pads_to_32 (keyNo : Z) (newKey : Buffer)
    (version : Z) :
  length newKey = 16%nat ->
  length (spec_changeKeyEV2_plain keyNo newKey version) = 21%nat
  /\ length (spec_pad16 (spec_changeKeyEV2_plain keyNo newKey version))
     = 32%nat.
Proof.
  intros Hk.
  assert (H21 : length (spec_changeKeyEV2_plain keyNo newKey version) = 21%nat).
  { unfold spec_changeKeyEV2_plain.
    rewrite !length_app, length_crc32Buffer, Hk. reflexivity. }
  split; [exact H21|].
  unfold spec_pad16. rewrite H21.
  change (21 mod 16 =? 0)%nat with false. cbv iota.
  rewrite padData_16_shape, length_app, H21. reflexivity.
Qed.

(** C3 on the code: in an authenticated session holding a session
    encryption key, [changeKeyEV2] with a 16-byte key hands the unpadded
    21-byte plaintext to the cipher, which rejects it; the method throws
    and transmits nothing. *)
Theorem changeKeyEV2_throws_before_transmit `{NodeCrypto} (c : Card)
    (keyNo : Z) (newKey : Buffer) (newKeyVersion : Z) (ref : nat) :
  authenticated (auth c) = true ->
  sessionKeyEnc (auth c) = Some ref ->
  length newKey = 16%nat ->
  changeKeyEV2 keyNo newKey newKeyVersion c = (Throw CipherError, c).
Proof.
  intros Ha Hr Hk. unfold changeKeyEV2, bind at 1, gets. rewrite Ha.
  unfold bind at 1. rewrite Hr. rewrite Hk. cbn [Nat.eqb negb].
  unfold bind at 1, readBuffer, gets. unfold bind at 1, lift.
  unfold aesEncrypt, cipheriv.
  rewrite !length_app, length_crc32Buffer, Hk. cbn [length Nat.add].
  change (21 mod 16 =? 0)%nat with false.
  rewrite andb_false_r. reflexivity.
Qed.

Lemma changeKeyEV2_throws_before_transmit_witness :
  authenticated (auth cardReadyForKeyChange) = true
  /\ sessionKeyEnc (auth cardReadyForKeyChange) = Some 0%nat
  /\ @changeKeyEV2 toyCrypto 0 K0 1 cardReadyForKeyChange
     = (Throw CipherError, cardReadyForKeyChange).
Proof.
  split; [vm_compute; reflexivity|]. split; [vm_compute; reflexivity|].
  apply (@changeKeyEV2_throws_before_transmit toyCrypto
           cardReadyForKeyChange 0 K0 1 0%nat);
    vm_compute; reflexivity.
Defined.

(** ** Legacy authentication and its key argument *)

Instance log_grows_preorder : PreOrder log_grows.
Proof.
  split.
  - intros c. unfold log_grows. reflexivity.
  - intros a b c Hab Hbc. unfold log_grows in *. etransitivity; eassumption.
Qed.

Lemma log_grows_transmit (apdu : Buffer) : preserves log_grows (transmit apdu).
Proof.
  intros c. unfold transmit, log_grows.
  destruct (tx_tape (reader c)) as [|[r|] t]; cbn;
    apply prefix_app_r; reflexivity.
Qed.

Lemma log_grows_escape (apdu : Buffer) :
  preserves log_grows (transmitViaAcr122U apdu).
Proof.
  intros c. unfold transmitViaAcr122U, log_grows.
  destruct (esc_tape (reader c)) as [|[r|] t]; cbn; reflexivity.
Qed.

Lemma log_grows_prefer (b : bool) (c : Card) :
  log_grows c (set_preferNoLe b c).
Proof. unfold log_grows. reflexivity. Qed.

Lemma log_grows_tryTransmitAttempts (attempts : list (Buffer * bool)) :
  preserves log_grows (tryTransmitAttempts attempts).
Proof.
  apply preserves_tryTransmitAttempts;
    [apply _ | apply log_grows_transmit | apply log_grows_escape
     | apply log_grows_prefer].
Qed.

Lemma bind_after {A B} (R : Card -> Card -> Prop) `{!PreOrder R}
    (m : M A) (k : A -> M B) (c : Card) :
  (forall a, preserves R (k a)) -> R (m c).2 (bind m k c).2.
Proof.
  intros Hk. unfold bind.
  destruct (m c) as [[a|e] c1]; [apply Hk | reflexivity].
Qed.

(** Whatever the reader answers, [sendCommand] begins by transmitting
    the command in the preferred Le form. *)
Lemma sendCommand_transmits_first (cmd : Z) (data_ : option Buffer)
    (c : Card) :
  exists more,
    tx_log (reader (sendCommand cmd data_ c).2)
    = tx_log (reader c) ++ encodeCommand cmd data_ (negb (preferNoLe c)) :: more.
Proof.
  assert (Hgoal : log_grows
            (attempt (transmit
                        (encodeCommand cmd data_ (negb (preferNoLe c)))) c).2
            (sendCommand cmd data_ c).2).
  { unfold sendCommand. unfold bind at 1, gets.
    match goal with
    | |- log_grows _ (bind (tryTransmitAttempts ?L) ?K c).2 =>
        transitivity ((tryTransmitAttempts L c).2);
        [| apply (bind_after log_grows) ]
    end.
    - unfold commandAttempts, attemptsInOrder.
      destruct (preferNoLe c);
        apply (tryTransmitAttempts_after_first log_grows);
        first [ apply log_grows_transmit | apply log_grows_escape
              | apply log_grows_prefer ].
    - intros parsed.
      repeat first
        [ apply (preserves_throw log_grows)
        | apply (preserves_ret log_grows)
        | apply (preserves_getAdditionalFrame log_grows);
          first [ apply log_grows_transmit | apply log_grows_escape
                | apply log_grows_prefer ]
        | match goal with
          | |- preserves _ (if ?b then _ else _) => destruct b
          end
        | apply (preserves_bind log_grows); [|intros ?] ]. }
  unfold log_grows in Hgoal.
  assert (Hlog : tx_log (reader (attempt (transmit
                   (encodeCommand cmd data_ (negb (preferNoLe c)))) c).2)
                 = tx_log (reader c)
                   ++ [encodeCommand cmd data_ (negb (preferNoLe c))]).
  { unfold attempt, transmit.
    destruct (tx_tape (reader c)) as [|[r|] t]; reflexivity. }
  rewrite Hlog in Hgoal. destruct Hgoal as [more Hmore].
  exists more. rewrite Hmore, <- app_assoc. reflexivity.
Qed.

Section LegacyAuthentication.
Context `{NodeCrypto}.

Lemma authenticateDES_transmits_first (keyNo : Z) (key : option Buffer)
    (c : Card) :
  exists more,
    tx_log (reader (authenticateDES keyNo key c).2)
    = tx_log (reader c) ++ desAuthApdu (preferNoLe c) keyNo :: more.
Proof.
  assert (Hgoal : log_grows
            (attempt (transmit (desAuthApdu (preferNoLe c) keyNo)) c).2
            (authenticateDES keyNo key c).2).
  { unfold authenticateDES. cbv zeta. unfold bind at 1, gets.
    match goal with
    | |- log_grows _ (bind (tryTransmitAttempts ?L) ?K c).2 =>
        transitivity ((tryTransmitAttempts L c).2);
        [| apply (bind_after log_grows) ]
    end.
    - unfold attemptsInOrder, desAuthApdu.
      destruct (preferNoLe c);
        apply (tryTransmitAttempts_after_first log_grows);
        first [ apply log_grows_transmit | apply log_grows_escape
              | apply log_grows_prefer ].
    - intros resp1.
      repeat first
        [ apply (preserves_throw log_grows)
        | apply (preserves_lift log_grows)
        | apply (preserves_gets log_grows)
        | apply log_grows_tryTransmitAttempts
        | intros ?; unfold log_grows; reflexivity
        | match goal with
          | |- preserves _ (if ?b then _ else _) => destruct b
          end
        | apply (preserves_bind log_grows); [|intros ?] ]. }
  unfold log_grows in Hgoal.
  assert (Hlog : tx_log (reader (attempt (transmit
                   (desAuthApdu (preferNoLe c) keyNo)) c).2)
                 = tx_log (reader c) ++ [desAuthApdu (preferNoLe c) keyNo]).
  { unfold attempt, transmit.
    destruct (tx_tape (reader c)) as [|[r|] t]; reflexivity. }
  rewrite Hlog in Hgoal. destruct Hgoal as [more Hmore].
  exists more. rewrite Hmore, <- app_assoc. reflexivity.
Qed.

(** A 16- or 24-byte key is used as supplied. *)
Lemma desAuthKey_supplied (key : Buffer) :
  length key = 16%nat \/ length key = 24%nat -> desAuthKey (Some key) = key.
Proof. intros [E|E]; unfold desAuthKey; rewrite E; reflexivity. Qed.

(** A key argument whose length is neither 16 nor 24 behaves, on every
    card object and reader, exactly as no key argument and as the
    factory default key, and AUTHENTICATE is transmitted. *)
Lemma authenticateDES_bad_key_is_no_key (keyNo : Z) (key : Buffer) (c : Card) :
  length key <> 16%nat -> length key <> 24%nat ->
  authenticateDES keyNo (Some key) c = authenticateDES keyNo None c
  /\ authenticateDES keyNo (Some key) c
     = authenticateDES keyNo (Some (alloc 16 0x00)) c
  /\ exists more,
       tx_log (reader (authenticateDES keyNo (Some key) c).2)
       = tx_log (reader c) ++ desAuthApdu (preferNoLe c) keyNo :: more.
Proof.
  intros H16 H24.
  assert (Hk : desAuthKey (Some key) = alloc 16 0x00).
  { unfold desAuthKey.
    destruct (Nat.eqb_spec (length key) 16); [contradiction|].
    destruct (Nat.eqb_spec (length key) 24); [contradiction|]. reflexivity. }
  split; [unfold authenticateDES; rewrite Hk; reflexivity|].
  split; [unfold authenticateDES; rewrite Hk; reflexivity|].
  apply authenticateDES_transmits_first.
Qed.

(** C9: the key [authenticateDES] runs the handshake under is the
    supplied key when that is 16 or 24 bytes long and sixteen zero bytes
    otherwise, also for a key argument of any other length, which is not
    rejected.  When the card answers both steps with an accepted status
    and at least eight bytes, and the cipher under that key takes the
    three inputs, the method decrypts RndB under that key, sends
    AUTHENTICATE and then the challenge RndA || RndB' encrypted under
    that key, and returns exactly when the card's second answer decrypts
    under that key to RndA rotated by one byte.  On every card object
    and reader a key argument of another length behaves as no key
    argument and as the factory default key, and AUTHENTICATE is
    transmitted. *)
Theorem authenticateDES_substitutes_default_key (keyNo : Z)
    (key : option Buffer) (c : Card) (encRndB encRndAPrime : Buffer)
    (s1 s2 t1 t2 : Z) (rest : list (option Buffer))
    (rndB encChallenge rndAPrime : Buffer) :
  let used :=
    match key with
    | Some k =>
        if (length k =? 16)%nat || (length k =? 24)%nat then k
        else alloc 16 0x00
    | None => alloc 16 0x00
    end in
  let rndA := map (fun i => u8 (entropy c (entropy_pos c + i)%nat)) (seq 0 8) in
  tx_tape (reader c)
  = Some (frame encRndB s1 s2) :: Some (frame encRndAPrime t1 t2) :: rest ->
  accepted (mkParsed s1 s2 encRndB) = true ->
  accepted (mkParsed t1 t2 encRndAPrime) = true ->
  (8 <= length encRndB)%nat ->
  (8 <= length encRndAPrime)%nat ->
  des3Decrypt (slice encRndB 0 8) used (alloc 8 0x00) = Ok rndB ->
  des3Encrypt (rndA ++ CryptoUtils.rotateLeft rndB 1) used
              (slice_last encRndB 8) = Ok encChallenge ->
  des3Decrypt (slice encRndAPrime 0 8) used (slice_last encChallenge 8)
  = Ok rndAPrime ->
  let verified := bool_decide (rndAPrime = CryptoUtils.rotateLeft rndA 1) in
  let out := authenticateDES keyNo key c in
  out.1 = (if verified then Ok tt else Throw DesRndAVerificationFailed)
  /\ tx_log (reader out.2)
     = tx_log (reader c)
       ++ [desAuthApdu (preferNoLe c) keyNo;
           [0x90; 0xAF; 0x00; 0x00; u8 (Z.of_nat (length encChallenge))]
           ++ encChallenge ++ (if preferNoLe c then [] else [0x00])]
  /\ authenticated (auth out.2)
     = (if verified then true else authenticated (auth c))
  /\ authenticatedKeyNo (auth out.2)
     = (if verified then Some keyNo else authenticatedKeyNo (auth c))
  /\ (forall (c0 : Card) (other : Buffer),
        length other <> 16%nat -> length other <> 24%nat ->
        authenticateDES keyNo (Some other) c0 = authenticateDES keyNo None c0
        /\ authenticateDES keyNo (Some other) c0
           = authenticateDES keyNo (Some (alloc 16 0x00)) c0
        /\ exists more,
             tx_log (reader (authenticateDES keyNo (Some other) c0).2)
             = tx_log (reader c0) ++ desAuthApdu (preferNoLe c0) keyNo :: more).
Proof.
  intros used rndA E A1 A2 L1 L2 D1 EC D2 verified out.
  assert (Hacc : forall a b x,
             accepted (mkParsed a b x) = true ->
             negb (APDU.isAdditionalFrame a b) && negb (APDU.isSuccess a b)
             = false
             /\ negb (APDU.isSuccess a b) && negb (APDU.isAdditionalFrame a b)
                = false).
  { intros a b x Hx. unfold accepted in Hx. cbn [sw1 sw2] in Hx.
    destruct (APDU.isSuccess a b), (APDU.isAdditionalFrame a b);
      try (split; reflexivity); discriminate. }
  assert (Hrun : authenticateDES keyNo key c
    = (if verified then Ok tt else Throw DesRndAVerificationFailed,
       (if verified
        then fun c1 => set_authenticatedKeyNo (Some keyNo)
                         (set_authenticated true c1)
        else fun c1 => c1)
         (set_entropy_pos (entropy_pos c + 8)
            (after_tx
               [desAuthApdu (preferNoLe c) keyNo;
                [0x90; 0xAF; 0x00; 0x00; u8 (Z.of_nat (length encChallenge))]
                ++ encChallenge ++ (if preferNoLe c then [] else [0x00])]
               rest c)))).
  { unfold authenticateDES.
    change (desAuthKey key) with used. cbv zeta.
    unfold bind at 1, gets. unfold bind at 1.
    unfold tryTransmitAttempts, attemptsInOrder.
    destruct (preferNoLe c) eqn:P;
      rewrite (tryTransmitAttempts_step _ _ _ _ _ _ _ _ _ E);
      rewrite A1; cbv iota; cbn [sw1 sw2 data negb];
      rewrite (proj1 (Hacc _ _ _ A1));
      rewrite (proj2 (Nat.ltb_ge _ _) L1);
      unfold bind at 1, lift; rewrite D1;
      unfold bind at 1, generateRandom;
      cbn [entropy entropy_pos set_preferNoLe consume set_reader];
      fold rndA;
      unfold bind at 1, lift; rewrite EC;
      unfold bind at 1, gets; cbn [preferNoLe set_entropy_pos];
      match goal with
      | |- context [preferNoLe (set_preferNoLe ?b ?x)] =>
          change (preferNoLe (set_preferNoLe b x)) with b
      end;
      cbv iota; unfold bind at 1;
      (erewrite tryTransmitAttempts_step
         by (unfold set_entropy_pos, set_preferNoLe, consume, set_reader;
             cbn [reader tx_tape]; rewrite E; reflexivity));
      rewrite A2; cbv iota; cbn [sw1 sw2 data negb];
      rewrite (proj2 (Hacc _ _ _ A2));
      rewrite (proj2 (Nat.ltb_ge _ _) L2);
      unfold bind at 1, lift; rewrite D2;
      fold verified; destruct verified; cbn [negb];
      unfold throw, bind, modify, after_tx, set_reader, consume,
        set_preferNoLe, set_entropy_pos, set_authenticated,
        set_authenticatedKeyNo, desAuthApdu, APDU.build;
      cbn; rewrite ?E, ?P; cbn; rewrite <- ?app_assoc, ?app_nil_r;
      reflexivity. }
  subst out. rewrite Hrun. cbn [fst snd].
  split; [reflexivity|].
  split; [destruct verified; reflexivity|].
  split; [destruct verified; reflexivity|].
  split; [destruct verified; reflexivity|].
  intros c0 other. apply authenticateDES_bad_key_is_no_key.
Qed.

End LegacyAuthentication.

(** ** Worked examples *)

Lemma sendCommand_reassembles_witness :
  let c := freshCard [Some (frame hwBlock 0x91 0xAF);
                      Some (frame swBlock 0x91 0xAF);
                      Some (frame uidBlock 0x91 0x00)] in
  sendCommand DesfireCommand.GET_VERSION None c
  = (Ok (hwBlock ++ swBlock ++ uidBlock),
     after_tx [[0x90; 0x60; 0x00; 0x00]; [0x90; 0xAF; 0x00; 0x00];
               [0x90; 0xAF; 0x00; 0x00]] [] c).
Proof.
  exact (sendCommand_reassembles
           (freshCard [Some (frame hwBlock 0x91 0xAF);
                       Some (frame swBlock 0x91 0xAF);
                       Some (frame uidBlock 0x91 0x00)])
           DesfireCommand.GET_VERSION None hwBlock [swBlock] uidBlock []
           eq_refl).
Defined.

Lemma le_negotiation_witness :
  let c := freshCard [Some [0x91; 0x7E]; Some [0x91; 0x00]] in
  let out := tryTransmitAttempts (commandAttempts true 0x60 None) c in
  out.1 = Ok (mkParsed 0x91 0x00 [])
  /\ tx_log (reader out.2)
     = [[0x90; 0x60; 0x00; 0x00]; [0x90; 0x60; 0x00; 0x00; 0x00]]
  /\ preferNoLe out.2 = false.
Proof.
  exact (le_negotiation (freshCard [Some [0x91; 0x7E]; Some [0x91; 0x00]])
           0x60 None [] [] 0x91 0x7E 0x91 0x00 [] eq_refl).
Defined.

(** Scenario "Le-negotiation recovery" end to end: the command
    90 60 00 00 is answered 91 7E, re-sent as 90 60 00 00 00 and
    accepted; the next command goes out with Le straight away and the
    preference is still false after it. *)
Example le_recovery_scenario :
  let c := freshCard [Some [0x91; 0x7E]; Some (frame hwBlock 0x91 0x00);
                      Some (frame [] 0x91 0x00)] in
  let out1 := sendCommand DesfireCommand.GET_VERSION None c in
  let out2 := sendCommand DesfireCommand.GET_APPLICATION_IDS None out1.2 in
  preferNoLe c = true
  /\ out1.1 = Ok hwBlock /\ preferNoLe out1.2 = false
  /\ out2.1 = Ok [] /\ preferNoLe out2.2 = false
  /\ tx_log (reader out2.2)
     = [[0x90; 0x60; 0x00; 0x00]; [0x90; 0x60; 0x00; 0x00; 0x00];
        [0x90; 0x6A; 0x00; 0x00; 0x00]].
Proof. vm_compute. repeat split. Qed.

Lemma truncated_reassembly_is_silent_witness :
  let answers d s1 s2 := [Some (frame [1; 2; 3] 0x91 0xAF);
                          Some (frame [4; 5] 0x91 0xAF);
                          Some (frame d s1 s2)] in
  let sent := [[0x90; 0xBD; 0x00; 0x00]; [0x90; 0xAF; 0x00; 0x00];
               [0x90; 0xAF; 0x00; 0x00]] in
  sendCommand DesfireCommand.READ_DATA None (freshCard (answers [] 0x91 0xAE))
  = (Ok [1; 2; 3; 4; 5],
     after_tx sent [] (freshCard (answers [] 0x91 0xAE)))
  /\ sendCommand DesfireCommand.READ_DATA None
       (with_tape (answers [] 0x91 0x00) (freshCard (answers [] 0x91 0xAE)))
     = (Ok [1; 2; 3; 4; 5],
        after_tx sent [] (freshCard (answers [] 0x91 0xAE))).
Proof.
  exact (truncated_reassembly_is_silent
           (freshCard [Some (frame [1; 2; 3] 0x91 0xAF);
                       Some (frame [4; 5] 0x91 0xAF);
                       Some (frame [] 0x91 0xAE)])
           DesfireCommand.READ_DATA None [1; 2; 3] [[4; 5]] [] []
           0x91 0xAE 0x91 0xAE [] eq_refl eq_refl eq_refl).
Defined.

Lemma writeData_chunking_witness :
  let c := freshCard (map answerOf fourAccepting) in
  let chunks := take 40 data130 :: chunksOf 40 (drop 40 data130) in
  writeData 1 0 data130 c
  = (Ok tt,
     after_tx (leadFrame 1 0 data130
               :: map afDataFrame (chunksOf 40 (drop 40 data130))) [] c)
  /\ concat chunks = data130
  /\ Forall (fun ch : Buffer => (length ch <= 40)%nat) chunks
  /\ (length data130 = 130%nat -> map length chunks = [40; 40; 40; 10]%nat).
Proof.
  apply (writeData_chunking (freshCard (map answerOf fourAccepting)) 1 0
           data130 fourAccepting []).
  - lia.
  - vm_compute. reflexivity.
  - repeat constructor.
  - vm_compute. reflexivity.
  - vm_compute. reflexivity.
Defined.

(** Scenario "Chunked write" on the wire: header 01 | 00 00 00 | 82 00 00,
    Lc = 47 in the lead frame, then 40, 40 and 10 bytes. *)
Example chunked_write_scenario :
  let out := writeData 1 0 data130 (freshCard (map answerOf fourAccepting)) in
  out.1 = Ok tt
  /\ map (take 12) (tx_log (reader out.2))
     = [[0x90; 0x3D; 0x00; 0x00; 47; 0x01; 0x00; 0x00; 0x00; 0x82; 0x00; 0x00];
        [0x90; 0xAF; 0x00; 0x00; 40; 40; 41; 42; 43; 44; 45; 46];
        [0x90; 0xAF; 0x00; 0x00; 40; 80; 81; 82; 83; 84; 85; 86];
        [0x90; 0xAF; 0x00; 0x00; 10; 120; 121; 122; 123; 124; 125; 126]]
  /\ map length (tx_log (reader out.2)) = [53; 46; 46; 16]%nat.
Proof. vm_compute. repeat split. Qed.

Lemma authenticateDES_substitutes_default_key_witness :
  let c := freshCard desHandshakeAnswers in
  let challenge := [0; 1; 2; 3; 4; 5; 6; 7;
                    0xB2; 0xB3; 0xB4; 0xB5; 0xB6; 0xB7; 0xB8; 0xB1] in
  let out := @authenticateDES toyCrypto 0 (Some [1; 2; 3]) c in
  out.1 = Ok tt
  /\ tx_log (reader out.2)
     = tx_log (reader c)
       ++ [desAuthApdu (preferNoLe c) 0;
           [0x90; 0xAF; 0x00; 0x00; u8 (Z.of_nat (length challenge))]
           ++ challenge ++ (if preferNoLe c then [] else [0x00])]
  /\ authenticated (auth out.2) = true
  /\ authenticatedKeyNo (auth out.2) = Some 0
  /\ (forall (c0 : Card) (other : Buffer),
        length other <> 16%nat -> length other <> 24%nat ->
        @authenticateDES toyCrypto 0 (Some other) c0
        = @authenticateDES toyCrypto 0 None c0
        /\ @authenticateDES toyCrypto 0 (Some other) c0
           = @authenticateDES toyCrypto 0 (Some (alloc 16 0x00)) c0
        /\ exists more,
             tx_log (reader (@authenticateDES toyCrypto 0 (Some other) c0).2)
             = tx_log (reader c0) ++ desAuthApdu (preferNoLe c0) 0 :: more).
Proof.
  apply (@authenticateDES_substitutes_default_key toyCrypto 0 (Some [1; 2; 3])
           (freshCard desHandshakeAnswers) encRndB_example
           [1; 2; 3; 4; 5; 6; 7; 0] 0x91 0xAF 0x91 0x00 []
           encRndB_example
           [0; 1; 2; 3; 4; 5; 6; 7;
            0xB2; 0xB3; 0xB4; 0xB5; 0xB6; 0xB7; 0xB8; 0xB1]
           [1; 2; 3; 4; 5; 6; 7; 0]);
    first [reflexivity | cbn; lia].
Defined.

(** With a three-byte key the handshake runs, and succeeds against a
    card holding the all-zero key. *)
Example authenticateDES_short_key_scenario :
  let out := @authenticateDES toyCrypto 0 (Some [1; 2; 3])
               (freshCard desHandshakeAnswers) in
  out.1 = Ok tt
  /\ authenticated (auth out.2) = true
  /\ map (take 6) (tx_log (reader out.2))
     = [[0x90; 0x0A; 0x00; 0x00; 0x01; 0x00];
        [0x90; 0xAF; 0x00; 0x00; 0x10; 0x00]].
Proof. vm_compute. repeat split. Qed.

(** ** Fuel is never exhausted *)

Lemma parse_throws (r : Buffer) (e : Error) :
  APDU.parse r = Throw e -> e = InvalidApduResponse.
Proof. unfold APDU.parse. destruct (_ <? _)%nat; congruence. Qed.

Lemma has2_false_parse (r : option Buffer) :
  has2 r = false -> APDU.parse (default [] r) = Throw InvalidApduResponse.
Proof.
  unfold has2, APDU.parse. destruct r as [b|].
  - intros Hb. apply Nat.leb_gt in Hb.
    change (default [] (Some b)) with b.
    destruct (Nat.ltb_spec (length b) 2); [reflexivity | lia].
  - reflexivity.
Qed.

Lemma has2_true_some (r : option Buffer) : has2 r = true -> r <> None.
Proof. destruct r; [discriminate | discriminate]. Qed.

Lemma attempt_transmit_outcome (apdu : Buffer) (c : Card) :
  exists o c1,
    attempt (transmit apdu) c = (Ok o, c1)
    /\ (pending c1 <= pending c)%nat
    /\ (o <> None -> (pending c1 < pending c)%nat).
Proof.
  unfold attempt, transmit, pending.
  destruct (tx_tape (reader c)) as [|[r|] t] eqn:E; eexists _, _;
    (split; [reflexivity|]); cbn; rewrite ?E; cbn;
    (split; [lia | intros; try congruence; lia]).
Qed.

Lemma attempt_escape_outcome (apdu : Buffer) (c : Card) :
  exists o c1,
    attempt (transmitViaAcr122U apdu) c = (Ok o, c1)
    /\ (pending c1 <= pending c)%nat
    /\ (o <> None -> (pending c1 < pending c)%nat).
Proof.
  unfold attempt, transmitViaAcr122U, pending.
  destruct (esc_tape (reader c)) as [|[r|] t] eqn:E; eexists _, _;
    (split; [reflexivity|]); cbn; rewrite ?E; cbn;
    (split; [lia | intros; try congruence; lia]).
Qed.

(** [transmitParsed] returns only after the reader has given an answer,
    and throws nothing but the parser's error. *)
Lemma transmitParsed_outcome (apdu : Buffer) (c : Card) :
  match transmitParsed apdu c with
  | (Ok _, c') => (pending c' < pending c)%nat
  | (Throw e, c') => e = InvalidApduResponse /\ (pending c' <= pending c)%nat
  end.
Proof.
  unfold transmitParsed. unfold bind at 1.
  destruct (attempt_transmit_outcome apdu c) as (o1 & c1 & -> & Hle1 & Hlt1).
  unfold bind at 1.
  assert (Hresp : exists resp c2,
             match o1 with
             | Some r => ret (Some r)
             | None => attempt (transmit apdu)
             end c1 = (Ok resp, c2)
             /\ (pending c2 <= pending c)%nat
             /\ (resp <> None -> (pending c2 < pending c)%nat)).
  { destruct o1 as [r|].
    - exists (Some r), c1. split; [reflexivity|]. split; [lia|].
      intros _. apply Hlt1. discriminate.
    - destruct (attempt_transmit_outcome apdu c1) as (o2 & c2 & -> & ? & ?).
      exists o2, c2. split; [reflexivity|]. split; [lia|]. intros ?.
      assert (pending c2 < pending c1)%nat by auto. lia. }
  destruct Hresp as (resp & c2 & -> & Hle2 & Hlt2).
  destruct (has2 resp) eqn:H2.
  { unfold lift. destruct (APDU.parse _) eqn:P.
    - apply Hlt2, has2_true_some, H2.
    - split; [eapply parse_throws; eassumption | lia]. }
  unfold bind at 1, gets. unfold bind at 1.
  assert (Hesc : exists esc c3,
             (if acr122u (reader c2) then attempt (transmitViaAcr122U apdu)
              else ret None) c2 = (Ok esc, c3)
             /\ (pending c3 <= pending c2)%nat
             /\ (esc <> None -> (pending c3 < pending c2)%nat)).
  { destruct (acr122u (reader c2)).
    - apply attempt_escape_outcome.
    - exists None, c2. split; [reflexivity|]. split; [lia | congruence]. }
  destruct Hesc as (esc & c3 & -> & Hle3 & Hlt3).
  destruct (has2 esc) eqn:H3.
  { unfold lift. destruct (APDU.parse _) eqn:P.
    - assert (pending c3 < pending c2)%nat
        by (apply Hlt3, has2_true_some, H3). lia.
    - split; [eapply parse_throws; eassumption | lia]. }
  unfold bind at 1.
  assert (Hrx : exists rx c4,
             match toggleLe apdu with
             | Some toggled => attempt (transmit toggled)
             | None => ret None
             end c3 = (Ok rx, c4)
             /\ (pending c4 <= pending c3)%nat
             /\ (rx <> None -> (pending c4 < pending c3)%nat)).
  { destruct (toggleLe apdu).
    - apply attempt_transmit_outcome.
    - exists None, c3. split; [reflexivity|]. split; [lia | congruence]. }
  destruct Hrx as (rx & c4 & -> & Hle4 & Hlt4).
  destruct (has2 rx) eqn:H4.
  { unfold lift. destruct (APDU.parse _) eqn:P.
    - assert (pending c4 < pending c3)%nat
        by (apply Hlt4, has2_true_some, H4). lia.
    - split; [eapply parse_throws; eassumption | lia]. }
  unfold lift. rewrite (has2_false_parse _ H2). split; [reflexivity | lia].
Qed.

Lemma tryTransmitAttempts_from_outcome (attempts : list (Buffer * bool)) :
  forall (last : option Parsed) (c : Card),
    match tryTransmitAttempts_from last attempts c with
    | (Ok _, c') =>
        (pending c' <= pending c)%nat
        /\ (attempts <> [] -> (pending c' < pending c)%nat)
    | (Throw e, c') => e <> OutOfFuel
    end.
Proof.
  induction attempts as [|[apdu usesLe] rest IH]; intros last c.
  - cbn. destruct last; cbn; [split; [lia | congruence] | discriminate].
  - cbn [tryTransmitAttempts_from]. unfold bind at 1.
    pose proof (transmitParsed_outcome apdu c) as Ht.
    destruct (transmitParsed apdu c) as [[parsed|e] c1].
    + destruct (accepted parsed).
      { unfold bind, modify, ret.
        change (pending (set_preferNoLe (negb usesLe) c1)) with (pending c1).
        split; intros; lia. }
      destruct (negb (isLengthError parsed)).
      { unfold ret. split; intros; lia. }
      specialize (IH (Some parsed) c1).
      destruct (tryTransmitAttempts_from _ rest c1) as [[p|e] c2];
        [|exact IH].
      destruct IH as [IH _]. split; intros; lia.
    + destruct Ht as [-> _]. discriminate.
Qed.

(** With more fuel than pending answers, [getAdditionalFrame_fuel] never
    stops for lack of fuel. *)
Lemma getAdditionalFrame_fuel_enough (fuel : nat) :
  forall (c c' : Card),
    (pending c < fuel)%nat ->
    getAdditionalFrame_fuel fuel c <> (Throw OutOfFuel, c').
Proof.
  induction fuel as [|fuel IH]; intros c c' Hf; [lia|].
  cbn [getAdditionalFrame_fuel]. unfold bind at 1, gets. unfold bind at 1.
  unfold tryTransmitAttempts.
  pose proof (tryTransmitAttempts_from_outcome
                (attemptsInOrder (preferNoLe c)
                   [0x90; DesfireCommand.ADDITIONAL_FRAME; 0x00; 0x00]
                   [0x90; DesfireCommand.ADDITIONAL_FRAME; 0x00; 0x00; 0x00])
                None c) as Ht.
  destruct (tryTransmitAttempts_from _ _ c) as [[parsed|e] c1].
  - destruct Ht as [_ Ht].
    assert (pending c1 < pending c)%nat.
    { apply Ht. unfold attemptsInOrder. destruct (preferNoLe c); discriminate. }
    destruct (APDU.isAdditionalFrame _ _); [|discriminate].
    unfold bind. specialize (IH c1).
    destruct (getAdditionalFrame_fuel fuel c1) as [[more|e] c2];
      [discriminate|].
    intros E. injection E as -> ->. apply (IH c'); [lia | reflexivity].
  - congruence.
Qed.

Theorem getAdditionalFrame_total (c c' : Card) :
  getAdditionalFrame c <> (Throw OutOfFuel, c').
Proof. apply getAdditionalFrame_fuel_enough. lia. Qed.

(** [length data - sent] rounds of fuel are enough for the loop of
    [writeData]. *)
Lemma writeData_loop_fuel_enough (data_ : Buffer) (fuel : nat) :
  forall (sent : nat) (c c' : Card),
    (length data_ - sent <= fuel)%nat ->
    writeData_loop fuel data_ sent c <> (Throw OutOfFuel, c').
Proof.
  induction fuel as [|fuel IH]; intros sent c c' Hf.
  - cbn [writeData_loop].
    destruct (Nat.ltb_spec sent (length data_)); [lia | discriminate].
  - cbn [writeData_loop].
    destruct (Nat.ltb_spec sent (length data_)) as [Hlt|]; [|discriminate].
    unfold bind at 1.
    match goal with
    | |- context [transmitParsed ?a c] =>
        pose proof (transmitParsed_outcome a c) as Ht;
        destruct (transmitParsed a c) as [[first|e] c1]
    end; [|destruct Ht as [-> _]; discriminate].
    unfold bind at 1.
    assert (Hsecond : forall r c2,
               (if isLengthError first then
                  transmitParsed
                    (APDU.build 0x90 DesfireCommand.ADDITIONAL_FRAME 0x00 0x00
                       (Some (slice data_ sent
                          (sent + Nat.min (length data_ - sent) MAX_CHUNK)))
                       None)
                else ret first) c1 = (r, c2) -> r <> Throw OutOfFuel).
    { intros r c2. destruct (isLengthError first).
      - match goal with
        | |- transmitParsed ?a c1 = _ -> _ =>
            pose proof (transmitParsed_outcome a c1) as Ht2;
            destruct (transmitParsed a c1) as [[p|e] c3]
        end; intros E; injection E as <- <-; [discriminate|].
        destruct Ht2 as [-> _]. discriminate.
      - intros E. injection E as <- <-. discriminate. }
    match goal with
    | |- context [(if isLengthError first then ?a else ?b) c1] =>
        specialize (Hsecond (((if isLengthError first then a else b) c1).1)
                            (((if isLengthError first then a else b) c1).2));
        destruct ((if isLengthError first then a else b) c1) as [[parsed|e] c2]
    end.
    + destruct (negb (accepted parsed)); [discriminate|].
      apply IH. unfold slice. rewrite length_take, length_drop.
      unfold MAX_CHUNK. lia.
    + intros E. injection E as -> ->. apply Hsecond; reflexivity.
Qed.

Theorem writeData_total (fileNo offset : Z) (data_ : Buffer) (c c' : Card) :
  writeData fileNo offset data_ c <> (Throw OutOfFuel, c').
Proof.
  unfold writeData. unfold bind at 1, lift.
  destruct (writeUIntLE3 offset) as [ob|e] eqn:Eo;
    [|unfold writeUIntLE3 in Eo; destruct (_ && _); congruence].
  unfold bind at 1.
  destruct (writeUIntLE3 (Z.of_nat (length data_))) as [lb|e] eqn:El;
    [|unfold writeUIntLE3 in El; destruct (_ && _); congruence].
  unfold bind at 1.
  match goal with
  | |- context [transmitParsed ?a c] =>
      pose proof (transmitParsed_outcome a c) as Ht;
      destruct (transmitParsed a c) as [[parsed|e] c1]
  end; [|destruct Ht as [-> _]; discriminate].
  destruct (negb (accepted parsed)); [discriminate|].
  apply writeData_loop_fuel_enough. lia.
Qed.

(** * Further properties *)

(** ** crypto.ts: rotation *)

Lemma length_rotateLeft (b : Buffer) (k : nat) :
  length (CryptoUtils.rotateLeft b k) = length b.
Proof. unfold CryptoUtils.rotateLeft. rewrite length_map, length_seq. reflexivity. Qed.

Lemma lookup_rotateLeft (b : Buffer) (k i : nat) :
  (i < length b)%nat ->
  CryptoUtils.rotateLeft b k !! i = b !! ((i + k) mod length b)%nat.
Proof.
  intros Hi. unfold CryptoUtils.rotateLeft.
  rewrite list_lookup_fmap, lookup_seq_lt by lia. cbn.
  assert (Hm : ((i + k) mod length b < length b)%nat)
    by (apply Nat.mod_upper_bound; lia).
  destruct (lookup_lt_is_Some_2 b _ Hm) as [x Hx]. rewrite Hx. reflexivity.
Qed.

(** X1: rotating by one byte moves the first byte to the end. *)
Theorem rotateLeft_one (b : Z) (bs : Buffer) :
  CryptoUtils.rotateLeft (b :: bs) 1 = bs ++ [b].
Proof.
  apply list_eq. intros i.
  destruct (Nat.lt_ge_cases i (length (b :: bs))) as [Hi|Hi].
  - rewrite lookup_rotateLeft by exact Hi. cbn [length] in *.
    destruct (Nat.eq_dec i (length bs)) as [->|Hne].
    + replace (length bs + 1)%nat with (S (length bs)) by lia.
      rewrite Nat.Div0.mod_same. rewrite lookup_app_r by lia.
      rewrite Nat.sub_diag. reflexivity.
    + rewrite Nat.mod_small by lia. rewrite lookup_app_l by lia.
      replace (i + 1)%nat with (S i) by lia. reflexivity.
  - rewrite !lookup_ge_None_2; [reflexivity | |].
    + rewrite length_app. cbn [length] in *. lia.
    + rewrite length_rotateLeft. exact Hi.
Qed.

(** X2: for counts that the source adds exactly (twice the length plus
    both counts is at most 2^53), rotations compose by adding the byte
    counts, keep the length, and a rotation by the buffer's own length
    changes nothing; so [n] rotations by one byte are a rotation by
    [n]. *)
Theorem rotateLeft_compose (x : Buffer) (a b : nat) :
  Z.of_nat (2 * length x + a + b) <= 2 ^ 53 ->
  CryptoUtils.rotateLeft (CryptoUtils.rotateLeft x a) b
  = CryptoUtils.rotateLeft x (a + b)
  /\ length (CryptoUtils.rotateLeft x a) = length x
  /\ CryptoUtils.rotateLeft x (length x) = x
  /\ Nat.iter a (fun y => CryptoUtils.rotateLeft y 1) x
     = CryptoUtils.rotateLeft x a.
Proof.
  intros _.
  assert (Hcomp : forall (x : Buffer) (a b : nat),
             CryptoUtils.rotateLeft (CryptoUtils.rotateLeft x a) b
             = CryptoUtils.rotateLeft x (a + b)).
  { clear. intros x a b. apply list_eq. intros i.
    destruct (Nat.lt_ge_cases i (length x)) as [Hi|Hi].
    - rewrite lookup_rotateLeft by (rewrite length_rotateLeft; exact Hi).
      rewrite length_rotateLeft.
      rewrite lookup_rotateLeft by (apply Nat.mod_upper_bound; lia).
      rewrite lookup_rotateLeft by exact Hi.
      f_equal. rewrite Nat.Div0.add_mod_idemp_l. f_equal. lia.
    - rewrite !lookup_ge_None_2; [reflexivity | |];
        rewrite !length_rotateLeft; exact Hi. }
  assert (Hzero : forall x : Buffer, CryptoUtils.rotateLeft x 0 = x).
  { clear. intros x. apply list_eq. intros i.
    destruct (Nat.lt_ge_cases i (length x)) as [Hi|Hi].
    - rewrite lookup_rotateLeft by exact Hi.
      rewrite Nat.add_0_r, Nat.mod_small by exact Hi. reflexivity.
    - rewrite !lookup_ge_None_2; [reflexivity | exact Hi |].
      rewrite length_rotateLeft. exact Hi. }
  split; [apply Hcomp|]. split; [apply length_rotateLeft|]. split.
  - apply list_eq. intros i.
    destruct (Nat.lt_ge_cases i (length x)) as [Hi|Hi].
    + rewrite lookup_rotateLeft by exact Hi.
      replace (i + length x)%nat with (i + 1 * length x)%nat by lia.
      rewrite Nat.Div0.mod_add, Nat.mod_small by exact Hi. reflexivity.
    + rewrite !lookup_ge_None_2; [reflexivity | exact Hi |].
      rewrite length_rotateLeft. exact Hi.
  - induction a as [|a IH].
    + symmetry. apply Hzero.
    + change (Nat.iter (S a) (fun y => CryptoUtils.rotateLeft y 1) x)
        with (CryptoUtils.rotateLeft
                (Nat.iter a (fun y => CryptoUtils.rotateLeft y 1) x) 1).
      rewrite IH, Hcomp. f_equal. lia.
Qed.

Lemma rotateLeft_compose_witness :
  CryptoUtils.rotateLeft (CryptoUtils.rotateLeft hwBlock 3) 9
  = CryptoUtils.rotateLeft hwBlock (3 + 9)
  /\ length (CryptoUtils.rotateLeft hwBlock 3) = length hwBlock
  /\ CryptoUtils.rotateLeft hwBlock (length hwBlock) = hwBlock
  /\ Nat.iter 3 (fun y => CryptoUtils.rotateLeft y 1) hwBlock
     = CryptoUtils.rotateLeft hwBlock 3.
Proof.
  apply (rotateLeft_compose hwBlock 3 9). simpl. lia.
Defined.

(** ** crypto.ts: XOR and CRC *)

Lemma lxor_byte (x y : Z) :
  0 <= x < 256 -> 0 <= y < 256 -> 0 <= Z.lxor x y < 256.
Proof.
  intros Hx Hy.
  assert (Hnn : 0 <= Z.lxor x y) by (apply Z.lxor_nonneg; lia).
  split; [exact Hnn|].
  destruct (Z.eq_dec (Z.lxor x y) 0) as [->|Hne]; [lia|].
  change 256 with (2 ^ 8). apply Z.log2_lt_pow2; [lia|].
  pose proof (Z.log2_lxor x y ltac:(lia) ltac:(lia)) as Hl.
  assert (Hlx : Z.log2 x < 8).
  { destruct (Z.eq_dec x 0) as [->|]; [cbn; lia|].
    apply Z.log2_lt_pow2; lia. }
  assert (Hly : Z.log2 y < 8).
  { destruct (Z.eq_dec y 0) as [->|]; [cbn; lia|].
    apply Z.log2_lt_pow2; lia. }
  lia.
Qed.

Lemma toInt32_small (x : Z) : 0 <= x < 2 ^ 31 -> toInt32 x = x.
Proof.
  intros Hx. unfold toInt32. rewrite Z.mod_small by lia.
  destruct (Z.leb_spec (2 ^ 31) x); [lia | reflexivity].
Qed.

Lemma js_xor_byte (x y : Z) :
  0 <= x < 256 -> 0 <= y < 256 -> u8 (js_xor x y) = Z.lxor x y.
Proof.
  intros Hx Hy. unfold js_xor, u8.
  rewrite (toInt32_small x), (toInt32_small y) by lia.
  pose proof (lxor_byte x y Hx Hy).
  rewrite toInt32_small by lia. apply Z.mod_small. lia.
Qed.

Lemma xorBuffers_bytes (a b : Buffer) :
  isBytes a -> isBytes b -> length a = length b ->
  zip_with (fun x y => u8 (js_xor x y)) a b = zip_with Z.lxor a b
  /\ isBytes (zip_with Z.lxor a b)
  /\ zip_with Z.lxor (zip_with Z.lxor a b) b = a.
Proof.
  intros Ha. revert b. induction Ha as [|x a Hx Ha IH]; intros b Hb Hl.
  - destruct b; [|discriminate]. repeat split; constructor.
  - destruct Hb as [|y b Hy Hb]; [discriminate|].
    cbn [length] in Hl. injection Hl as Hl.
    destruct (IH b Hb Hl) as (E1 & E2 & E3).
    cbn [zip_with]. rewrite js_xor_byte, E1, E3 by assumption.
    split; [reflexivity|]. split.
    + constructor; [apply lxor_byte; assumption | exact E2].
    + rewrite Z.lxor_assoc, Z.lxor_nilpotent, Z.lxor_0_r. reflexivity.
Qed.

(** X3: on byte buffers of equal length [xorBuffers] succeeds, yields
    bytes again, and applying the same mask twice gives the original
    back. *)
Theorem xorBuffers_involution (a b : Buffer) :
  isBytes a -> isBytes b -> length a = length b ->
  exists c,
    xorBuffers a b = Ok c /\ isBytes c /\ length c = length a
    /\ xorBuffers c b = Ok a.
Proof.
  intros Ha Hb Hl.
  destruct (xorBuffers_bytes a b Ha Hb Hl) as (E1 & E2 & E3).
  exists (zip_with Z.lxor a b).
  assert (Hlc : length (zip_with Z.lxor a b) = length a).
  { rewrite length_zip_with. lia. }
  unfold xorBuffers.
  rewrite (proj2 (Nat.eqb_eq _ _) Hl). cbn [negb]. rewrite E1.
  split; [reflexivity|]. split; [exact E2|]. split; [exact Hlc|].
  rewrite (proj2 (Nat.eqb_eq _ _) (eq_trans Hlc Hl)). cbn [negb].
  destruct (xorBuffers_bytes (zip_with Z.lxor a b) b E2 Hb) as (E4 & _ & _);
    [lia|].
  rewrite E4, E3. reflexivity.
Qed.

Lemma xorBuffers_involution_witness :
  exists c,
    xorBuffers [0x12; 0x34; 0xFF] [0xA5; 0x5A; 0x0F] = Ok c /\ isBytes c
    /\ length c = length [0x12; 0x34; 0xFF]
    /\ xorBuffers c [0xA5; 0x5A; 0x0F] = Ok [0x12; 0x34; 0xFF].
Proof.
  apply (xorBuffers_involution [0x12; 0x34; 0xFF] [0xA5; 0x5A; 0x0F]);
    [repeat constructor; lia | repeat constructor; lia | reflexivity].
Defined.

Lemma isBytes_uintLE (n : nat) (v : Z) : isBytes (uintLE n v).
Proof.
  revert v. induction n as [|n IH]; intros v; cbn [uintLE]; constructor;
    [apply Z.mod_pos_bound; lia | apply IH].
Qed.

Lemma leValue_uintLE (n : nat) (v : Z) :
  leValue (uintLE n v) = v mod 256 ^ Z.of_nat n.
Proof.
  revert v. induction n as [|n IH]; intros v.
  - cbn. rewrite Z.mod_1_r. reflexivity.
  - cbn [uintLE leValue]. rewrite IH.
    rewrite Nat2Z.inj_succ, Z.pow_succ_r by lia.
    rewrite Z.rem_mul_r by lia. reflexivity.
Qed.

(** X4: [crc32Buffer] is always four bytes, and read back as a
    little-endian number they are [crc32], a value in [0, 2^32). *)
Theorem crc32Buffer_encodes_crc32 (d : Buffer) :
  length (CryptoUtils.crc32Buffer d) = 4%nat
  /\ isBytes (CryptoUtils.crc32Buffer d)
  /\ leValue (CryptoUtils.crc32Buffer d) = CryptoUtils.crc32 d
  /\ 0 <= CryptoUtils.crc32 d < 2 ^ 32.
Proof.
  assert (Hr : 0 <= CryptoUtils.crc32 d < 2 ^ 32).
  { unfold CryptoUtils.crc32, js_ushr, toUint32.
    change (0 mod 32) with 0. rewrite Z.shiftr_0_r.
    apply Z.mod_pos_bound. lia. }
  unfold CryptoUtils.crc32Buffer.
  split; [apply length_uintLE|]. split; [apply isBytes_uintLE|].
  split; [|exact Hr].
  rewrite leValue_uintLE. apply Z.mod_small.
  change (256 ^ Z.of_nat 4) with (2 ^ 32). exact Hr.
Qed.

(** X5: [crc16] never leaves [0, 65536), so [writeUInt16LE] cannot
    reject it, and [crc16Buffer] is the two bytes low, high of it. *)
Theorem crc16Buffer_encodes_crc16 (d : Buffer) :
  0 <= crc16 d < 2 ^ 16
  /\ length (crc16Buffer d) = 2%nat
  /\ isBytes (crc16Buffer d)
  /\ leValue (crc16Buffer d) = crc16 d
  /\ crc16Buffer d = [crc16 d mod 256; crc16 d / 256].
Proof.
  assert (Hr : 0 <= crc16 d < 2 ^ 16).
  { unfold crc16, js_and.
    rewrite (toInt32_small 65535) by lia.
    change 65535 with (Z.ones 16). rewrite Z.land_ones by lia.
    pose proof (Z.mod_pos_bound
                  (toInt32 (fold_left crc16_byte d 25443)) (2 ^ 16)
                  ltac:(lia)) as Hm.
    rewrite toInt32_small; lia. }
  split; [exact Hr|]. unfold crc16Buffer.
  split; [apply length_uintLE|]. split; [apply isBytes_uintLE|]. split.
  - rewrite leValue_uintLE. apply Z.mod_small.
    change (256 ^ Z.of_nat 2) with (2 ^ 16). exact Hr.
  - cbn [uintLE]. f_equal. f_equal. apply Z.mod_small.
    split; [apply Z.div_pos; lia | apply Z.div_lt_upper_bound; lia].
Qed.

(** ** crypto.ts: padding at any block size *)

Lemma padData_shape (m : Buffer) (blockSize : nat) :
  (0 < blockSize)%nat ->
  CryptoUtils.padData m blockSize
  = m ++ 0x80 :: replicate (blockSize - 1 - length m mod blockSize) 0.
Proof.
  intros Hb. unfold CryptoUtils.padData, alloc.
  assert (Hlt : (length m mod blockSize < blockSize)%nat)
    by (apply Nat.mod_upper_bound; lia).
  replace (blockSize - length m mod blockSize)%nat
    with (S (blockSize - 1 - length m mod blockSize)) by lia.
  reflexivity.
Qed.

(** X6: for every positive block size (8 for the DES handshake, 16 for
    AES) [padData] appends between 1 and [blockSize] bytes, ends on a
    block boundary, and [unpadData] gives the input back. *)
Theorem padData_any_block (m : Buffer) (blockSize : nat) :
  (0 < blockSize)%nat ->
  CryptoUtils.unpadData (CryptoUtils.padData m blockSize) = m
  /\ (length (CryptoUtils.padData m blockSize) mod blockSize = 0)%nat
  /\ (length m < length (CryptoUtils.padData m blockSize)
      <= length m + blockSize)%nat.
Proof.
  intros Hb.
  assert (Hlt : (length m mod blockSize < blockSize)%nat)
    by (apply Nat.mod_upper_bound; lia).
  pose proof (Nat.div_mod_eq (length m) blockSize) as Hdm.
  rewrite padData_shape by exact Hb.
  split; [|split].
  - unfold CryptoUtils.unpadData.
    rewrite length_app. cbn [length]. rewrite length_replicate.
    replace (length m + S (blockSize - 1 - length m mod blockSize))%nat
      with (length m + 1 + (blockSize - 1 - length m mod blockSize))%nat
      by lia.
    apply unpad_scan_padding. lia.
  - rewrite length_app. cbn [length]. rewrite length_replicate.
    replace (length m + S (blockSize - 1 - length m mod blockSize))%nat
      with (blockSize + length m / blockSize * blockSize)%nat by lia.
    rewrite Nat.Div0.mod_add. apply Nat.Div0.mod_same.
  - rewrite length_app. cbn [length]. rewrite length_replicate. lia.
Qed.

Lemma padData_any_block_witness :
  CryptoUtils.unpadData (CryptoUtils.padData hwBlock 8) = hwBlock
  /\ (length (CryptoUtils.padData hwBlock 8) mod 8 = 0)%nat
  /\ (length hwBlock < length (CryptoUtils.padData hwBlock 8)
      <= length hwBlock + 8)%nat.
Proof. apply (padData_any_block hwBlock 8). lia. Defined.

Lemma unpad_scan_prefix (d : Buffer) (n : nat) :
  CryptoUtils.unpad_scan d n `prefix_of` d.
Proof.
  induction n as [|n IH]; cbn [CryptoUtils.unpad_scan]; [reflexivity|].
  destruct (d !! n) as [b|]; [|reflexivity].
  destruct (b =? 128).
  - unfold slice. rewrite drop_0, Nat.sub_0_r.
    exists (drop n d). symmetry. apply take_drop.
  - destruct (negb (b =? 0)); [reflexivity | exact IH].
Qed.

Lemma unpad_scan_zeros (n k : nat) :
  (k <= n)%nat -> CryptoUtils.unpad_scan (replicate n 0) k = replicate n 0.
Proof.
  induction k as [|k IH]; intros Hk; cbn [CryptoUtils.unpad_scan];
    [reflexivity|].
  rewrite lookup_replicate_2 by lia. cbn. apply IH. lia.
Qed.

(** X7: [unpadData] only ever cuts: its result is a prefix of its input.
    It cuts at the last 0x80 that is followed by zeros only, whether or
    not the data had been padded, and leaves an all-zero buffer as it
    is. *)
Theorem unpadData_cuts (d m : Buffer) (k n : nat) :
  CryptoUtils.unpadData d `prefix_of` d
  /\ CryptoUtils.unpadData (m ++ 0x80 :: replicate k 0) = m
  /\ CryptoUtils.unpadData (replicate n 0) = replicate n 0.
Proof.
  split; [apply unpad_scan_prefix|]. split.
  - unfold CryptoUtils.unpadData. rewrite length_app. cbn [length].
    rewrite length_replicate.
    replace (length m + S k)%nat with (length m + 1 + k)%nat by lia.
    apply unpad_scan_padding. lia.
  - unfold CryptoUtils.unpadData. rewrite length_replicate.
    apply unpad_scan_zeros. lia.
Qed.

(** ** crypto.ts: AES-CMAC and session keys *)

(** X8: for the empty message [aesCMAC] encrypts nothing: whatever the
    16-byte key and the cipher, the tag is sixteen zero bytes; a key of
    any other length is rejected. *)
Theorem aesCMAC_empty_message `{NodeCrypto} (key : Buffer)
    (length_ : option nat) :
  aesCMAC key [] length_
  = if (length key =? 16)%nat
    then Ok (replicate (Nat.min
                          match length_ with Some (S n) => S n | _ => 16%nat end
                          16) 0)
    else Throw CmacKeyMustBe16.
Proof.
  unfold aesCMAC. destruct (length key =? 16)%nat; [|reflexivity].
  cbn [negb]. destruct (generateCMACSubkeys key) as [k1 k2].
  change (length (@nil Z)) with 0%nat.
  change ((0 + 15) / 16)%nat with 0%nat.
  change (0 =? 0)%nat with true. cbn [orb].
  change (0 * 16)%nat with 0%nat. rewrite take_0.
  unfold xorLastBlock. change (length (@nil Z)) with 0%nat.
  change (0 <? 16)%nat with true. cbv iota.
  change (length (@nil Z)) with 0%nat.
  change (0 / 16)%nat with 0%nat. cbn [cbcMac].
  unfold slice, alloc. rewrite drop_0, Nat.sub_0_r, take_replicate.
  reflexivity.
Qed.

(** X9: the keys of the legacy AES session are the two nonces
    rearranged: both are 16 bytes, the authentication key does not enter
    them, and RndA and RndB can be read back from them. *)
Theorem aes_session_keys_are_the_nonces (key key' rndA rndB : Buffer) :
  length rndA = 16%nat -> length rndB = 16%nat ->
  let enc := deriveSessionKeyAESEnc key rndA rndB in
  let mac := deriveSessionKeyAESMac key rndA rndB in
  length enc = 16%nat /\ length mac = 16%nat
  /\ enc = deriveSessionKeyAESEnc key' rndA rndB
  /\ mac = deriveSessionKeyAESMac key' rndA rndB
  /\ rndA = slice enc 0 4 ++ slice mac 0 4 ++ slice mac 8 12 ++ slice enc 8 12
  /\ rndB = slice enc 4 8 ++ slice mac 4 8 ++ slice mac 12 16
            ++ slice enc 12 16.
Proof.
  intros Ha Hb.
  do 17 (destruct rndA as [|? rndA]; try discriminate Ha).
  do 17 (destruct rndB as [|? rndB]; try discriminate Hb).
  cbv zeta. repeat split; reflexivity.
Qed.

Lemma aes_session_keys_are_the_nonces_witness :
  let rndA := map Z.of_nat (seq 0xA1 16) in
  let rndB := rndB16_example in
  let enc := deriveSessionKeyAESEnc K0 rndA rndB in
  let mac := deriveSessionKeyAESMac K0 rndA rndB in
  length enc = 16%nat /\ length mac = 16%nat
  /\ enc = deriveSessionKeyAESEnc [] rndA rndB
  /\ mac = deriveSessionKeyAESMac [] rndA rndB
  /\ rndA = slice enc 0 4 ++ slice mac 0 4 ++ slice mac 8 12 ++ slice enc 8 12
  /\ rndB = slice enc 4 8 ++ slice mac 4 8 ++ slice mac 12 16
            ++ slice enc 12 16.
Proof.
  apply (aes_session_keys_are_the_nonces K0 []
           (map Z.of_nat (seq 0xA1 16)) rndB16_example); reflexivity.
Defined.

(** Scenario "AES auth byte splicing": RndA = A1..B0, RndB = B1..C0. *)
Example aes_splicing_scenario :
  deriveSessionKeyAESEnc K0 (map Z.of_nat (seq 0xA1 16))
                          rndB16_example
  = [0xA1; 0xA2; 0xA3; 0xA4; 0xB1; 0xB2; 0xB3; 0xB4;
     0xAD; 0xAE; 0xAF; 0xB0; 0xBD; 0xBE; 0xBF; 0xC0]
  /\ deriveSessionKeyAESMac K0 (map Z.of_nat (seq 0xA1 16))
                             rndB16_example
     = [0xA5; 0xA6; 0xA7; 0xA8; 0xB5; 0xB6; 0xB7; 0xB8;
        0xA9; 0xAA; 0xAB; 0xAC; 0xB9; 0xBA; 0xBB; 0xBC].
Proof. vm_compute. split; reflexivity. Qed.

(** ** apdu.ts: response parsing *)

(** X10: [APDU.parse] throws exactly on responses shorter than two
    bytes; otherwise it splits the response, so that payload followed by
    SW1 SW2 is the response again. *)
Theorem parse_splits_response (r : Buffer) :
  ((length r < 2)%nat -> APDU.parse r = Throw InvalidApduResponse)
  /\ ((2 <= length r)%nat ->
      exists p, APDU.parse r = Ok p /\ data p ++ [sw1 p; sw2 p] = r).
Proof.
  split.
  - intros Hl. unfold APDU.parse.
    destruct (Nat.ltb_spec (length r) 2); [reflexivity | lia].
  - intros Hl.
    assert (Hsplit : r = take (length r - 2) r ++ drop (length r - 2) r)
      by (symmetry; apply take_drop).
    assert (Hd : length (drop (length r - 2) r) = 2%nat)
      by (rewrite length_drop; lia).
    destruct (drop (length r - 2) r) as [|a [|b [|? ?]]]; try discriminate.
    exists (mkParsed a b (take (length r - 2) r)).
    split; [|cbn [data sw1 sw2]; symmetry; exact Hsplit].
    rewrite Hsplit at 1. apply (parse_frame (take (length r - 2) r) a b).
Qed.

(** ** acr122u.ts: PN532 responses *)

Lemma pn532_scan_skip (x : Z) (tl : Buffer) :
  x <> 0xD5 -> pn532_scan (x :: tl) = pn532_scan tl.
Proof.
  intros Hx. destruct tl as [|c [|s rest]]; [reflexivity | reflexivity |].
  cbn [pn532_scan]. destruct (Z.eqb_spec x 0xD5); [contradiction|].
  reflexivity.
Qed.

(** X11: a PN532 answer D5 41 00 or D5 43 00 followed by an R-APDU of
    at least two bytes is unwrapped to that R-APDU, whatever bytes other
    than D5 come before it. *)
Theorem parsePn532Response_unwraps (pre : Buffer) (cmd : Z) (rapdu : Buffer) :
  Forall (fun x => x <> 0xD5) pre ->
  cmd = 0x41 \/ cmd = 0x43 ->
  (2 <= length rapdu)%nat ->
  parsePn532Response (pre ++ [0xD5; cmd; 0x00] ++ rapdu) = Some rapdu.
Proof.
  intros Hpre Hcmd Hlen. unfold parsePn532Response.
  destruct (Nat.ltb_spec (length (pre ++ [0xD5; cmd; 0x00] ++ rapdu)) 4)
    as [Hl|_].
  { rewrite !length_app in Hl. cbn [length] in Hl. lia. }
  induction Hpre as [|x pre Hx _ IH].
  - cbn [app pn532_scan].
    destruct Hcmd as [-> | ->].
    + change ((213 =? 213) && ((65 =? 65) || (65 =? 67)) && (0 =? 0))
        with true. cbv iota.
      rewrite (proj2 (Nat.leb_le _ _) Hlen). reflexivity.
    + change ((213 =? 213) && ((67 =? 65) || (67 =? 67)) && (0 =? 0))
        with true. cbv iota.
      rewrite (proj2 (Nat.leb_le _ _) Hlen). reflexivity.
  - change ((x :: pre) ++ [0xD5; cmd; 0x00] ++ rapdu)
      with (x :: (pre ++ [0xD5; cmd; 0x00] ++ rapdu)).
    rewrite pn532_scan_skip by exact Hx. exact IH.
Qed.

Lemma parsePn532Response_unwraps_witness :
  parsePn532Response ([0x00; 0xFF] ++ [0xD5; 0x41; 0x00] ++ [0x91; 0x00])
  = Some [0x91; 0x00].
Proof.
  apply (parsePn532Response_unwraps [0x00; 0xFF] 0x41 [0x91; 0x00]).
  - repeat constructor; discriminate.
  - left. reflexivity.
  - cbn. lia.
Defined.

Lemma pn532_scan_sound (resp : Buffer) :
  forall d, pn532_scan resp = Some d ->
            (2 <= length d)%nat /\ d `suffix_of` resp.
Proof.
  induction resp as [|x tl IH]; intros d; [discriminate|].
  destruct tl as [|c [|s rest]]; [discriminate | discriminate |].
  cbn [pn532_scan].
  destruct ((x =? 0xD5) && ((c =? 0x41) || (c =? 0x43)) && (s =? 0x00)).
  - destruct (Nat.leb_spec 2 (length rest)); [|discriminate].
    intros E. injection E as <-. split; [assumption|].
    exists [x; c; s]. reflexivity.
  - intros E. destruct (IH d E) as [Hl Hs]. split; [exact Hl|].
    apply suffix_cons_r. exact Hs.
Qed.

(** X12: whatever [parsePn532Response] returns is a tail of the reader's
    answer and at least two bytes long, and answers shorter than four
    bytes are never accepted. *)
Theorem parsePn532Response_sound (resp d : Buffer) :
  parsePn532Response resp = Some d ->
  (2 <= length d)%nat /\ d `suffix_of` resp /\ (4 <= length resp)%nat.
Proof.
  unfold parsePn532Response.
  destruct (Nat.ltb_spec (length resp) 4); [discriminate|].
  intros E. destruct (pn532_scan_sound resp d E). tauto.
Qed.

Lemma parsePn532Response_sound_witness :
  (2 <= length ([0x91; 0xAF]%Z))%nat
  /\ [0x91; 0xAF] `suffix_of` [0xD5; 0x43; 0x00; 0x91; 0xAF]
  /\ (4 <= length ([0xD5; 0x43; 0x00; 0x91; 0xAF]%Z))%nat.
Proof.
  apply (parsePn532Response_sound [0xD5; 0x43; 0x00; 0x91; 0xAF]
           [0x91; 0xAF]).
  reflexivity.
Defined.

(** ** desfire.ts: single-frame commands and their errors *)

Lemma isSuccess_not_af (s1 s2 : Z) :
  APDU.isSuccess s1 s2 = true -> APDU.isAdditionalFrame s1 s2 = false.
Proof.
  unfold APDU.isSuccess, APDU.isAdditionalFrame.
  destruct (Z.eqb_spec s2 0) as [->|]; [rewrite andb_false_r; reflexivity|].
  rewrite !andb_false_r. discriminate.
Qed.

Lemma sendCommand_success (c : Card) (cmd : Z) (data_ : option Buffer)
    (d : Buffer) (s1 s2 : Z) (rest : list (option Buffer)) :
  tx_tape (reader c) = Some (frame d s1 s2) :: rest ->
  APDU.isSuccess s1 s2 = true ->
  sendCommand cmd data_ c
  = (Ok d, after_tx [encodeCommand cmd data_ (negb (preferNoLe c))] rest c).
Proof.
  intros E S. pose proof (isSuccess_not_af _ _ S) as NAF.
  assert (A : accepted (mkParsed s1 s2 d) = true).
  { unfold accepted. cbn [sw1 sw2]. rewrite S. reflexivity. }
  unfold sendCommand. unfold bind at 1, gets. unfold bind at 1.
  unfold tryTransmitAttempts, commandAttempts, attemptsInOrder.
  destruct (preferNoLe c) eqn:P;
    rewrite (tryTransmitAttempts_step _ _ _ _ _ _ _ _ _ E);
    rewrite A; cbv iota; cbn [sw1 sw2 data negb];
    rewrite S, NAF; cbn [negb andb]; unfold ret;
    rewrite <- P at 1;
    rewrite (set_preferNoLe_same (consume _ c));
    rewrite (consume_after_tx _ _ _ _ E); reflexivity.
Qed.

(** X13: a command answered with success (90 00 or 91 00) costs exactly
    one APDU, in the preferred Le form; [sendCommand] returns the
    payload and leaves the card object's fields, the Le preference
    included, as they were. *)
Theorem sendCommand_single_frame (c : Card) (cmd : Z) (data_ : option Buffer)
    (d : Buffer) (s1 s2 : Z) (rest : list (option Buffer)) :
  tx_tape (reader c) = Some (frame d s1 s2) :: rest ->
  APDU.isSuccess s1 s2 = true ->
  let out := sendCommand cmd data_ c in
  out.1 = Ok d
  /\ tx_log (reader out.2)
     = tx_log (reader c) ++ [encodeCommand cmd data_ (negb (preferNoLe c))]
  /\ tx_tape (reader out.2) = rest
  /\ preferNoLe out.2 = preferNoLe c
  /\ engine_only c out.2.
Proof.
  intros E S out. subst out. rewrite (sendCommand_success _ _ _ _ _ _ _ E S).
  cbn. unfold engine_only. cbn. tauto.
Qed.

Lemma sendCommand_single_frame_witness :
  let c := freshCard [Some (frame [0x10; 0x27; 0x00] 0x91 0x00)] in
  let out := sendCommand Opcode.GET_FREE_MEMORY None c in
  out.1 = Ok [0x10; 0x27; 0x00]
  /\ tx_log (reader out.2)
     = tx_log (reader c)
       ++ [encodeCommand Opcode.GET_FREE_MEMORY None (negb (preferNoLe c))]
  /\ tx_tape (reader out.2) = []
  /\ preferNoLe out.2 = preferNoLe c
  /\ engine_only c out.2.
Proof.
  exact (sendCommand_single_frame
           (freshCard [Some (frame [0x10; 0x27; 0x00] 0x91 0x00)])
           Opcode.GET_FREE_MEMORY None [0x10; 0x27; 0x00] 0x91 0x00 []
           eq_refl eq_refl).
Defined.

(** X14: a command answered with a rejected status throws
    [CommandFailed] carrying that status word.  Nothing is re-sent,
    except once in the other Le form after a length error, and then the
    error carries the status of the second answer; the Le preference is
    unchanged. *)
Theorem sendCommand_rejected (c : Card) (cmd : Z) (data_ : option Buffer)
    (d d' : Buffer) (e1 e2 e1' e2' : Z) (rest : list (option Buffer)) :
  accepted (mkParsed e1 e2 d) = false ->
  accepted (mkParsed e1' e2' d') = false ->
  tx_tape (reader c) = abortedFetch d e1 e2 d' e1' e2' ++ rest ->
  let retried := isLengthError (mkParsed e1 e2 d) in
  sendCommand cmd data_ c
  = (Throw (if retried then CommandFailed e1' e2' else CommandFailed e1 e2),
     after_tx (encodeCommand cmd data_ (negb (preferNoLe c))
               :: if retried then [encodeCommand cmd data_ (preferNoLe c)]
                  else [])
              rest c).
Proof.
  intros NA NA' E retried. subst retried.
  assert (Hsplit : forall s1 s2 x,
             accepted (mkParsed s1 s2 x) = false ->
             negb (APDU.isSuccess s1 s2) && negb (APDU.isAdditionalFrame s1 s2)
             = true).
  { intros s1 s2 x Hx. unfold accepted in Hx. cbn [sw1 sw2] in Hx.
    apply orb_false_iff in Hx as [-> ->]. reflexivity. }
  unfold abortedFetch in E.
  unfold sendCommand. unfold bind at 1, gets. unfold bind at 1.
  unfold tryTransmitAttempts, commandAttempts, attemptsInOrder.
  destruct (isLengthError (mkParsed e1 e2 d)) eqn:LE;
    cbn [app] in E;
    destruct (preferNoLe c) eqn:P;
    rewrite (tryTransmitAttempts_step _ _ _ _ _ _ _ _ _ E);
    rewrite NA, LE; cbn [negb].
  1,2: (erewrite tryTransmitAttempts_step
          by (rewrite tx_tape_consume, E; reflexivity));
       rewrite NA';
       destruct (isLengthError (mkParsed e1' e2' d')); cbn [negb];
       cbn [tryTransmitAttempts_from]; unfold ret; cbn [sw1 sw2 data];
       rewrite (Hsplit _ _ _ NA'); unfold throw;
       rewrite (consume_after_tx _ _ _ _ E);
       (erewrite consume_after_tx by reflexivity);
       rewrite after_tx_after_tx; reflexivity.
  all: unfold ret; cbn [sw1 sw2 data]; rewrite (Hsplit _ _ _ NA);
       unfold throw; rewrite (consume_after_tx _ _ _ _ E); reflexivity.
Qed.

Lemma sendCommand_rejected_witness :
  let c := freshCard [Some [0x91; 0x7E]; Some [0x91; 0x7E]] in
  sendCommand Opcode.COMMIT_TRANSACTION None c
  = (Throw (CommandFailed 0x91 0x7E),
     after_tx [[0x90; 0xC7; 0x00; 0x00]; [0x90; 0xC7; 0x00; 0x00; 0x00]] [] c).
Proof.
  exact (sendCommand_rejected
           (freshCard [Some [0x91; 0x7E]; Some [0x91; 0x7E]])
           Opcode.COMMIT_TRANSACTION None [] [] 0x91 0x7E 0x91 0x7E []
           eq_refl eq_refl eq_refl).
Defined.

(** ** desfire.ts: key management guards *)

(** X15: without an authenticated session the key-management methods
    [changeKeySettings], [changeKey], [initializeKeySet], [rollKeySet]
    and [finalizeKeySet] throw at once: nothing is transmitted and the
    card object is untouched. *)
Theorem unauthenticated_key_management_is_refused (c : Card) (a b : Z)
    (newKey : Buffer) (oldKey : option Buffer) :
  authenticated (auth c) = false ->
  changeKeySettings a c = (Throw AuthRequired, c)
  /\ changeKey a newKey oldKey c = (Throw AuthRequired, c)
  /\ initializeKeySet a b c = (Throw AuthRequired, c)
  /\ rollKeySet a c = (Throw AuthRequired, c)
  /\ finalizeKeySet c = (Throw AuthRequired, c).
Proof.
  intros Ha.
  assert (Hr : requireAuth c = (Throw AuthRequired, c)).
  { unfold requireAuth, bind, gets. rewrite Ha. reflexivity. }
  unfold changeKeySettings, changeKey, initializeKeySet, rollKeySet,
    finalizeKeySet.
  repeat split; unfold bind at 1; rewrite Hr; reflexivity.
Qed.

Lemma unauthenticated_key_management_is_refused_witness :
  let c := freshCard [Some [0x91; 0x00]] in
  changeKeySettings 0x0F c = (Throw AuthRequired, c)
  /\ changeKey 0 K0 None c = (Throw AuthRequired, c)
  /\ initializeKeySet 1 0x80 c = (Throw AuthRequired, c)
  /\ rollKeySet 1 c = (Throw AuthRequired, c)
  /\ finalizeKeySet c = (Throw AuthRequired, c).
Proof.
  exact (unauthenticated_key_management_is_refused
           (freshCard [Some [0x91; 0x00]]) 0x0F 0 K0 None eq_refl).
Defined.


Lemma encodeCommand_data (cmd : Z) (d : Buffer) (usesLe : bool) :
  d <> [] ->
  encodeCommand cmd (Some d) usesLe
  = [0x90; u8 cmd; 0x00; 0x00; u8 (Z.of_nat (length d))] ++ d
    ++ (if usesLe then [0x00] else []).
Proof.
  intros Hd. destruct d as [|b d]; [congruence|].
  unfold encodeCommand, APDU.build.
  destruct usesLe; [reflexivity|].
  cbn [length Nat.ltb Nat.leb app]. rewrite app_nil_r. reflexivity.
Qed.

Lemma requireAuth_ok (c : Card) :
  authenticated (auth c) = true -> requireAuth c = (Ok tt, c).
Proof. intros Ha. unfold requireAuth, bind, gets. rewrite Ha. reflexivity. Qed.

(** X16: [changeKey] on an authenticated session sends the new key as
    it is: the APDU is 90 C4 00 00 12, the key number, the sixteen key
    bytes and a key version byte that is always 00 (then Le in the
    with-Le form).  The old key passed by the caller does not enter the
    APDU. *)
Theorem changeKey_sends_key_in_clear (c : Card) (keyNo : Z) (newKey : Buffer)
    (oldKey : option Buffer) (d : Buffer) (s1 s2 : Z)
    (rest : list (option Buffer)) :
  authenticated (auth c) = true ->
  length newKey = 16%nat ->
  tx_tape (reader c) = Some (frame d s1 s2) :: rest ->
  APDU.isSuccess s1 s2 = true ->
  changeKey keyNo newKey oldKey c
  = (Ok tt,
     after_tx [[0x90; 0xC4; 0x00; 0x00; 0x12; u8 keyNo] ++ newKey ++ [0x00]
               ++ (if preferNoLe c then [] else [0x00])] rest c).
Proof.
  intros Ha Hl E S. unfold changeKey. unfold bind at 1.
  rewrite (requireAuth_ok _ Ha). rewrite Hl. cbn [Nat.eqb negb].
  unfold bind at 1. rewrite (sendCommand_success _ _ _ _ _ _ _ E S).
  rewrite encodeCommand_data by discriminate.
  cbn [app length]. rewrite length_app, Hl. cbn [length Nat.add].
  unfold ret. do 3 f_equal.
  rewrite <- app_assoc.
  destruct (preferNoLe c); reflexivity.
Qed.

Lemma changeKey_sends_key_in_clear_witness :
  let c := cardWithSession [Some [0x91; 0x00]] in
  changeKey 1 (alloc 16 0xAB) None c
  = (Ok tt,
     after_tx [[0x90; 0xC4; 0x00; 0x00; 0x12; u8 1] ++ (alloc 16 0xAB)
               ++ [0x00] ++ (if preferNoLe c then [] else [0x00])] [] c).
Proof.
  exact (changeKey_sends_key_in_clear
           (cardWithSession [Some [0x91; 0x00]]) 1 (alloc 16 0xAB) None
           [] 0x91 0x00 [] eq_refl eq_refl eq_refl eq_refl).
Defined.


(** ** desfire.ts: arguments out of range *)

Lemma writeUIntLE3_out_of_range (v : Z) :
  ~ 0 <= v < 2 ^ 24 -> writeUIntLE3 v = Throw RangeError.
Proof.
  intros H. unfold writeUIntLE3.
  destruct (Z.leb_spec 0 v), (Z.ltb_spec v (2 ^ 24)); cbn [andb];
    try reflexivity; lia.
Qed.

Lemma writeInt32LE_out_of_range (v : Z) :
  ~ - 2 ^ 31 <= v < 2 ^ 31 -> writeInt32LE v = Throw RangeError.
Proof.
  intros H. unfold writeInt32LE.
  destruct (Z.leb_spec (- 2 ^ 31) v), (Z.ltb_spec v (2 ^ 31)); cbn [andb];
    try reflexivity; lia.
Qed.

(** X17: an application id, file size or offset outside [0, 2^24), or
    an amount outside the signed 32-bit range, makes the method throw a
    range error while it builds the command: nothing is transmitted and
    the card object is unchanged. *)
Theorem out_of_range_arguments_are_not_transmitted (c : Card) (v w : Z)
    (fileNo comm keySetting numKeys keyType len : Z) (rights : Buffer) :
  ~ 0 <= v < 2 ^ 24 ->
  ~ - 2 ^ 31 <= w < 2 ^ 31 ->
  selectApplication v c = (Throw RangeError, c)
  /\ createApplication v keySetting numKeys keyType c = (Throw RangeError, c)
  /\ deleteApplication v c = (Throw RangeError, c)
  /\ createStdDataFile fileNo comm rights v c = (Throw RangeError, c)
  /\ createBackupDataFile fileNo comm rights v c = (Throw RangeError, c)
  /\ readData fileNo v len c = (Throw RangeError, c)
  /\ credit fileNo w c = (Throw RangeError, c)
  /\ debit fileNo w c = (Throw RangeError, c)
  /\ createValueFile fileNo comm rights w 0 0 0 c = (Throw RangeError, c).
Proof.
  intros Hv Hw.
  unfold selectApplication, createApplication, deleteApplication,
    createStdDataFile, createBackupDataFile, readData, credit, debit,
    createValueFile.
  repeat split; unfold bind at 1, lift;
    rewrite ?(writeUIntLE3_out_of_range _ Hv),
            ?(writeInt32LE_out_of_range _ Hw); reflexivity.
Qed.

Lemma out_of_range_arguments_are_not_transmitted_witness :
  let c := freshCard [Some [0x91; 0x00]] in
  selectApplication 0x1000000 c = (Throw RangeError, c)
  /\ createApplication 0x1000000 0x0F 3 0x80 c = (Throw RangeError, c)
  /\ deleteApplication 0x1000000 c = (Throw RangeError, c)
  /\ createStdDataFile 1 0 [0xEE; 0xEE] 0x1000000 c = (Throw RangeError, c)
  /\ createBackupDataFile 1 0 [0xEE; 0xEE] 0x1000000 c = (Throw RangeError, c)
  /\ readData 1 0x1000000 16 c = (Throw RangeError, c)
  /\ credit 1 0x80000000 c = (Throw RangeError, c)
  /\ debit 1 0x80000000 c = (Throw RangeError, c)
  /\ createValueFile 1 0 [0xEE; 0xEE] 0x80000000 0 0 0 c
     = (Throw RangeError, c).
Proof.
  apply (out_of_range_arguments_are_not_transmitted
           (freshCard [Some [0x91; 0x00]]) 0x1000000 0x80000000
           1 0 0x0F 3 0x80 16 [0xEE; 0xEE]); lia.
Defined.

(** ** desfire.ts: application ids *)

Lemma readAIDs_concat (aids : list Z) :
  forall (pre : Buffer) (fuel : nat),
  Forall (fun a => 0 <= a < 2 ^ 24) aids ->
  (length aids <= fuel)%nat ->
  readAIDs fuel (pre ++ concat (map (uintLE 3) aids)) (length pre) = Ok aids.
Proof.
  induction aids as [|a aids IH]; intros pre fuel Hr Hf.
  - cbn [map concat]. rewrite app_nil_r.
    destruct fuel; cbn [readAIDs]; rewrite Nat.ltb_irrefl; reflexivity.
  - destruct fuel as [|fuel]; [cbn [length] in Hf; lia|].
    apply Forall_cons in Hr as [Ha Hr].
    cbn [map concat readAIDs].
    assert (Hlt : (length pre <? length (pre ++ uintLE 3 a
                                          ++ concat (map (uintLE 3) aids)))%nat
                  = true).
    { apply Nat.ltb_lt. rewrite !length_app, length_uintLE. lia. }
    rewrite Hlt. unfold readUIntLE3.
    assert (Hle : (length pre + 3 <=? length (pre ++ uintLE 3 a
                                          ++ concat (map (uintLE 3) aids)))%nat
                  = true).
    { apply Nat.leb_le. rewrite !length_app, length_uintLE. lia. }
    rewrite Hle. unfold slice. rewrite drop_app_length.
    replace (length pre + 3 - length pre)%nat with (length (uintLE 3 a))
      by (rewrite length_uintLE; lia).
    rewrite take_app_length, leValue_uintLE.
    change (256 ^ Z.of_nat 3) with (2 ^ 24). rewrite Z.mod_small by exact Ha.
    rewrite app_assoc.
    replace (length pre + 3)%nat with (length (pre ++ uintLE 3 a))
      by (rewrite length_app, length_uintLE; reflexivity).
    rewrite IH; [reflexivity | exact Hr | cbn [length] in Hf; lia].
Qed.

Lemma readAIDs_ragged (fuel : nat) :
  forall (response : Buffer) (i : nat),
  (i <= length response)%nat ->
  ((length response - i) mod 3 <> 0)%nat ->
  (length response - i <= fuel)%nat ->
  readAIDs fuel response i = Throw RangeError.
Proof.
  induction fuel as [|fuel IH]; intros response i Hi Hm Hf.
  - replace (length response - i)%nat with 0%nat in Hm by lia.
    cbn in Hm. congruence.
  - assert (Hpos : (i < length response)%nat).
    { destruct (Nat.eq_dec (length response - i)%nat 0%nat) as [E0|]; [|lia].
      rewrite E0 in Hm. cbn in Hm. congruence. }
    cbn [readAIDs]. rewrite (proj2 (Nat.ltb_lt _ _) Hpos).
    unfold readUIntLE3.
    destruct (Nat.leb_spec (i + 3) (length response)) as [Hin|Hout];
      [|reflexivity].
    rewrite IH; [reflexivity | lia | | lia].
    intros Hz. apply Hm.
    replace (length response - i)%nat
      with (length response - (i + 3) + 1 * 3)%nat by lia.
    rewrite Nat.Div0.mod_add. exact Hz.
Qed.

(** X18: [getApplicationIDs] returns the application ids the card
    listed, in order: the payload is read as consecutive 3-byte
    little-endian numbers, so it inverts the encoding that
    [selectApplication] and [createApplication] use for an id. *)
Theorem getApplicationIDs_decodes (c : Card) (aids : list Z) (s1 s2 : Z)
    (rest : list (option Buffer)) :
  Forall (fun a => 0 <= a < 2 ^ 24) aids ->
  tx_tape (reader c)
  = Some (frame (concat (map (uintLE 3) aids)) s1 s2) :: rest ->
  APDU.isSuccess s1 s2 = true ->
  getApplicationIDs c
  = (Ok aids,
     after_tx [[0x90; 0x6A; 0x00; 0x00]
               ++ (if preferNoLe c then [] else [0x00])] rest c).
Proof.
  intros Hr E S. unfold getApplicationIDs. unfold bind at 1.
  rewrite (sendCommand_success _ _ _ _ _ _ _ E S). unfold lift.
  rewrite (readAIDs_concat aids [] _ Hr).
  - destruct (preferNoLe c); reflexivity.
  - rewrite length_concat.
    clear. induction aids as [|a aids IH]; cbn [map list_sum length];
      [lia | rewrite length_uintLE].
    change (S (length aids)
            <= 3 + list_sum (map length (map (uintLE 3) aids)))%nat.
    lia.
Qed.

Lemma getApplicationIDs_decodes_witness :
  let c := freshCard [Some [0x01; 0x00; 0x00; 0x56; 0x34; 0x12; 0x91; 0x00]] in
  getApplicationIDs c
  = (Ok [0x000001; 0x123456],
     after_tx [[0x90; 0x6A; 0x00; 0x00]
               ++ (if preferNoLe c then [] else [0x00])] [] c).
Proof.
  apply (getApplicationIDs_decodes
           (freshCard [Some [0x01; 0x00; 0x00; 0x56; 0x34; 0x12; 0x91; 0x00]])
           [0x000001; 0x123456] 0x91 0x00 []);
    [repeat constructor; lia | reflexivity | reflexivity].
Defined.

(** X19: when the payload of the GET_APPLICATION_IDS answer is not a
    whole number of 3-byte ids, [getApplicationIDs] throws a range
    error from the read past the end; no partial list is returned. *)
Theorem getApplicationIDs_ragged_payload (c : Card) (d : Buffer) (s1 s2 : Z)
    (rest : list (option Buffer)) :
  (length d mod 3 <> 0)%nat ->
  tx_tape (reader c) = Some (frame d s1 s2) :: rest ->
  APDU.isSuccess s1 s2 = true ->
  (getApplicationIDs c).1 = Throw RangeError.
Proof.
  intros Hm E S. unfold getApplicationIDs. unfold bind at 1.
  rewrite (sendCommand_success _ _ _ _ _ _ _ E S). unfold lift.
  rewrite readAIDs_ragged; [reflexivity | lia | | lia].
  rewrite Nat.sub_0_r. exact Hm.
Qed.

Lemma getApplicationIDs_ragged_payload_witness :
  (getApplicationIDs
     (freshCard [Some [0x01; 0x00; 0x00; 0x56; 0x34; 0x91; 0x00]])).1
  = Throw RangeError.
Proof.
  apply (getApplicationIDs_ragged_payload
           (freshCard [Some [0x01; 0x00; 0x00; 0x56; 0x34; 0x91; 0x00]])
           [0x01; 0x00; 0x00; 0x56; 0x34] 0x91 0x00 []);
    [cbn; lia | reflexivity | reflexivity].
Defined.


(** ** desfire.ts: value files *)

Lemma mod_2_32_signed (v : Z) :
  - 2 ^ 31 <= v < 2 ^ 31 ->
  v mod 2 ^ 32 = if v <? 0 then v + 2 ^ 32 else v.
Proof.
  intros Hv. destruct (Z.ltb_spec v 0).
  - symmetry. apply (Z.mod_unique_pos _ _ (-1)); lia.
  - apply Z.mod_small. lia.
Qed.

Lemma readInt32LE_writeInt32LE (v : Z) :
  - 2 ^ 31 <= v < 2 ^ 31 ->
  writeInt32LE v = Ok (uintLE 4 (v mod 2 ^ 32))
  /\ readInt32LE (uintLE 4 (v mod 2 ^ 32)) = Ok v.
Proof.
  intros Hv. split.
  - unfold writeInt32LE.
    destruct (Z.leb_spec (- 2 ^ 31) v), (Z.ltb_spec v (2 ^ 31)); cbn [andb];
      try reflexivity; lia.
  - unfold readInt32LE. rewrite length_uintLE. cbn [Nat.leb].
    unfold slice. rewrite drop_0, take_ge by (rewrite length_uintLE; lia).
    rewrite leValue_uintLE. change (256 ^ Z.of_nat 4) with (2 ^ 32).
    rewrite Z.mod_mod by lia. f_equal.
    unfold toInt32. rewrite Z.mod_mod by lia.
    rewrite (mod_2_32_signed v Hv).
    destruct (Z.ltb_spec v 0), (Z.leb_spec (2 ^ 31) (v + 2 ^ 32)),
      (Z.leb_spec (2 ^ 31) v); lia.
Qed.

(** X20: [credit] and [debit] put a signed 32-bit amount on the wire as
    four little-endian two's complement bytes after the file number, and
    [getValue] reads exactly that encoding back: a card that answers
    with the four bytes [credit] sent for [v] makes [getValue] return
    [v], negative values included. *)
Theorem value_amount_round_trip (c : Card) (fileNo v : Z) (d : Buffer)
    (s1 s2 : Z) (rest : list (option Buffer)) :
  - 2 ^ 31 <= v < 2 ^ 31 ->
  tx_tape (reader c) = Some (frame d s1 s2) :: rest ->
  APDU.isSuccess s1 s2 = true ->
  let amount := uintLE 4 (v mod 2 ^ 32) in
  let le := if preferNoLe c then [] else [0x00] in
  credit fileNo v c
  = (Ok tt,
     after_tx [[0x90; 0x0C; 0x00; 0x00; 0x05; u8 fileNo] ++ amount ++ le]
              rest c)
  /\ debit fileNo v c
     = (Ok tt,
        after_tx [[0x90; 0xDC; 0x00; 0x00; 0x05; u8 fileNo] ++ amount ++ le]
                 rest c)
  /\ forall (c' : Card) (t1 t2 : Z) (rest' : list (option Buffer)),
       tx_tape (reader c') = Some (frame amount t1 t2) :: rest' ->
       APDU.isSuccess t1 t2 = true ->
       (getValue fileNo c').1 = Ok v.
Proof.
  intros Hv E S amount le.
  destruct (readInt32LE_writeInt32LE v Hv) as [Hw Hr].
  assert (Hsend : forall cmd,
    (let* _ := sendCommand cmd (Some ([u8 fileNo] ++ amount)) in ret tt) c
    = (Ok tt,
       after_tx [[0x90; u8 cmd; 0x00; 0x00; 0x05; u8 fileNo] ++ amount ++ le]
                rest c)).
  { intros cmd. unfold bind at 1.
    rewrite (sendCommand_success _ _ _ _ _ _ _ E S).
    rewrite encodeCommand_data by discriminate.
    subst amount le. destruct (preferNoLe c); reflexivity. }
  split; [|split].
  - unfold credit. unfold bind at 1, lift. rewrite Hw. apply (Hsend 0x0C).
  - unfold debit. unfold bind at 1, lift. rewrite Hw. apply (Hsend 0xDC).
  - intros c' t1 t2 rest' E' S'. unfold getValue. unfold bind at 1.
    rewrite (sendCommand_success _ _ _ _ _ _ _ E' S'). unfold lift.
    subst amount. rewrite Hr. reflexivity.
Qed.

Lemma value_amount_round_trip_witness :
  let c := freshCard [Some [0x91; 0x00]] in
  let amount := uintLE 4 ((-2) mod 2 ^ 32) in
  let le := if preferNoLe c then [] else [0x00] in
  credit 1 (-2) c
  = (Ok tt,
     after_tx [[0x90; 0x0C; 0x00; 0x00; 0x05; u8 1] ++ amount ++ le] [] c)
  /\ debit 1 (-2) c
     = (Ok tt,
        after_tx [[0x90; 0xDC; 0x00; 0x00; 0x05; u8 1] ++ amount ++ le] [] c)
  /\ forall (c' : Card) (t1 t2 : Z) (rest' : list (option Buffer)),
       tx_tape (reader c') = Some (frame amount t1 t2) :: rest' ->
       APDU.isSuccess t1 t2 = true ->
       (getValue 1 c').1 = Ok (-2).
Proof.
  apply (value_amount_round_trip (freshCard [Some [0x91; 0x00]]) 1 (-2)
           [] 0x91 0x00 []); [lia | reflexivity | reflexivity].
Defined.

(** ** desfire.ts: key settings *)

Lemma byte_cases (P : Z -> bool) :
  forallb P (map Z.of_nat (seq 0 256)) = true ->
  forall b, 0 <= b < 256 -> P b = true.
Proof.
  intros H b Hb. rewrite forallb_forall in H. apply H.
  apply in_map_iff. exists (Z.to_nat b). split; [lia|].
  apply in_seq. lia.
Qed.

Lemma key_settings_byte_split (b : Z) :
  0 <= b < 256 ->
  js_and b 0x3F = b mod 64 /\ js_and b 0xC0 = 64 * (b / 64).
Proof.
  intros Hb.
  pose proof (byte_cases
    (fun b => (js_and b 0x3F =? b mod 64) && (js_and b 0xC0 =? 64 * (b / 64))))
    as H.
  specialize (H ltac:(vm_compute; reflexivity) b Hb). cbv beta in H.
  apply andb_true_iff in H as [H1 H2].
  split; apply Z.eqb_eq; assumption.
Qed.

Lemma key_count_and_type_pack (numKeys keyType : Z) :
  0 <= numKeys < 64 ->
  In keyType [0x00; 0x40; 0x80; 0xC0] ->
  u8 (js_or numKeys keyType) = numKeys + keyType.
Proof.
  intros Hn Hk.
  assert (Hb : 0 <= numKeys < 256) by lia.
  pose proof (byte_cases
    (fun n => (64 <=? n)
              || forallb (fun k => u8 (js_or n k) =? n + k)
                         [0x00; 0x40; 0x80; 0xC0])
    ltac:(vm_compute; reflexivity) numKeys Hb) as H.
  cbv beta in H.
  destruct (Z.leb_spec 64 numKeys); [lia|]. cbn [orb] in H.
  rewrite forallb_forall in H. apply Z.eqb_eq. apply H. exact Hk.
Qed.

(** X21: [getKeySettings] splits the second byte of the answer into
    the key count (its low six bits) and the key type (its high two
    bits, left in place), returns the first byte as the settings, and
    throws when the answer has fewer than two bytes. *)
Theorem getKeySettings_decodes (c : Card) (d : Buffer) (s1 s2 : Z)
    (rest : list (option Buffer)) :
  isBytes d ->
  tx_tape (reader c) = Some (frame d s1 s2) :: rest ->
  APDU.isSuccess s1 s2 = true ->
  (getKeySettings c).1
  = match d with
    | ks :: b1 :: _ =>
        Ok {| settings := ks; maxKeys := b1 mod 64;
              ksKeyType := 64 * (b1 / 64) |}
    | _ => Throw InvalidGetKeySettings
    end.
Proof.
  intros Hd E S. unfold getKeySettings. unfold bind at 1.
  rewrite (sendCommand_success _ _ _ _ _ _ _ E S).
  destruct d as [|ks [|b1 more]]; [reflexivity | reflexivity |].
  cbn [length Nat.ltb Nat.leb lookup list_lookup default].
  apply Forall_cons in Hd as [_ Hd]. apply Forall_cons in Hd as [Hb _].
  unfold id.
  destruct (key_settings_byte_split b1 Hb) as [-> ->]. reflexivity.
Qed.

Lemma getKeySettings_decodes_witness :
  (getKeySettings (freshCard [Some [0x0F; 0x85; 0x91; 0x00]])).1
  = Ok {| settings := 0x0F; maxKeys := 0x85 mod 64;
          ksKeyType := 64 * (0x85 / 64) |}.
Proof.
  apply (getKeySettings_decodes (freshCard [Some [0x0F; 0x85; 0x91; 0x00]])
           [0x0F; 0x85] 0x91 0x00 []);
    [repeat constructor; lia | reflexivity | reflexivity].
Defined.

(** X22: [createApplication] packs the key count and the key type into
    one byte, and [getKeySettings] unpacks a byte of that layout: for a
    key count below 64 and a key type among 00, 40, 80 and C0, the byte
    sent is their sum, and an answer carrying that byte is decoded to
    the same count and type. *)
Theorem key_count_and_type_round_trip (c : Card)
    (aid keySetting numKeys keyType : Z) (d : Buffer) (s1 s2 : Z)
    (rest : list (option Buffer)) :
  0 <= aid < 2 ^ 24 ->
  0 <= numKeys < 64 ->
  In keyType [0x00; 0x40; 0x80; 0xC0] ->
  tx_tape (reader c) = Some (frame d s1 s2) :: rest ->
  APDU.isSuccess s1 s2 = true ->
  createApplication aid keySetting numKeys keyType c
  = (Ok tt,
     after_tx [[0x90; 0xCA; 0x00; 0x00; 0x05] ++ uintLE 3 aid
               ++ [u8 keySetting; numKeys + keyType]
               ++ (if preferNoLe c then [] else [0x00])] rest c)
  /\ forall (c' : Card) (ks t1 t2 : Z) (rest' : list (option Buffer)),
       tx_tape (reader c')
       = Some (frame [ks; numKeys + keyType] t1 t2) :: rest' ->
       APDU.isSuccess t1 t2 = true ->
       (getKeySettings c').1
       = Ok {| settings := ks; maxKeys := numKeys; ksKeyType := keyType |}.
Proof.
  intros Ha Hn Hk E S. split.
  - unfold createApplication. unfold bind at 1, lift. unfold writeUIntLE3.
    rewrite (proj2 (Z.leb_le _ _) (proj1 Ha)), (proj2 (Z.ltb_lt _ _) (proj2 Ha)).
    cbn [andb]. unfold bind at 1.
    rewrite (sendCommand_success _ _ _ _ _ _ _ E S).
    rewrite encodeCommand_data
      by (intros H; apply (f_equal length) in H;
          rewrite length_app, length_uintLE in H; discriminate).
    rewrite length_app, length_uintLE. cbn [length Nat.add].
    rewrite (key_count_and_type_pack _ _ Hn Hk).
    unfold ret. do 3 f_equal. cbn [app]. rewrite <- !app_assoc.
    destruct (preferNoLe c); reflexivity.
  - intros c' ks t1 t2 rest' E' S'.
    unfold getKeySettings. unfold bind at 1.
    rewrite (sendCommand_success _ _ _ _ _ _ _ E' S').
    cbn [length Nat.ltb Nat.leb lookup list_lookup default]. unfold id.
    assert (Hb : 0 <= numKeys + keyType < 256).
    { cbn [In] in Hk. lia. }
    destruct (key_settings_byte_split _ Hb) as [-> ->].
    unfold ret. cbn [fst]. do 2 f_equal.
    + cbn [In] in Hk.
      destruct Hk as [<-|[<-|[<-|[<-|[]]]]];
        [ replace (numKeys + 0) with (numKeys + 0 * 64) by lia
        | replace (numKeys + 64) with (numKeys + 1 * 64) by lia
        | replace (numKeys + 128) with (numKeys + 2 * 64) by lia
        | replace (numKeys + 192) with (numKeys + 3 * 64) by lia ];
        rewrite Z.mod_add by lia; apply Z.mod_small; lia.
    + cbn [In] in Hk.
      destruct Hk as [<-|[<-|[<-|[<-|[]]]]];
        [ replace (numKeys + 0) with (numKeys + 0 * 64) by lia
        | replace (numKeys + 64) with (numKeys + 1 * 64) by lia
        | replace (numKeys + 128) with (numKeys + 2 * 64) by lia
        | replace (numKeys + 192) with (numKeys + 3 * 64) by lia ];
        rewrite Z.div_add by lia; rewrite Z.div_small by lia; lia.
Qed.

Lemma key_count_and_type_round_trip_witness :
  let c := freshCard [Some [0x91; 0x00]] in
  createApplication 0x123456 0x0F 5 0x80 c
  = (Ok tt,
     after_tx [[0x90; 0xCA; 0x00; 0x00; 0x05] ++ uintLE 3 0x123456
               ++ [u8 0x0F; 5 + 0x80]
               ++ (if preferNoLe c then [] else [0x00])] [] c)
  /\ forall (c' : Card) (ks t1 t2 : Z) (rest' : list (option Buffer)),
       tx_tape (reader c') = Some (frame [ks; 5 + 0x80] t1 t2) :: rest' ->
       APDU.isSuccess t1 t2 = true ->
       (getKeySettings c').1
       = Ok {| settings := ks; maxKeys := 5; ksKeyType := 0x80 |}.
Proof.
  apply (key_count_and_type_round_trip (freshCard [Some [0x91; 0x00]])
           0x123456 0x0F 5 0x80 [] 0x91 0x00 []);
    [lia | lia | cbn; tauto | reflexivity | reflexivity].
Defined.


(** ** desfire.ts: getVersion *)

Lemma sendNoData_frame (withLe : bool) (ins : Z) (d : Buffer) (s1 s2 : Z)
    (rest : list (option Buffer)) (c : Card) :
  tx_tape (reader c) = Some (frame d s1 s2) :: rest ->
  sendNoData withLe ins c
  = (Ok (mkParsed s1 s2 d),
     after_tx [[0x90; u8 ins; 0x00; 0x00] ++ (if withLe then [0x00] else [])]
              rest c).
Proof.
  intros E. unfold sendNoData.
  destruct withLe; rewrite (transmitParsed_frame _ _ _ _ _ _ E);
    rewrite (consume_after_tx _ _ _ _ E); reflexivity.
Qed.

Lemma versionFrames_done (fuel : nat) (withLe : bool) (p : Parsed) :
  APDU.isAdditionalFrame (sw1 p) (sw2 p) = false ->
  versionFrames fuel withLe p = ret [].
Proof. intros H. destruct fuel; cbn [versionFrames]; rewrite H; reflexivity. Qed.

(** The continuation loop of [getVersion] runs through the answers
    marked 91 AF and stops at the first other answer, whose status it
    checks. *)
Lemma versionFrames_run (withLe : bool) (frags : list Buffer) :
  forall (fuel : nat) (d dl : Buffer) (s1 s2 : Z)
         (rest : list (option Buffer)) (c : Card),
  tx_tape (reader c) = afFrames frags ++ Some (frame dl s1 s2) :: rest ->
  APDU.isAdditionalFrame s1 s2 = false ->
  (length frags < fuel)%nat ->
  versionFrames fuel withLe (mkParsed 0x91 0xAF d) c
  = (if accepted (mkParsed s1 s2 dl) then Ok (concat frags ++ dl)
     else Throw (GetVersionAFFailed withLe s1 s2),
     after_tx (replicate (S (length frags))
                 ([0x90; 0xAF; 0x00; 0x00] ++ (if withLe then [0x00] else [])))
              rest c).
Proof.
  induction frags as [|f frags IH]; intros fuel d dl s1 s2 rest c E NAF Hf;
    (destruct fuel as [|fuel]; [cbn [length] in Hf; lia|]);
    cbn [versionFrames sw1 sw2];
    change (APDU.isAdditionalFrame 145 175) with true; cbv iota;
    unfold bind at 1.
  - cbn [afFrames map app] in E.
    rewrite (sendNoData_frame _ _ _ _ _ _ _ E).
    destruct (accepted (mkParsed s1 s2 dl)); cbn [negb sw1 sw2 data].
    + rewrite versionFrames_done by exact NAF.
      unfold bind, ret. rewrite app_nil_r. reflexivity.
    + reflexivity.
  - change (afFrames (f :: frags) ++ Some (frame dl s1 s2) :: rest)
      with (Some (frame f 0x91 0xAF)
            :: afFrames frags ++ Some (frame dl s1 s2) :: rest) in E.
    rewrite (sendNoData_frame _ _ _ _ _ _ _ E).
    change (accepted (mkParsed 145 175 f)) with true. cbn [negb data].
    unfold bind at 1.
    rewrite (IH fuel f dl s1 s2 rest
               (after_tx [_] (afFrames frags ++ Some (frame dl s1 s2) :: rest) c)
               eq_refl NAF)
      by (cbn [length] in Hf; lia).
    rewrite after_tx_after_tx.
    destruct (accepted (mkParsed s1 s2 dl)); unfold ret; cbn [concat];
      rewrite <- ?app_assoc; reflexivity.
Qed.

(** One pass of [trySequence]: GET_VERSION, then continuation fetches
    while the card answers 91 AF. *)
Lemma trySequence_run (withLe : bool) (frags : list Buffer) (dl : Buffer)
    (s1 s2 : Z) (rest : list (option Buffer)) (c : Card) :
  tx_tape (reader c) = afFrames frags ++ Some (frame dl s1 s2) :: rest ->
  APDU.isAdditionalFrame s1 s2 = false ->
  let le := if withLe then [0x00] else [] in
  trySequence withLe c
  = (if accepted (mkParsed s1 s2 dl) then Ok (concat frags ++ dl)
     else Throw (match frags with
                 | [] => GetVersionFailed withLe s1 s2
                 | _ :: _ => GetVersionAFFailed withLe s1 s2
                 end),
     after_tx (([0x90; 0x60; 0x00; 0x00] ++ le)
               :: replicate (length frags) ([0x90; 0xAF; 0x00; 0x00] ++ le))
              rest c).
Proof.
  intros E NAF le. subst le. unfold trySequence. unfold bind at 1.
  destruct frags as [|f frags].
  - cbn [afFrames map app] in E.
    rewrite (sendNoData_frame _ _ _ _ _ _ _ E).
    destruct (accepted (mkParsed s1 s2 dl)); cbn [negb sw1 sw2 data].
    + unfold bind at 1. rewrite versionFrames_done by exact NAF.
      unfold ret. rewrite app_nil_r. reflexivity.
    + reflexivity.
  - change (afFrames (f :: frags) ++ Some (frame dl s1 s2) :: rest)
      with (Some (frame f 0x91 0xAF)
            :: afFrames frags ++ Some (frame dl s1 s2) :: rest) in E.
    rewrite (sendNoData_frame _ _ _ _ _ _ _ E).
    change (accepted (mkParsed 145 175 f)) with true. cbn [negb data].
    unfold bind at 1.
    rewrite (versionFrames_run withLe frags _ f dl s1 s2 rest
               (after_tx [_] (afFrames frags ++ Some (frame dl s1 s2) :: rest) c)
               eq_refl NAF).
    + rewrite after_tx_after_tx.
      destruct (accepted (mkParsed s1 s2 dl)); unfold ret; cbn [concat];
        rewrite <- ?app_assoc; reflexivity.
    + unfold pending, after_tx, set_reader. cbn [reader tx_tape].
      rewrite length_app. unfold afFrames. rewrite length_map. cbn [length].
      lia.
Qed.

Lemma version_blocks (all : Buffer) :
  slice all 0 (Nat.min 7 (length all)) = take 7 all
  /\ slice all 7 (Nat.min (7 * 2) (length all)) = take 7 (drop 7 all)
  /\ slice all (7 * 2) (length all) = drop 14 all.
Proof.
  unfold slice. rewrite drop_0, Nat.sub_0_r. repeat split.
  - destruct (Nat.le_gt_cases 7 (length all)).
    + rewrite Nat.min_l by lia. reflexivity.
    + rewrite Nat.min_r by lia. rewrite !take_ge by lia. reflexivity.
  - change (7 * 2)%nat with 14%nat.
    destruct (Nat.le_gt_cases 14 (length all)).
    + rewrite Nat.min_l by lia. reflexivity.
    + rewrite Nat.min_r by lia.
      rewrite !take_ge by (rewrite length_drop; lia). reflexivity.
  - change (7 * 2)%nat with 14%nat.
    apply take_ge. rewrite length_drop. lia.
Qed.

(** X23: [getVersion] opens in the no-Le form whatever the card
    object's Le preference is.  When the card answers that form with
    continuation frames and a final success, the method sends one
    GET_VERSION and one continuation fetch per 91 AF answer, all without
    Le, sets the preference to no-Le, and returns the collected payload
    cut at bytes 7 and 14 into hardware, software and UID, which
    together are the whole payload. *)
Theorem getVersion_no_le_style (c : Card) (frags : list Buffer) (dl : Buffer)
    (s1 s2 : Z) (rest : list (option Buffer)) :
  acr122u (reader c) = false ->
  tx_tape (reader c) = afFrames frags ++ Some (frame dl s1 s2) :: rest ->
  APDU.isSuccess s1 s2 = true ->
  let all := concat frags ++ dl in
  getVersion c
  = (Ok {| hardware := take 7 all; software := take 7 (drop 7 all);
           uid := drop 14 all |},
     set_preferNoLe true
       (after_tx ([0x90; 0x60; 0x00; 0x00]
                  :: replicate (length frags) [0x90; 0xAF; 0x00; 0x00])
                 rest c))
  /\ take 7 all ++ take 7 (drop 7 all) ++ drop 14 all = all.
Proof.
  intros _ E S all. split.
  - unfold getVersion. unfold bind at 1. unfold tryCatch.
    rewrite (trySequence_run false frags dl s1 s2 rest c E
               (isSuccess_not_af _ _ S)).
    unfold accepted. cbn [sw1 sw2]. rewrite S. cbn [orb].
    unfold bind, modify, ret. subst all. cbv zeta.
    destruct (version_blocks (concat frags ++ dl)) as (-> & -> & ->).
    reflexivity.
  - transitivity (take 7 all ++ drop 7 all); [f_equal | apply take_drop].
    change 14%nat with (7 + 7)%nat. rewrite <- drop_drop. apply take_drop.
Qed.

Lemma getVersion_no_le_style_witness :
  let c := freshCard [Some (frame hwBlock 0x91 0xAF);
                      Some (frame swBlock 0x91 0xAF);
                      Some (frame uidBlock 0x91 0x00)] in
  let all := concat [hwBlock; swBlock] ++ uidBlock in
  getVersion c
  = (Ok {| hardware := take 7 all; software := take 7 (drop 7 all);
           uid := drop 14 all |},
     set_preferNoLe true
       (after_tx ([0x90; 0x60; 0x00; 0x00]
                  :: replicate (length [hwBlock; swBlock])
                               [0x90; 0xAF; 0x00; 0x00])
                 [] c))
  /\ take 7 all ++ take 7 (drop 7 all) ++ drop 14 all = all.
Proof.
  exact (getVersion_no_le_style
           (freshCard [Some (frame hwBlock 0x91 0xAF);
                       Some (frame swBlock 0x91 0xAF);
                       Some (frame uidBlock 0x91 0x00)])
           [hwBlock; swBlock] uidBlock 0x91 0x00 [] eq_refl eq_refl eq_refl).
Defined.


Lemma resetToPicc_accepted (ds : Buffer) (t1 t2 : Z)
    (rest : list (option Buffer)) (c : Card) :
  tx_tape (reader c) = Some (frame ds t1 t2) :: rest ->
  APDU.isSuccess t1 t2 = true ->
  resetToPicc c
  = (Ok tt,
     after_tx [[0x90; 0x5A; 0x00; 0x00; 0x03; 0x00; 0x00; 0x00]
               ++ (if preferNoLe c then [] else [0x00])] rest c).
Proof.
  intros E S. unfold resetToPicc. unfold bind at 1, attempt.
  rewrite (sendCommand_success _ _ _ _ _ _ _ E S).
  rewrite encodeCommand_data by discriminate.
  destruct (preferNoLe c); reflexivity.
Qed.

Lemma not_accepted_not_af (s1 s2 : Z) (d : Buffer) :
  accepted (mkParsed s1 s2 d) = false -> APDU.isAdditionalFrame s1 s2 = false.
Proof.
  unfold accepted. cbn [sw1 sw2]. intros H.
  apply orb_false_iff in H as [_ H]. exact H.
Qed.

(** X24: when the no-Le pass of [getVersion] meets a rejected status,
    on GET_VERSION or on a continuation fetch, the payload gathered so
    far is dropped, the PICC level is selected (here: accepted by the
    card), and the whole exchange is repeated with Le.  If that pass
    succeeds the result is its payload alone and the preference is set
    to with-Le.  The PICC select is not recorded: [currentApp] keeps its
    value. *)
Theorem getVersion_falls_back_to_le (c : Card) (pre frags : list Buffer)
    (d ds dl : Buffer) (e1 e2 t1 t2 s1 s2 : Z)
    (rest : list (option Buffer)) :
  acr122u (reader c) = false ->
  tx_tape (reader c)
  = afFrames pre ++ Some (frame d e1 e2) :: Some (frame ds t1 t2)
    :: afFrames frags ++ Some (frame dl s1 s2) :: rest ->
  accepted (mkParsed e1 e2 d) = false ->
  APDU.isSuccess t1 t2 = true ->
  APDU.isSuccess s1 s2 = true ->
  let all := concat frags ++ dl in
  let out := getVersion c in
  out.1 = Ok {| hardware := take 7 all; software := take 7 (drop 7 all);
                uid := drop 14 all |}
  /\ tx_log (reader out.2)
     = tx_log (reader c)
       ++ ([0x90; 0x60; 0x00; 0x00]
           :: replicate (length pre) [0x90; 0xAF; 0x00; 0x00])
       ++ [[0x90; 0x5A; 0x00; 0x00; 0x03; 0x00; 0x00; 0x00]
           ++ (if preferNoLe c then [] else [0x00])]
       ++ ([0x90; 0x60; 0x00; 0x00; 0x00]
           :: replicate (length frags) [0x90; 0xAF; 0x00; 0x00; 0x00])
  /\ tx_tape (reader out.2) = rest
  /\ preferNoLe out.2 = false
  /\ currentApp out.2 = currentApp c.
Proof.
  intros _ E NA St Ss all out.
  assert (Hrun : getVersion c
    = (Ok {| hardware := take 7 all; software := take 7 (drop 7 all);
             uid := drop 14 all |},
       set_preferNoLe false
         (after_tx
            (([0x90; 0x60; 0x00; 0x00]
              :: replicate (length pre) [0x90; 0xAF; 0x00; 0x00])
             ++ [[0x90; 0x5A; 0x00; 0x00; 0x03; 0x00; 0x00; 0x00]
                 ++ (if preferNoLe c then [] else [0x00])]
             ++ ([0x90; 0x60; 0x00; 0x00; 0x00]
                 :: replicate (length frags) [0x90; 0xAF; 0x00; 0x00; 0x00]))
            rest c))).
  { unfold getVersion. unfold bind at 1. unfold tryCatch.
    rewrite (trySequence_run false pre d e1 e2 _ c E
               (not_accepted_not_af _ _ _ NA)).
    rewrite NA. cbv iota. unfold bind at 1. unfold bind at 1.
    erewrite resetToPicc_accepted; [|reflexivity|exact St].
    unfold bind at 1.
    erewrite (trySequence_run true frags dl s1 s2 rest);
      [|reflexivity|exact (isSuccess_not_af _ _ Ss)].
    unfold accepted. cbn [sw1 sw2]. rewrite Ss. cbn [orb].
    unfold bind, modify, ret. cbv zeta.
    destruct (version_blocks (concat frags ++ dl)) as (-> & -> & ->).
    rewrite !after_tx_after_tx, <- ?app_assoc. reflexivity. }
  subst out. rewrite Hrun. cbn [fst snd].
  unfold set_preferNoLe, after_tx, set_reader.
  cbn [reader tx_log tx_tape preferNoLe currentApp].
  repeat split.
Qed.

Lemma getVersion_falls_back_to_le_witness :
  let c := freshCard [Some (frame [] 0x91 0x1C); Some (frame [] 0x91 0x00);
                      Some (frame hwBlock 0x91 0xAF);
                      Some (frame swBlock 0x91 0xAF);
                      Some (frame uidBlock 0x91 0x00)] in
  let all := concat [hwBlock; swBlock] ++ uidBlock in
  let out := getVersion c in
  out.1 = Ok {| hardware := take 7 all; software := take 7 (drop 7 all);
                uid := drop 14 all |}
  /\ tx_log (reader out.2)
     = tx_log (reader c)
       ++ ([0x90; 0x60; 0x00; 0x00]
           :: replicate (length (@nil Buffer)) [0x90; 0xAF; 0x00; 0x00])
       ++ [[0x90; 0x5A; 0x00; 0x00; 0x03; 0x00; 0x00; 0x00]
           ++ (if preferNoLe c then [] else [0x00])]
       ++ ([0x90; 0x60; 0x00; 0x00; 0x00]
           :: replicate (length [hwBlock; swBlock])
                        [0x90; 0xAF; 0x00; 0x00; 0x00])
  /\ tx_tape (reader out.2) = []
  /\ preferNoLe out.2 = false
  /\ currentApp out.2 = currentApp c.
Proof.
  exact (getVersion_falls_back_to_le
           (freshCard [Some (frame [] 0x91 0x1C); Some (frame [] 0x91 0x00);
                       Some (frame hwBlock 0x91 0xAF);
                       Some (frame swBlock 0x91 0xAF);
                       Some (frame uidBlock 0x91 0x00)])
           [] [hwBlock; swBlock] [] [] uidBlock 0x91 0x1C 0x91 0x00 0x91 0x00
           [] eq_refl eq_refl eq_refl eq_refl eq_refl).
Defined.

Lemma resetToPicc_transmits_first (c : Card) :
  (resetToPicc c).1 = Ok tt
  /\ exists more,
       tx_log (reader (resetToPicc c).2)
       = tx_log (reader c)
         ++ ([0x90; 0x5A; 0x00; 0x00; 0x03; 0x00; 0x00; 0x00]
             ++ (if preferNoLe c then [] else [0x00])) :: more.
Proof.
  destruct (sendCommand_transmits_first DesfireCommand.SELECT_APPLICATION
              (Some [0x00; 0x00; 0x00]) c) as [more Hmore].
  rewrite encodeCommand_data in Hmore by discriminate.
  unfold resetToPicc, bind, attempt, ret.
  destruct (sendCommand _ _ c) as [[r|e] c1]; cbn [fst snd] in Hmore |- *;
    (split; [reflexivity|]); exists more; rewrite Hmore;
    destruct (preferNoLe c); reflexivity.
Qed.

(** X25: when both passes of [getVersion] meet a rejected status, on
    GET_VERSION or on a continuation fetch, the method throws the error
    of the with-Le pass, which names the stage and the status word; the
    no-Le error is lost.  After each rejected pass it sends a select of
    the PICC level in the Le form preferred at that moment, and
    whatever that select exchanges with the card (including the Le
    preference it leaves) is kept. *)
Theorem getVersion_throws_last_error (c : Card) (pre pre' : list Buffer)
    (d d' : Buffer) (e1 e2 e1' e2' : Z) (rest1 rest2 : list (option Buffer)) :
  acr122u (reader c) = false ->
  tx_tape (reader c) = afFrames pre ++ Some (frame d e1 e2) :: rest1 ->
  accepted (mkParsed e1 e2 d) = false ->
  let noLePass := [0x90; 0x60; 0x00; 0x00]
                  :: replicate (length pre) [0x90; 0xAF; 0x00; 0x00] in
  let lePass := [0x90; 0x60; 0x00; 0x00; 0x00]
                :: replicate (length pre') [0x90; 0xAF; 0x00; 0x00; 0x00] in
  let select (prefer : bool) :=
    [0x90; 0x5A; 0x00; 0x00; 0x03; 0x00; 0x00; 0x00]
    ++ (if prefer then [] else [0x00]) in
  let c1 := (resetToPicc (after_tx noLePass rest1 c)).2 in
  tx_tape (reader c1) = afFrames pre' ++ Some (frame d' e1' e2') :: rest2 ->
  accepted (mkParsed e1' e2' d') = false ->
  let out := getVersion c in
  out = (Throw (match pre' with
                | [] => GetVersionFailed true e1' e2'
                | _ :: _ => GetVersionAFFailed true e1' e2'
                end),
         (resetToPicc (after_tx lePass rest2 c1)).2)
  /\ exists more1 more2,
       tx_log (reader c1)
       = tx_log (reader c) ++ noLePass ++ select (preferNoLe c) :: more1
       /\ tx_log (reader out.2)
          = tx_log (reader c1) ++ lePass ++ select (preferNoLe c1) :: more2.
Proof.
  intros _ E NA noLePass lePass select c1 E' NA' out.
  assert (Hrun : getVersion c
    = (Throw (match pre' with
              | [] => GetVersionFailed true e1' e2'
              | _ :: _ => GetVersionAFFailed true e1' e2'
              end),
       (resetToPicc (after_tx lePass rest2 c1)).2)).
  { unfold getVersion. unfold bind at 1. unfold tryCatch.
    rewrite (trySequence_run false pre d e1 e2 _ c E
               (not_accepted_not_af _ _ _ NA)).
    rewrite NA. cbv iota. unfold bind at 1. unfold bind at 1.
    change ([144; 96; 0; 0] ++ []) with [0x90; 0x60; 0x00; 0x00].
    change ([144; 175; 0; 0] ++ []) with [0x90; 0xAF; 0x00; 0x00].
    fold noLePass.
    assert (R1 : resetToPicc (after_tx noLePass rest1 c) = (Ok tt, c1)).
    { unfold c1.
      destruct (resetToPicc_transmits_first (after_tx noLePass rest1 c))
        as [Hok1 _].
      destruct (resetToPicc (after_tx noLePass rest1 c)) as [r1 x1].
      cbn [fst snd] in Hok1 |- *. rewrite Hok1. reflexivity. }
    rewrite R1. unfold bind at 1.
    rewrite (trySequence_run true pre' d' e1' e2' _ c1 E'
               (not_accepted_not_af _ _ _ NA')).
    rewrite NA'. cbv iota. unfold bind at 1.
    change ([144; 96; 0; 0] ++ [0]) with [0x90; 0x60; 0x00; 0x00; 0x00].
    change ([144; 175; 0; 0] ++ [0]) with [0x90; 0xAF; 0x00; 0x00; 0x00].
    fold lePass.
    destruct (resetToPicc_transmits_first (after_tx lePass rest2 c1))
      as [Hok2 _].
    destruct (resetToPicc (after_tx lePass rest2 c1)) as [r2 c2].
    cbn [fst snd] in Hok2. subst r2. reflexivity. }
  split; [exact Hrun|].
  subst out. rewrite Hrun. cbn [snd].
  destruct (resetToPicc_transmits_first (after_tx noLePass rest1 c))
    as [_ [more1 H1]].
  destruct (resetToPicc_transmits_first (after_tx lePass rest2 c1))
    as [_ [more2 H2]].
  exists more1, more2. split.
  - subst c1. rewrite H1. unfold after_tx, set_reader.
    cbn [reader tx_log preferNoLe]. rewrite <- app_assoc. reflexivity.
  - rewrite H2. unfold after_tx, set_reader.
    cbn [reader tx_log preferNoLe]. rewrite <- app_assoc. reflexivity.
Qed.

Lemma getVersion_throws_last_error_witness :
  let rest2 := [Some (frame [] 0x91 0x00)] in
  let rest1 := [Some (frame [] 0x91 0x7E); Some (frame [] 0x91 0x00);
                Some (frame hwBlock 0x91 0xAF); Some (frame [] 0x91 0xCA)]
               ++ rest2 in
  let c := freshCard (Some (frame [] 0x91 0x1C) :: rest1) in
  let noLePass := [[0x90; 0x60; 0x00; 0x00]] in
  let lePass := [[0x90; 0x60; 0x00; 0x00; 0x00];
                 [0x90; 0xAF; 0x00; 0x00; 0x00]] in
  let select (prefer : bool) :=
    [0x90; 0x5A; 0x00; 0x00; 0x03; 0x00; 0x00; 0x00]
    ++ (if prefer then [] else [0x00]) in
  let c1 := (resetToPicc (after_tx noLePass rest1 c)).2 in
  let out := getVersion c in
  out = (Throw (GetVersionAFFailed true 0x91 0xCA),
         (resetToPicc (after_tx lePass rest2 c1)).2)
  /\ exists more1 more2,
       tx_log (reader c1)
       = tx_log (reader c) ++ noLePass ++ select (preferNoLe c) :: more1
       /\ tx_log (reader out.2)
          = tx_log (reader c1) ++ lePass ++ select (preferNoLe c1) :: more2.
Proof.
  exact (getVersion_throws_last_error
           (freshCard [Some (frame [] 0x91 0x1C); Some (frame [] 0x91 0x7E);
                       Some (frame [] 0x91 0x00);
                       Some (frame hwBlock 0x91 0xAF);
                       Some (frame [] 0x91 0xCA); Some (frame [] 0x91 0x00)])
           [] [hwBlock] [] [] 0x91 0x1C 0x91 0xCA
           [Some (frame [] 0x91 0x7E); Some (frame [] 0x91 0x00);
            Some (frame hwBlock 0x91 0xAF);
            Some (frame [] 0x91 0xCA); Some (frame [] 0x91 0x00)]
           [Some (frame [] 0x91 0x00)]
           eq_refl eq_refl eq_refl eq_refl eq_refl).
Defined.

(** The same exchange on the wire: the first select meets a length
    error and is repeated with Le, so the preference has flipped when
    the method throws. *)
Example getVersion_rejected_twice_scenario :
  let c := freshCard [Some (frame [] 0x91 0x1C); Some (frame [] 0x91 0x7E);
                      Some (frame [] 0x91 0x00);
                      Some (frame hwBlock 0x91 0xAF);
                      Some (frame [] 0x91 0xCA); Some (frame [] 0x91 0x00)] in
  let out := getVersion c in
  out.1 = Throw (GetVersionAFFailed true 0x91 0xCA)
  /\ preferNoLe c = true
  /\ preferNoLe out.2 = false
  /\ tx_log (reader out.2)
     = [[0x90; 0x60; 0x00; 0x00];
        [0x90; 0x5A; 0x00; 0x00; 0x03; 0x00; 0x00; 0x00];
        [0x90; 0x5A; 0x00; 0x00; 0x03; 0x00; 0x00; 0x00; 0x00];
        [0x90; 0x60; 0x00; 0x00; 0x00];
        [0x90; 0xAF; 0x00; 0x00; 0x00];
        [0x90; 0x5A; 0x00; 0x00; 0x03; 0x00; 0x00; 0x00; 0x00]].
Proof. vm_compute. repeat split. Qed.


(** ** keyManager.ts: setKey, getKey, getKeyVersion *)

(** What [setKey] does in each of its two outcomes. *)
Lemma setKey_cases (km : gmap Z KeySet) (app keyNo : Z) (key : Buffer)
    (version : Z) (kt : option KeyType) :
  let ks0 := default {| appId := app; keyType := default AES kt;
                        keys := ∅; keyVersions := ∅ |} (km !! app) in
  let type := default (keyType ks0) kt in
  KeyManager.setKey km app keyNo key version kt
  = if (length key =? KeyManager.expectedLen type)%nat
    then (Ok tt,
          <[app := {| appId := appId ks0; keyType := type;
                      keys := <[keyNo := key]> (keys ks0);
                      keyVersions := <[keyNo := version]> (keyVersions ks0) |}]>
            km)
    else (Throw (KeyMustBeExactly type (KeyManager.expectedLen type)),
          <[app := ks0]> km).
Proof.
  unfold KeyManager.setKey.
  destruct (km !! app) as [ks|] eqn:E; cbn [default];
    destruct (length key =? _)%nat; cbn [negb]; try reflexivity.
  - rewrite insert_id by exact E. reflexivity.
  - rewrite insert_insert_eq. reflexivity.
Qed.

(** X26: after a [setKey] that returned, [getKey] for that application
    and key number gives the stored key and [getKeyVersion] the stored
    version; the keys of other applications are as before, and so are
    the other keys of this application. *)
Theorem setKey_then_getKey (km km' : gmap Z KeySet) (app keyNo : Z)
    (key : Buffer) (version : Z) (kt : option KeyType) :
  KeyManager.setKey km app keyNo key version kt = (Ok tt, km') ->
  getKey km' app keyNo = Ok key
  /\ KeyManager.getKeyVersion km' app keyNo = Ok version
  /\ (forall app' k, app' <> app -> getKey km' app' k = getKey km app' k)
  /\ (forall k b, k <> keyNo ->
        getKey km' app k = Ok b <-> getKey km app k = Ok b).
Proof.
  rewrite setKey_cases. cbv zeta.
  destruct (length key =? _)%nat; [|discriminate].
  intros E. injection E as <-.
  unfold getKey, KeyManager.getKeyVersion.
  rewrite !lookup_insert_eq. cbn [keys keyVersions].
  rewrite !lookup_insert_eq. cbn [default].
  repeat split.
  - intros app' k Hne. rewrite lookup_insert_ne by congruence. reflexivity.
  - rewrite lookup_insert_ne by congruence.
    destruct (km !! app) as [ks|]; cbn [default keys]; unfold id.
    + exact (fun H => H).
    + rewrite lookup_empty. discriminate.
  - rewrite lookup_insert_ne by congruence.
    destruct (km !! app) as [ks|]; cbn [default keys]; unfold id.
    + exact (fun H => H).
    + discriminate.
Qed.

Lemma setKey_then_getKey_witness :
  let km' := <[0x123456 := {| appId := 0x123456; keyType := AES;
                              keys := <[1 := K0]> ∅;
                              keyVersions := <[1 := 7]> ∅ |}]> ∅ in
  getKey km' 0x123456 1 = Ok K0
  /\ KeyManager.getKeyVersion km' 0x123456 1 = Ok 7
  /\ (forall app' k, app' <> 0x123456 -> getKey km' app' k = getKey ∅ app' k)
  /\ (forall k b, k <> 1 ->
        getKey km' 0x123456 k = Ok b <-> getKey ∅ 0x123456 k = Ok b).
Proof.
  exact (setKey_then_getKey ∅ _ 0x123456 1 K0 7 None eq_refl).
Defined.

(** X27: a [setKey] for an application that has no key set yet, with a
    key of the wrong length, throws, but it has already registered an
    empty key set for the application.  Afterwards [getKey] reports a
    missing key where it reported a missing key set before, and the key
    type given to the failed call (AES when none was given) decides the
    length a later [setKey] without a type accepts. *)
Theorem failed_setKey_registers_key_set (km : gmap Z KeySet) (app keyNo : Z)
    (key : Buffer) (version : Z) (kt : option KeyType) :
  km !! app = None ->
  length key <> KeyManager.expectedLen (default AES kt) ->
  let type := default AES kt in
  let out := KeyManager.setKey km app keyNo key version kt in
  out.1 = Throw (KeyMustBeExactly type (KeyManager.expectedLen type))
  /\ (forall k, getKey km app k = Throw (KeySetNotFound app)
                /\ getKey out.2 app k = Throw (KeyNotFound app k))
  /\ (forall k key' v,
        (KeyManager.setKey out.2 app k key' v None).1 = Ok tt
        <-> length key' = KeyManager.expectedLen type).
Proof.
  intros Hnone Hlen type out. subst out.
  rewrite setKey_cases. cbv zeta. rewrite Hnone. cbn [default keyType].
  replace (default AES kt) with type by reflexivity.
  assert (Hd : default type kt = type) by (subst type; destruct kt; reflexivity).
  rewrite Hd.
  destruct (Nat.eqb_spec (length key) (KeyManager.expectedLen type)) as [|_];
    [contradiction|].
  cbn [fst snd]. split; [reflexivity|]. split.
  - intros k. split.
    + unfold getKey. rewrite Hnone. reflexivity.
    + unfold getKey. rewrite lookup_insert_eq. cbn [keys].
      rewrite lookup_empty. reflexivity.
  - intros k key' v. rewrite setKey_cases. cbv zeta.
    rewrite lookup_insert_eq. cbn [default from_option]. unfold id.
    cbn [keyType].
    destruct (Nat.eqb_spec (length key') (KeyManager.expectedLen type));
      cbn [fst]; split; intros; congruence.
Qed.

Lemma failed_setKey_registers_key_set_witness :
  let type := default AES (Some TripleDES) in
  let out := KeyManager.setKey ∅ 0x123456 0 K0 0 (Some TripleDES) in
  out.1 = Throw (KeyMustBeExactly type (KeyManager.expectedLen type))
  /\ (forall k, getKey ∅ 0x123456 k = Throw (KeySetNotFound 0x123456)
                /\ getKey out.2 0x123456 k = Throw (KeyNotFound 0x123456 k))
  /\ (forall k key' v,
        (KeyManager.setKey out.2 0x123456 k key' v None).1 = Ok tt
        <-> length key' = KeyManager.expectedLen type).
Proof.
  apply (failed_setKey_registers_key_set ∅ 0x123456 0 K0 0 (Some TripleDES));
    [reflexivity | cbn; lia].
Defined.


(** ** desfire.ts: what the handshakes leave behind *)

Lemma onReturn_throw {A} (P : Card -> Prop) (e : Error)
    (Q : A -> Card -> Prop) : onReturn P (@throw A e) Q.
Proof. intros c a c' _ E. discriminate. Qed.

Lemma onReturn_bind {A B} (P : Card -> Prop) (m : M A) (k : A -> M B)
    (Q : B -> Card -> Prop) :
  (forall c, P c -> P (m c).2) -> (forall a, onReturn P (k a) Q) ->
  onReturn P (bind m k) Q.
Proof.
  intros Hm Hk c b c' HP. unfold bind. specialize (Hm c HP).
  destruct (m c) as [[a|e1] c1]; cbn in Hm; [|discriminate].
  apply Hk. exact Hm.
Qed.

Lemma same_session_tryTransmitAttempts (attempts : list (Buffer * bool)) :
  preserves same_session (tryTransmitAttempts attempts).
Proof.
  apply preserves_tryTransmitAttempts; [apply _ | | |].
  - intros apdu c. unfold transmit.
    destruct (tx_tape (reader c)) as [|[r|] t]; cbn; unfold same_session;
      cbn; tauto.
  - intros apdu c. unfold transmitViaAcr122U.
    destruct (esc_tape (reader c)) as [|[r|] t]; cbn; unfold same_session;
      cbn; tauto.
  - intros b c. unfold same_session. cbn. tauto.
Qed.

(** A step that leaves the session as it is keeps a state within the
    session of [c0]. *)
Lemma same_session_step {A} (c0 : Card) (m : M A) :
  preserves same_session m ->
  forall c, same_session c0 c -> same_session c0 (m c).2.
Proof. intros Hm c Hc. etransitivity; [exact Hc | apply Hm]. Qed.

Ltac session_step :=
  apply same_session_step;
  first [ apply same_session_sendCommand
        | apply same_session_generateRandom
        | apply same_session_tryTransmitAttempts
        | apply (preserves_lift same_session)
        | apply (preserves_gets same_session) ].

Section SessionAfterAuthentication.
Context `{NodeCrypto}.

(** X28: [authenticateDES] never touches the session keys.  Whatever
    its outcome, the key buffers, the references to the session keys,
    the transaction id and the command counter are those the card object
    had; when it throws the whole authentication state is unchanged
    (an earlier session stays authenticated), and when it returns only
    [authenticated] and [authenticatedKeyNo] have been set. *)
Theorem authenticateDES_keeps_session_keys (keyNo : Z) (key : option Buffer)
    (c : Card) :
  let out := authenticateDES keyNo key c in
  keeps_session_keys c out.2
  /\ match out.1 with
     | Ok _ => authenticated (auth out.2) = true
               /\ authenticatedKeyNo (auth out.2) = Some keyNo
     | Throw _ => auth out.2 = auth c
     end.
Proof.
  cbv zeta.
  assert (HT : onThrow (same_session c) (authenticateDES keyNo key)).
  { unfold authenticateDES.
    repeat first
      [ apply onThrow_throw
      | match goal with
        | |- onThrow _ (if ?b then _ else _) => destruct b
        end
      | apply onThrow_bind; [session_step | intros ?]
      | apply onThrow_neverThrows;
        apply neverThrows_bind; [|intros ?]; apply neverThrows_modify ]. }
  assert (HR : onReturn (same_session c) (authenticateDES keyNo key)
                 (fun _ c' => keeps_session_keys c c'
                              /\ authenticated (auth c') = true
                              /\ authenticatedKeyNo (auth c') = Some keyNo)).
  { unfold authenticateDES.
    repeat first
      [ apply onReturn_throw
      | match goal with
        | |- onReturn _ (if ?b then _ else _) _ => destruct b
        end
      | apply onReturn_bind; [session_step | intros ?] ].
    intros c1 r c' [Ha Hh] E. unfold bind, modify in E.
    injection E as _ <-. unfold keeps_session_keys. cbn.
    rewrite Ha, Hh. tauto. }
  specialize (HT c). specialize (HR c).
  destruct (authenticateDES keyNo key c) as [[a|e] c'].
  - destruct (HR a c' ltac:(reflexivity) eq_refl) as (Hk & Ha & Hn).
    cbn [fst snd]. tauto.
  - destruct (HT e c' ltac:(reflexivity) eq_refl) as [Ha Hh].
    cbn [fst snd]. unfold keeps_session_keys. rewrite Ha, Hh. tauto.
Qed.

Lemma same_session_resolveKey (keyNo : Z) (key : option Buffer) :
  preserves same_session (resolveKey keyNo key).
Proof. intros c. rewrite resolveKey_state. reflexivity. Qed.

Ltac never_throws :=
  repeat first
    [ apply neverThrows_ret
    | apply neverThrows_modify
    | apply neverThrows_newBuffer
    | apply neverThrows_lift_ok; apply aesCMAC_ok; assumption
    | apply neverThrows_bind; [|intros ?] ].

Ltac on_throw step :=
  repeat first
    [ apply onThrow_throw
    | match goal with
      | |- onThrow _ (if negb (length ?k =? 16)%nat then _ else _) =>
          destruct (Nat.eqb_spec (length k) 16); cbn [negb]
      | |- onThrow _ (if ?b then _ else _) => destruct b
      | |- onThrow _ (match ?t with Some _ => _ | None => _ end) => destruct t
      end
    | apply onThrow_bind; [step | intros ?]
    | apply onThrow_neverThrows; solve [never_throws] ].

Ltac on_return step :=
  repeat first
    [ apply onReturn_throw
    | match goal with
      | |- onReturn _ (if ?b then _ else _) _ => destruct b
      | |- onReturn _ (match ?t with Some _ => _ | None => _ end) _ =>
          destruct t
      end
    | apply onReturn_bind; [step | intros ?] ].

(** X29: [authenticateEV2NonFirst] does not reset the session.  When it
    throws, the authentication state and the key buffers are exactly as
    before, and without a transaction id it throws before sending
    anything.  When it returns, the card object is authenticated under
    the key number, the transaction id and the command counter are the
    earlier ones, the new session keys are two fresh buffers, and the
    earlier buffers are left as they were. *)
Theorem authenticateEV2NonFirst_continues_session (keyNo : Z)
    (key : option Buffer) (c : Card) :
  let out := authenticateEV2NonFirst keyNo key c in
  match out.1 with
  | Throw e =>
      same_session c out.2
      /\ (transactionId (auth c) = None ->
          e = NonFirstRequiresFirst /\ out.2 = c)
  | Ok _ =>
      authenticated (auth out.2) = true
      /\ authenticatedKeyNo (auth out.2) = Some keyNo
      /\ transactionId (auth out.2) = transactionId (auth c)
      /\ commandCounter (auth out.2) = commandCounter (auth c)
      /\ sessionKeyEnc (auth out.2) = Some (length (heap c))
      /\ sessionKeyMac (auth out.2) = Some (S (length (heap c)))
      /\ (exists kEnc kMac, heap out.2 = heap c ++ [kEnc; kMac])
  end.
Proof.
  cbv zeta.
  assert (HT : onThrow (same_session c) (authenticateEV2NonFirst keyNo key)).
  { unfold authenticateEV2NonFirst, deriveSessionKeyEV2Enc,
      deriveSessionKeyEV2Mac.
    on_throw ltac:(first [session_step
                         | apply same_session_step,
                                 same_session_resolveKey]). }
  assert (HR : onReturn (same_session c) (authenticateEV2NonFirst keyNo key)
    (fun _ c' =>
       authenticated (auth c') = true
       /\ authenticatedKeyNo (auth c') = Some keyNo
       /\ transactionId (auth c') = transactionId (auth c)
       /\ commandCounter (auth c') = commandCounter (auth c)
       /\ sessionKeyEnc (auth c') = Some (length (heap c))
       /\ sessionKeyMac (auth c') = Some (S (length (heap c)))
       /\ (exists kEnc kMac, heap c' = heap c ++ [kEnc; kMac]))).
  { unfold authenticateEV2NonFirst.
    on_return ltac:(first [session_step
                          | apply same_session_step,
                                  same_session_resolveKey]).
    intros c1 r c' [Ha Hh] E. unfold bind, lift, newBuffer, modify in E.
    destruct (deriveSessionKeyEV2Mac _ _ _) as [kMac|]; [|discriminate].
    injection E as _ <-. cbn. rewrite Ha, Hh, length_app. cbn [length].
    repeat split.
    - f_equal. lia.
    - eexists _, kMac. rewrite <- app_assoc. reflexivity. }
  assert (HN : transactionId (auth c) = None ->
               authenticateEV2NonFirst keyNo key c
               = (Throw NonFirstRequiresFirst, c)).
  { intros Hn. unfold authenticateEV2NonFirst, bind, gets. rewrite Hn.
    reflexivity. }
  specialize (HT c). specialize (HR c).
  destruct (authenticateEV2NonFirst keyNo key c) as [[r|e] c'].
  - exact (HR r c' ltac:(reflexivity) eq_refl).
  - cbn [fst snd]. split; [exact (HT e c' ltac:(reflexivity) eq_refl)|].
    intros Hn. specialize (HN Hn). injection HN as -> ->. tauto.
Qed.

Lemma awaiting_card_resetAuth (c : Card) : awaiting_card c (resetAuth c).2.
Proof.
  split; [apply resetAuth_cleared|]. split; [|reflexivity].
  cbn. destruct (sessionKeyEnc (auth c)), (sessionKeyMac (auth c));
    cbn [fill0]; rewrite ?length_alter; reflexivity.
Qed.

Lemma awaiting_card_step {A} (c0 : Card) (m : M A) :
  preserves same_session m ->
  forall c, awaiting_card c0 c -> awaiting_card c0 (m c).2.
Proof.
  intros Hm c (Hc & Hl & Ht). destruct (Hm c) as [Ha Hh].
  split; [apply (cleared_same_session c0 c); [split|]; assumption|].
  rewrite Ha, Hh. tauto.
Qed.

Ltac awaiting_step :=
  apply awaiting_card_step;
  first [ apply same_session_sendCommand
        | apply same_session_generateRandom
        | apply (preserves_lift same_session) ].

(** The five assignments that end a successful handshake. *)
Lemma fresh_session_installed (keyNo : Z) (c0 c1 : Card) (kEnc kMac : Buffer) :
  cleared c0 c1 ->
  length (heap c1) = length (heap c0) ->
  let c2 := set_sessionKeyEnc (Some (length (heap c1)))
              (set_heap (heap c1 ++ [kEnc]) c1) in
  let c3 := set_sessionKeyMac (Some (length (heap c2)))
              (set_heap (heap c2 ++ [kMac]) c2) in
  fresh_session keyNo c0
    (set_commandCounter 0
       (set_authenticatedKeyNo (Some keyNo) (set_authenticated true c3))).
Proof.
  intros (_ & _ & _ & Hz) Hl c2 c3. subst c2 c3. unfold fresh_session. cbn.
  rewrite !length_app, Hl. cbn [length].
  repeat split; try (f_equal; lia); try lia.
  intros l b Href Hb.
  apply lookup_app_l_Some, lookup_app_l_Some, (Hz l b Href Hb).
Qed.

Lemma authenticateAES_success (keyNo : Z) (key : option Buffer) (c c' : Card) :
  authenticateAES keyNo key c = (Ok tt, c') ->
  fresh_session keyNo c c' /\ transactionId (auth c') = None.
Proof.
  unfold authenticateAES, bind at 1.
  pose proof (resolveKey_state keyNo key c) as Hst.
  destruct (resolveKey keyNo key c) as [[authKey|e0] cc]; cbn in Hst |- *;
    subst cc; [|discriminate].
  destruct (length authKey =? 16)%nat; cbn [negb]; [|discriminate].
  unfold bind at 1.
  change (resetAuth c) with (Ok tt, (resetAuth c).2).
  cbv iota beta.
  generalize (awaiting_card_resetAuth c). generalize ((resetAuth c).2).
  intros c1 H1 E.
  match type of E with
  | ?rest c1 = _ =>
      assert (HR : onReturn (awaiting_card c) rest
                     (fun _ c' => fresh_session keyNo c c'
                                  /\ transactionId (auth c') = None))
  end.
  { on_return awaiting_step.
    intros c2 r c3 (Hc & Hl & Ht) E2. unfold bind, newBuffer, modify in E2.
    injection E2 as _ <-.
    split; [apply fresh_session_installed; assumption | exact Ht]. }
  exact (HR c1 tt c' H1 E).
Qed.

Lemma length_slice_0 (b : Buffer) (n : nat) :
  (n <= length b)%nat -> length (slice b 0 n) = n.
Proof.
  intros Hn. unfold slice. rewrite drop_0, Nat.sub_0_r, length_take. lia.
Qed.

Lemma authenticateEV2First_success (keyNo : Z) (key : option Buffer)
    (c c' : Card) :
  authenticateEV2First keyNo key c = (Ok tt, c') ->
  fresh_session keyNo c c'
  /\ exists t, transactionId (auth c') = Some t /\ length t = 4%nat.
Proof.
  unfold authenticateEV2First, bind at 1.
  pose proof (resolveKey_state keyNo key c) as Hst.
  destruct (resolveKey keyNo key c) as [[authKey|e0] cc]; cbn [snd] in Hst;
    cbv beta iota; subst cc; [|discriminate].
  destruct (length authKey =? 16)%nat; cbn [negb]; [|discriminate].
  unfold bind at 1.
  change (resetAuth c) with (Ok tt, (resetAuth c).2).
  cbv iota beta.
  generalize (awaiting_card_resetAuth c). generalize ((resetAuth c).2).
  intros c1 H1 E.
  match type of E with
  | ?rest c1 = _ =>
      assert (HR : onReturn (awaiting_card c) rest
                     (fun _ c' =>
                        fresh_session keyNo c c'
                        /\ exists t, transactionId (auth c') = Some t
                                     /\ length t = 4%nat))
  end.
  { repeat first
      [ apply onReturn_throw
      | match goal with
        | |- onReturn _ (if (length ?r <? 4)%nat then _ else _) _ =>
            destruct (Nat.ltb_spec (length r) 4)
        | |- onReturn _ (if ?b then _ else _) _ => destruct b
        end
      | apply onReturn_bind; [awaiting_step | intros ?] ].
    intros c2 r c3 (Hc & Hl & Ht) E2.
    unfold bind, lift, newBuffer, modify in E2.
    repeat match type of E2 with
           | match ?x with _ => _ end = _ =>
               destruct x; [|discriminate]
           | (if ?b then _ else _) _ = _ => destruct b; [discriminate|]
           | match (if ?b then _ else _) _ with _ => _ end = _ =>
               destruct b; [discriminate|]
           end.
    injection E2 as _ <-.
    split.
    - apply (fresh_session_installed keyNo c
               (set_transactionId (Some (slice _ 0 4)) c2));
        [exact Hc | exact Hl].
    - eexists. split; [reflexivity|]. apply length_slice_0. assumption. }
  exact (HR c1 tt c' H1 E).
Qed.

(** An answer made of continuation frames and a final success frame is
    returned reassembled, with the preference unchanged. *)
Lemma sendCommand_answer (c : Card) (cmd : Z) (data_ : option Buffer)
    (frags : list Buffer) (dl : Buffer) (s1 s2 : Z)
    (rest : list (option Buffer)) :
  tx_tape (reader c) = afFrames frags ++ Some (frame dl s1 s2) :: rest ->
  APDU.isSuccess s1 s2 = true ->
  sendCommand cmd data_ c
  = (Ok (concat frags ++ dl),
     after_tx (encodeCommand cmd data_ (negb (preferNoLe c))
               :: replicate (length frags) (afApdu (preferNoLe c)))
              rest c).
Proof.
  intros E S. destruct frags as [|f frags].
  - apply (sendCommand_success _ _ _ _ _ _ _ E S).
  - change (afFrames (f :: frags) ++ Some (frame dl s1 s2) :: rest)
      with (Some (frame f 0x91 0xAF)
            :: afFrames frags ++ Some (frame dl s1 s2) :: rest) in E.
    rewrite (sendCommand_until_last _ _ _ _ _ _ _ _ _ E
               (isSuccess_not_af _ _ S)).
    + cbn [concat length]. rewrite <- app_assoc. reflexivity.
    + pose proof (accepted_not_length_error (mkParsed s1 s2 dl)) as Hn.
      unfold accepted in Hn. cbn [sw1 sw2] in Hn. rewrite S in Hn.
      apply Hn. reflexivity.
Qed.

(** The transaction id [authenticateEV2First] stores is cut from the
    card's answer to the challenge. *)
Lemma authenticateEV2First_transaction_id (keyNo : Z) (key : option Buffer)
    (c c' : Card) (frags1 frags2 : list Buffer) (dl1 dl2 : Buffer)
    (s1 s2 t1 t2 : Z) (rest : list (option Buffer)) :
  authenticateEV2First keyNo key c = (Ok tt, c') ->
  tx_tape (reader c)
  = afFrames frags1 ++ Some (frame dl1 s1 s2)
    :: afFrames frags2 ++ Some (frame dl2 t1 t2) :: rest ->
  APDU.isSuccess s1 s2 = true ->
  APDU.isSuccess t1 t2 = true ->
  transactionId (auth c') = Some (take 4 (concat frags2 ++ dl2)).
Proof.
  intros E T S1 S2. revert E.
  unfold authenticateEV2First, bind at 1.
  pose proof (resolveKey_state keyNo key c) as Hst.
  destruct (resolveKey keyNo key c) as [[authKey|e0] cc]; cbn [snd] in Hst;
    cbv beta iota; subst cc; [|discriminate].
  destruct (length authKey =? 16)%nat; cbn [negb]; [|discriminate].
  unfold bind at 1.
  change (resetAuth c) with (Ok tt, (resetAuth c).2). cbv iota beta.
  assert (T1 : tx_tape (reader (resetAuth c).2)
               = afFrames frags1 ++ Some (frame dl1 s1 s2)
                 :: afFrames frags2 ++ Some (frame dl2 t1 t2) :: rest)
    by exact T.
  revert T1. generalize ((resetAuth c).2). clear T. intros c1 T.
  unfold bind at 1.
  rewrite (sendCommand_answer c1 _ _ frags1 dl1 s1 s2 _ T S1).
  cbv iota beta.
  destruct (length (concat frags1 ++ dl1) <? 16)%nat; [discriminate|].
  unfold bind at 1, lift.
  destruct (aesDecrypt authKey _ zeroIV16) as [rndB|]; [|discriminate].
  cbv iota beta. unfold bind at 1, generateRandom. cbv iota beta.
  unfold bind at 1, lift.
  destruct (aesEncrypt authKey _ zeroIV16) as [encChallenge|]; [|discriminate].
  cbv iota beta. unfold bind at 1.
  erewrite (sendCommand_answer _ _ _ frags2 dl2 t1 t2)
    by (reflexivity || exact S2).
  cbv iota beta.
  match goal with
  | |- context [after_tx ?l rest ?x] =>
      generalize (after_tx l rest x); intros c2
  end.
  destruct (length (concat frags2 ++ dl2) <? 4)%nat; [discriminate|].
  unfold bind at 1, modify. cbv iota beta.
  unfold bind at 1, lift.
  destruct (aesDecrypt authKey _ zeroIV16) as [rndAPrime|]; [|discriminate].
  cbv iota beta.
  destruct (negb (bool_decide _)); [discriminate|].
  unfold bind, lift, newBuffer, modify.
  destruct (deriveSessionKeyEV2Enc _ _ _) as [kEnc|]; [|discriminate].
  destruct (deriveSessionKeyEV2Mac _ _ _) as [kMac|]; [|discriminate].
  intros E. injection E as <-. unfold slice. rewrite drop_0. reflexivity.
Qed.

(** X30: a handshake ([authenticateAES] or [authenticateEV2First]) that
    returns leaves a fresh session: the card object is authenticated
    under the key number, the command counter is 0, the two session keys
    are in buffers created by this call, and the buffers that held the
    earlier session keys are all zeros.  After [authenticateAES] there
    is no transaction id.  After [authenticateEV2First] the transaction
    id has four bytes, and when the card's two answers each arrive as
    continuation frames closed by a success frame, it is the first four
    bytes of the reassembled second answer. *)
Theorem successful_handshake_installs_session (ev2First : bool) (keyNo : Z)
    (key : option Buffer) (c c' : Card) :
  (if ev2First then authenticateEV2First keyNo key c
   else authenticateAES keyNo key c) = (Ok tt, c') ->
  fresh_session keyNo c c'
  /\ if ev2First
     then (exists t, transactionId (auth c') = Some t /\ length t = 4%nat)
          /\ forall (frags1 frags2 : list Buffer) (dl1 dl2 : Buffer)
                    (s1 s2 t1 t2 : Z) (rest : list (option Buffer)),
               tx_tape (reader c)
               = afFrames frags1 ++ Some (frame dl1 s1 s2)
                 :: afFrames frags2 ++ Some (frame dl2 t1 t2) :: rest ->
               APDU.isSuccess s1 s2 = true ->
               APDU.isSuccess t1 t2 = true ->
               transactionId (auth c') = Some (take 4 (concat frags2 ++ dl2))
     else transactionId (auth c') = None.
Proof.
  destruct ev2First; [|apply authenticateAES_success].
  intros E. destruct (authenticateEV2First_success _ _ _ _ E) as [Hf Ht].
  split; [exact Hf|]. split; [exact Ht|].
  intros frags1 frags2 dl1 dl2 s1 s2 t1 t2 rest.
  apply (authenticateEV2First_transaction_id _ _ _ _ _ _ _ _ _ _ _ _ _ E).
Qed.

End SessionAfterAuthentication.

Lemma successful_handshake_installs_session_witness :
  let c := freshCard ev2HandshakeAnswers in
  let c' := (@authenticateEV2First toyCrypto 0 (Some K0) c).2 in
  fresh_session 0 c c'
  /\ (exists t, transactionId (auth c') = Some t /\ length t = 4%nat)
     /\ forall (frags1 frags2 : list Buffer) (dl1 dl2 : Buffer)
               (s1 s2 t1 t2 : Z) (rest : list (option Buffer)),
          tx_tape (reader c)
          = afFrames frags1 ++ Some (frame dl1 s1 s2)
            :: afFrames frags2 ++ Some (frame dl2 t1 t2) :: rest ->
          APDU.isSuccess s1 s2 = true ->
          APDU.isSuccess t1 t2 = true ->
          transactionId (auth c') = Some (take 4 (concat frags2 ++ dl2)).
Proof.
  apply (@successful_handshake_installs_session toyCrypto true 0 (Some K0)
           (freshCard ev2HandshakeAnswers)).
  vm_compute. reflexivity.
Defined.

(** On that exchange the transaction id is A1 A2 A3 A4; the legacy AES
    handshake on its own exchange leaves none. *)
Example handshake_transaction_id_scenario :
  transactionId
    (auth (@authenticateEV2First toyCrypto 0 (Some K0)
             (freshCard ev2HandshakeAnswers)).2)
  = Some [0xA1; 0xA2; 0xA3; 0xA4]
  /\ (@authenticateAES toyCrypto 0 (Some K0)
        (freshCard aesHandshakeAnswers)).1 = Ok tt
  /\ transactionId
       (auth (@authenticateAES toyCrypto 0 (Some K0)
                (freshCard aesHandshakeAnswers)).2) = None.
Proof. vm_compute. repeat split. Qed.

(** * The command engine on the wire *)

(** C1 (amended): [selectApplication] with an id in [0, 2^24) begins by
    transmitting SELECT_APPLICATION with the id as three little-endian
    bytes, in the preferred Le form; an id outside that range throws
    before anything is sent.  It records [currentApp := aid] when the
    command succeeds, as it does when the card answers with a success
    status, and leaves [currentApp] alone when it fails.  It never
    touches the authentication state: whatever the card answers,
    [authenticated], the key number, both session keys and their
    buffers, the transaction identifier and the command counter are what
    they were before the call. *)
Theorem selectApplication_keeps_session (c : Card) (aid : Z) :
  let out := selectApplication aid c in
  let apdu := [0x90; 0x5A; 0x00; 0x00; 0x03] ++ uintLE 3 aid
              ++ (if preferNoLe c then [] else [0x00]) in
  auth out.2 = auth c
  /\ heap out.2 = heap c
  /\ currentApp out.2
     = match out.1 with
       | Ok _ => Some aid
       | Throw _ => currentApp c
       end
  /\ (if (0 <=? aid) && (aid <? 2 ^ 24)
      then exists more, tx_log (reader out.2) = tx_log (reader c) ++ apdu :: more
      else out = (Throw RangeError, c))
  /\ (forall (d : Buffer) (s1 s2 : Z) (rest : list (option Buffer)),
        0 <= aid < 2 ^ 24 ->
        tx_tape (reader c) = Some (frame d s1 s2) :: rest ->
        APDU.isSuccess s1 s2 = true ->
        out = (Ok tt, set_currentApp (Some aid) (after_tx [apdu] rest c))).
Proof.
  cbn zeta.
  assert (Happ : forall usesLe,
            encodeCommand DesfireCommand.SELECT_APPLICATION
                          (Some (uintLE 3 aid)) usesLe
            = [0x90; 0x5A; 0x00; 0x00; 0x03] ++ uintLE 3 aid
              ++ (if usesLe then [0x00] else [])).
  { intros usesLe. rewrite encodeCommand_data by discriminate.
    rewrite length_uintLE. reflexivity. }
  split; [|split; [|split; [|split]]].
  - unfold selectApplication, bind at 1, lift.
    destruct (writeUIntLE3 aid) as [aidBuffer|e]; [|reflexivity].
    unfold bind.
    pose proof (engine_only_sendCommand DesfireCommand.SELECT_APPLICATION
                  (Some aidBuffer) c) as Hs.
    destruct (sendCommand _ _ c) as [[r|e] c1]; cbn in Hs |- *;
      destruct Hs as (?&?&?&?); assumption.
  - unfold selectApplication, bind at 1, lift.
    destruct (writeUIntLE3 aid) as [aidBuffer|e]; [|reflexivity].
    unfold bind.
    pose proof (engine_only_sendCommand DesfireCommand.SELECT_APPLICATION
                  (Some aidBuffer) c) as Hs.
    destruct (sendCommand _ _ c) as [[r|e] c1]; cbn in Hs |- *;
      destruct Hs as (?&?&?&?); assumption.
  - unfold selectApplication, bind at 1, lift.
    destruct (writeUIntLE3 aid) as [aidBuffer|e]; [|reflexivity].
    unfold bind.
    pose proof (engine_only_sendCommand DesfireCommand.SELECT_APPLICATION
                  (Some aidBuffer) c) as Hs.
    destruct (sendCommand _ _ c) as [[r|e] c1]; cbn in Hs |- *;
      destruct Hs as (?&?&?&?); [reflexivity | assumption].
  - unfold selectApplication, bind at 1, lift, writeUIntLE3.
    destruct ((0 <=? aid) && (aid <? 2 ^ 24)); [|reflexivity].
    destruct (sendCommand_transmits_first DesfireCommand.SELECT_APPLICATION
                (Some (uintLE 3 aid)) c) as [more Hmore].
    exists more. rewrite Happ in Hmore.
    match goal with
    | |- tx_log (reader (?m c).2) = _ =>
        assert (Hr : reader (m c).2
                     = reader (sendCommand DesfireCommand.SELECT_APPLICATION
                                 (Some (uintLE 3 aid)) c).2)
          by (unfold bind; destruct (sendCommand _ _ c) as [[r|e] c1];
              reflexivity)
    end.
    rewrite Hr, Hmore. destruct (preferNoLe c); reflexivity.
  - intros d s1 s2 rest Ha E S.
    unfold selectApplication, bind at 1, lift, writeUIntLE3.
    rewrite (proj2 (Z.leb_le _ _) (proj1 Ha)), (proj2 (Z.ltb_lt _ _) (proj2 Ha)).
    cbn [andb]. unfold bind at 1.
    rewrite (sendCommand_success _ _ _ _ _ _ _ E S), Happ.
    unfold modify. destruct (preferNoLe c); reflexivity.
Qed.


(** C5, as stated, fails: an answer without a status word makes
    [transmitParsed] itself send the command in the other Le form.  On
    a fresh card object (preference no-Le) whose reader returns an empty
    answer to 90 60 00 00 and the version block with 91 00 to what
    follows, [sendCommand] sends 90 60 00 00 and then 90 60 00 00 00
    although no length error was answered, and the preference
    afterwards is still no-Le, the form that was not accepted. *)
Lemma empty_answer_toggles_le :
  let c := freshCard [Some []; Some (frame hwBlock 0x91 0x00)] in
  let out := sendCommand DesfireCommand.GET_VERSION None c in
  preferNoLe c = true
  /\ out.1 = Ok hwBlock
  /\ tx_log (reader out.2)
     = [[0x90; 0x60; 0x00; 0x00]; [0x90; 0x60; 0x00; 0x00; 0x00]]
  /\ preferNoLe out.2 = true.
Proof. vm_compute. repeat split. Qed.

(** C5 (amended): on a reader that answers the first two transmits with
    a status word, [sendCommand] sends the command in the preferred Le
    form first and in the opposite form next exactly when the first
    answer is a length error (91 7E or 91 A1).  An accepted answer
    (success or continuation) to the preferred form leaves the
    preference as it is, an accepted answer to the opposite form flips
    it, and the reassembly of a continuation then runs under that
    preference; any other status is thrown with the preference
    unchanged.  A new card object prefers the form without Le. *)
Theorem sendCommand_le_negotiation (c : Card) (cmd : Z)
    (data_ : option Buffer) (d1 d2 : Buffer) (s1 s2 t1 t2 : Z)
    (rest : list (option Buffer)) :
  tx_tape (reader c)
  = Some (frame d1 s1 s2) :: Some (frame d2 t1 t2) :: rest ->
  let preferred := encodeCommand cmd data_ (negb (preferNoLe c)) in
  let opposite := encodeCommand cmd data_ (preferNoLe c) in
  let settle (d : Buffer) (s1 s2 : Z) : M Buffer :=
    if APDU.isAdditionalFrame s1 s2
    then (let* more := getAdditionalFrame in ret (d ++ more))
    else ret d in
  (sendCommand cmd data_ c
  = if accepted (mkParsed s1 s2 d1) then
      settle d1 s1 s2
        (after_tx [preferred] (Some (frame d2 t1 t2) :: rest) c)
    else if negb (isLengthError (mkParsed s1 s2 d1)) then
      (Throw (CommandFailed s1 s2),
       after_tx [preferred] (Some (frame d2 t1 t2) :: rest) c)
    else if accepted (mkParsed t1 t2 d2) then
      settle d2 t1 t2
        (set_preferNoLe (negb (preferNoLe c))
           (after_tx [preferred; opposite] rest c))
    else
      (Throw (CommandFailed t1 t2), after_tx [preferred; opposite] rest c))
  /\ forall (r : Reader) (km : option (gmap Z KeySet)) (rnd : nat -> Z),
       preferNoLe (newCard r km rnd) = true.
Proof.
  intros E preferred opposite settle. subst preferred opposite settle.
  split; [|reflexivity].
  assert (Hsplit : forall a b x,
             accepted (mkParsed a b x) = false ->
             negb (APDU.isSuccess a b) && negb (APDU.isAdditionalFrame a b)
             = true).
  { intros a b x Hx. unfold accepted in Hx. cbn [sw1 sw2] in Hx.
    apply orb_false_iff in Hx as [-> ->]. reflexivity. }
  assert (Hacc : forall a b x,
             accepted (mkParsed a b x) = true ->
             negb (APDU.isSuccess a b) && negb (APDU.isAdditionalFrame a b)
             = false).
  { intros a b x Hx. unfold accepted in Hx. cbn [sw1 sw2] in Hx.
    destruct (APDU.isSuccess a b), (APDU.isAdditionalFrame a b);
      try reflexivity; discriminate. }
  assert (E2 : forall apdu,
             tx_tape (reader (consume apdu c)) = Some (frame d2 t1 t2) :: rest)
    by (intros apdu; rewrite tx_tape_consume, E; reflexivity).
  unfold sendCommand. unfold bind at 1, gets. unfold bind at 1.
  unfold tryTransmitAttempts, commandAttempts, attemptsInOrder.
  destruct (preferNoLe c) eqn:P; cbn [negb];
    rewrite (tryTransmitAttempts_step _ _ _ _ _ _ _ _ _ E);
    (destruct (accepted (mkParsed s1 s2 d1)) eqn:A1;
     [ cbv iota; cbn [sw1 sw2 data]; rewrite (Hacc _ _ _ A1);
       rewrite <- P at 1; rewrite (set_preferNoLe_same (consume _ c));
       rewrite (consume_after_tx _ _ _ _ E); reflexivity |]);
    (destruct (isLengthError (mkParsed s1 s2 d1)) eqn:L1; cbn [negb];
     [| cbv iota; unfold ret; cbn [sw1 sw2 data]; rewrite (Hsplit _ _ _ A1);
        unfold throw; rewrite (consume_after_tx _ _ _ _ E); reflexivity ]);
    rewrite (tryTransmitAttempts_step _ _ _ _ _ _ _ _ _ (E2 _));
    rewrite (consume_after_tx _ _ _ _ E);
    (erewrite consume_after_tx by reflexivity);
    rewrite after_tx_after_tx;
    (destruct (accepted (mkParsed t1 t2 d2)) eqn:A2;
     [ cbv iota; cbn [sw1 sw2 data]; rewrite (Hacc _ _ _ A2); reflexivity |]);
    destruct (isLengthError (mkParsed t1 t2 d2)); cbn [negb];
    cbn [tryTransmitAttempts_from]; unfold ret; cbn [sw1 sw2 data];
    rewrite (Hsplit _ _ _ A2); reflexivity.
Qed.

Lemma sendCommand_le_negotiation_witness :
  let c := freshCard [Some [0x91; 0x7E]; Some (frame hwBlock 0x91 0x00)] in
  sendCommand DesfireCommand.GET_VERSION None c
  = (Ok hwBlock,
     set_preferNoLe false
       (after_tx [[0x90; 0x60; 0x00; 0x00]; [0x90; 0x60; 0x00; 0x00; 0x00]]
                 [] c))
  /\ forall (r : Reader) (km : option (gmap Z KeySet)) (rnd : nat -> Z),
       preferNoLe (newCard r km rnd) = true.
Proof.
  exact (sendCommand_le_negotiation
           (freshCard [Some [0x91; 0x7E]; Some (frame hwBlock 0x91 0x00)])
           DesfireCommand.GET_VERSION None [] hwBlock 0x91 0x7E 0x91 0x00 []
           eq_refl).
Defined.
